(** * Tetris: the game core of brick_game/tetris/tetris.c

    A shallow embedding of the state machine, the piece physics and the
    scoring of tetris.c, and the properties of its specification.

    Conventions of the embedding.
    - A C [int] is a [Z].  Positions, cell values, counters, level and
      speed stay far inside the range of [int], so their arithmetic is
      that of [Z].  The score grows without bound and the clock readings
      are whatever the system hands over: the addition to the score and
      the arithmetic of [getTime] wrap around as 32-bit [int] and 64-bit
      [long] do in two's complement ([int_of], [long_of]).
    - A function that takes [Params_t *param] and mutates it becomes a
      function from [Params_t] to the new [Params_t] (with its result).
    - A heap matrix ([int **], made by [initMatrix]) is a list of rows.
      An access outside it is undefined behaviour in C; here it is the
      outcome [Fault].
    - A [while] loop that never leaves is the outcome [Spin].
    - [rand()], the clocks and the high-score file are the environment:
      the random number and the time are arguments of the call that
      consumes them, the file is a component of the state. *)

From Stdlib Require Import ZArith List Lia Bool.
From stdpp Require Import base numbers option list list_numbers.

Local Open Scope Z_scope.

(** ** Outcomes *)

Inductive outcome (A : Type) : Type :=
| Done (a : A)
| Fault
| Spin.
Arguments Done {A} a.
Arguments Fault {A}.
Arguments Spin {A}.

Definition bind {A B : Type} (m : outcome A) (f : A -> outcome B)
    : outcome B :=
  match m with
  | Done a => f a
  | Fault => Fault
  | Spin => Spin
  end.

Notation "'let*' x ':=' m 'in' k" := (bind m (fun x => k))
  (at level 10, x pattern, m at level 100, k at level 200).

(** [for (a in l) body], threading the mutated state. *)
Fixpoint for_each {A S : Type} (l : list A) (body : A -> S -> outcome S)
    (s : S) : outcome S :=
  match l with
  | [] => Done s
  | a :: l' => let* s' := body a s in for_each l' body s'
  end.

(** ** Machine integers *)

(** The value a signed [w]-bit variable holds after a computation whose
    mathematical result is [z]. *)
Definition wrap (w : Z) (z : Z) : Z :=
  (z + 2 ^ (w - 1)) mod 2 ^ w - 2 ^ (w - 1).

Definition INT_MIN : Z := -2147483648.
Definition INT_MAX : Z := 2147483647.

(** [int] has 32 bits; [long] and [time_t], the members of
    [struct timespec], have 64. *)
Definition int_of (z : Z) : Z := wrap 32 z.
Definition long_of (z : Z) : Z := wrap 64 z.

(** ** tetris.h *)

Definition FIELD_HEIGHT : Z := 20.
Definition FIELD_WIDTH : Z := 10.
Definition BLOCK : Z := 4.

Inductive UserAction_t : Set :=
| Start | Pause | Terminate | Left | Right | Up | Down | Action.

Inductive Status_game : Set :=
| Start_t | Spawn | Moving | Shifting | Pause_t | Attaching | Terminate_t
| GameOver.

(** [int shape[BLOCK][BLOCK]]: four rows of four cells, a fixed-size array
    inside the struct.  Every index the program uses on it is a loop
    counter [0 <= k < BLOCK]; [at4] and [put4] treat any other index as
    the last one. *)
Definition Quad (A : Type) : Type := (A * A * A * A)%type.
Definition Shape : Type := Quad (Quad Z).

Definition at4 {A : Type} (t : Quad A) (k : Z) : A :=
  let '(a, b, c, d) := t in
  match k with
  | 0 => a
  | 1 => b
  | 2 => c
  | _ => d
  end.

Definition put4 {A : Type} (t : Quad A) (k : Z) (v : A) : Quad A :=
  let '(a, b, c, d) := t in
  match k with
  | 0 => (v, b, c, d)
  | 1 => (a, v, c, d)
  | 2 => (a, b, v, d)
  | _ => (a, b, c, v)
  end.

(** [shape[i][j]] and [shape[i][j] = v] *)
Definition cell_of (s : Shape) (i j : Z) : Z := at4 (at4 s i) j.
Definition cell_set (s : Shape) (i j v : Z) : Shape :=
  put4 s i (put4 (at4 s i) j v).

Definition zero_shape : Shape :=
  ((0, 0, 0, 0), (0, 0, 0, 0), (0, 0, 0, 0), (0, 0, 0, 0)).

(** The counters of [for (i = 0; i < BLOCK; i++)] and of the nested
    [for i, for j] over a shape, in the order the loops visit them. *)
Definition block_range : list Z := [0; 1; 2; 3].
Definition block_cells : list (Z * Z) :=
  i ← block_range; j ← block_range; [(i, j)].

(** The counters of [for (x = 0; x < FIELD_WIDTH; x++)]. *)
Definition width_range : list Z := [0; 1; 2; 3; 4; 5; 6; 7; 8; 9].

(** A heap matrix. *)
Abbreviation Grid := (list (list Z)).

(** [g[y][x]] *)
Definition peek (g : Grid) (y x : Z) : outcome Z :=
  if (y <? 0) || (x <? 0) then Fault
  else match g !! Z.to_nat y with
       | Some row =>
           match row !! Z.to_nat x with
           | Some v => Done v
           | None => Fault
           end
       | None => Fault
       end.

(** [g[y][x] = v] *)
Definition poke (g : Grid) (y x v : Z) : outcome Grid :=
  if (y <? 0) || (x <? 0) then Fault
  else match g !! Z.to_nat y with
       | Some row =>
           if decide (Z.to_nat x < length row)%nat
           then Done (<[Z.to_nat y := <[Z.to_nat x := v]> row]> g)
           else Fault
       | None => Fault
       end.

Record Piece : Type := mkPiece {
  shape : Shape;
  posX : Z;
  posY : Z;
  type : Z;
  rotation : Z
}.

Record GameInfo_t : Type := mkGameInfo {
  field : Grid;
  next : Grid;
  score : Z;
  high_score : Z;
  level : Z;
  speed : Z;
  pause : Z
}.

Record timespec : Type := mkTimespec { tv_sec : Z; tv_nsec : Z }.

(** [Params_t].  [game_info] stands for the struct it points to (there is
    one, the static of [initGameInfo]).  The member [drop_interval] is
    never read or written by the program and is left out. *)
Record Params_t : Type := mkParams {
  game_info : GameInfo_t;
  drop_time : timespec;
  start : bool;
  currentPiece : Piece;
  nextPiece : Piece;
  fieldForFront : Grid
}.

(** Assignments to members. *)
Definition with_game_info (gi : GameInfo_t) (p : Params_t) : Params_t :=
  mkParams gi (drop_time p) (start p) (currentPiece p) (nextPiece p)
    (fieldForFront p).
Definition with_drop_time (t : timespec) (p : Params_t) : Params_t :=
  mkParams (game_info p) t (start p) (currentPiece p) (nextPiece p)
    (fieldForFront p).
Definition with_start (b : bool) (p : Params_t) : Params_t :=
  mkParams (game_info p) (drop_time p) b (currentPiece p) (nextPiece p)
    (fieldForFront p).
Definition with_currentPiece (c : Piece) (p : Params_t) : Params_t :=
  mkParams (game_info p) (drop_time p) (start p) c (nextPiece p)
    (fieldForFront p).
Definition with_nextPiece (n : Piece) (p : Params_t) : Params_t :=
  mkParams (game_info p) (drop_time p) (start p) (currentPiece p) n
    (fieldForFront p).
Definition with_fieldForFront (g : Grid) (p : Params_t) : Params_t :=
  mkParams (game_info p) (drop_time p) (start p) (currentPiece p)
    (nextPiece p) g.

Definition with_field (g : Grid) (gi : GameInfo_t) : GameInfo_t :=
  mkGameInfo g (next gi) (score gi) (high_score gi) (level gi) (speed gi)
    (pause gi).
Definition with_next (g : Grid) (gi : GameInfo_t) : GameInfo_t :=
  mkGameInfo (field gi) g (score gi) (high_score gi) (level gi) (speed gi)
    (pause gi).
Definition with_score (v : Z) (gi : GameInfo_t) : GameInfo_t :=
  mkGameInfo (field gi) (next gi) v (high_score gi) (level gi) (speed gi)
    (pause gi).
Definition with_level (v : Z) (gi : GameInfo_t) : GameInfo_t :=
  mkGameInfo (field gi) (next gi) (score gi) (high_score gi) v (speed gi)
    (pause gi).
Definition with_speed (v : Z) (gi : GameInfo_t) : GameInfo_t :=
  mkGameInfo (field gi) (next gi) (score gi) (high_score gi) (level gi) v
    (pause gi).
Definition with_pause (v : Z) (gi : GameInfo_t) : GameInfo_t :=
  mkGameInfo (field gi) (next gi) (score gi) (high_score gi) (level gi)
    (speed gi) v.

Definition with_posX (v : Z) (c : Piece) : Piece :=
  mkPiece (shape c) v (posY c) (type c) (rotation c).
Definition with_posY (v : Z) (c : Piece) : Piece :=
  mkPiece (shape c) (posX c) v (type c) (rotation c).
Definition with_shape (s : Shape) (c : Piece) : Piece :=
  mkPiece s (posX c) (posY c) (type c) (rotation c).
Definition with_rotation (v : Z) (c : Piece) : Piece :=
  mkPiece (shape c) (posX c) (posY c) (type c) v.

(** [param->game_info->field = g] *)
Definition set_field (g : Grid) (p : Params_t) : Params_t :=
  with_game_info (with_field g (game_info p)) p.

(** ** initMatrix *)

(** [calloc]: [row] rows of [col] zeros. *)
Definition initMatrix (row col : Z) : Grid :=
  replicate (Z.to_nat row) (replicate (Z.to_nat col) 0).

(** ** copyPieceShape *)

Definition copyPieceShape (dest src : Shape) : Shape :=
  fold_left (fun d '(i, j) => cell_set d i j (cell_of src i j))
    block_cells dest.

(** ** canPlacePiece *)

Definition canPlacePiece (param : Params_t) : outcome bool :=
  let cur := currentPiece param in
  for_each block_cells (fun '(i, j) return_value =>
    if cell_of (shape cur) i j =? 0 then Done return_value
    else
      let x := posX cur + j in
      let y := posY cur + i in
      if (x <? 0) || (x >=? FIELD_WIDTH) || (y <? 0) || (y >=? FIELD_HEIGHT)
      then Done false
      else let* v := peek (field (game_info param)) y x in
           Done (if v =? 0 then return_value else false)) true.

(** ** spawnNewPiece *)

Definition pieces : list Shape :=
  [ ((0, 0, 0, 0), (1, 1, 1, 1), (0, 0, 0, 0), (0, 0, 0, 0));
    ((1, 1, 0, 0), (1, 1, 0, 0), (0, 0, 0, 0), (0, 0, 0, 0));
    ((0, 1, 0, 0), (1, 1, 1, 0), (0, 0, 0, 0), (0, 0, 0, 0));
    ((1, 0, 0, 0), (1, 1, 1, 0), (0, 0, 0, 0), (0, 0, 0, 0));
    ((0, 0, 1, 0), (1, 1, 1, 0), (0, 0, 0, 0), (0, 0, 0, 0));
    ((0, 1, 1, 0), (1, 1, 0, 0), (0, 0, 0, 0), (0, 0, 0, 0));
    ((1, 1, 0, 0), (0, 1, 1, 0), (0, 0, 0, 0), (0, 0, 0, 0)) ].

(** The block that both branches of [spawnNewPiece] contain word for
    word: draw [index = rand() % 7], fill [nextPiece] from the template
    and paint the preview matrix.  [rnd] is the value of [rand()]. *)
Definition drawNextPiece (rnd : nat) (param : Params_t)
    : outcome Params_t :=
  let index := Z.rem (Z.of_nat rnd) 7 in
  match pieces !! Z.to_nat index with
  | None => Fault
  | Some template =>
      let np :=
        mkPiece (copyPieceShape (shape (nextPiece param)) template)
          (FIELD_WIDTH ÷ 2 - BLOCK ÷ 2) 0 index 0 in
      let* g := for_each block_cells (fun '(i, j) g =>
             poke g i j (if cell_of (shape np) i j =? 0 then 0
                         else type np + 1))
           (next (game_info param)) in
      Done (with_game_info (with_next g (game_info param))
              (with_nextPiece np param))
  end.

Definition spawnNewPiece (rnd : nat) (param : Params_t) (isInit : bool)
    : outcome (bool * Params_t) :=
  if isInit then
    let* p := drawNextPiece rnd param in Done (true, p)
  else
    let cur :=
      mkPiece
        (copyPieceShape (shape (currentPiece param))
           (shape (nextPiece param)))
        (FIELD_WIDTH ÷ 2 - BLOCK ÷ 2) 0 (type (nextPiece param)) 0 in
    let param := with_currentPiece cur param in
    let* ok := canPlacePiece param in
    if ok then let* p := drawNextPiece rnd param in Done (true, p)
    else Done (false, param).

(** ** fixFigure *)

Definition fixFigure (param : Params_t) : outcome Params_t :=
  let cur := currentPiece param in
  let* g := for_each block_cells (fun '(i, j) g =>
         if cell_of (shape cur) i j =? 0 then Done g
         else
           let x := posX cur + j in
           let y := posY cur + i in
           if (x >=? 0) && (x <? FIELD_WIDTH) && (y >=? 0)
              && (y <? FIELD_HEIGHT)
           then poke g y x (type cur + 1)
           else Done g)
       (field (game_info param)) in
  Done (set_field g param).

(** ** cleanStr, copyStr, updateInfo, updateCurrentGameInfo *)

Definition cleanStr (param : Params_t) (y : Z) : outcome Params_t :=
  let* g := for_each width_range (fun x g => poke g y x 0)
       (field (game_info param)) in
  Done (set_field g param).

(** The counters of [for (row = y; row > 0; row--)]. *)
Definition rows_down (y : Z) : list Z := rev (seqZ 1 y).

Definition copyStr (param : Params_t) (y : Z) : outcome Params_t :=
  let* g := for_each (rows_down y) (fun row g =>
         for_each width_range (fun col g =>
           let* v := peek g (row - 1) col in poke g row col v) g)
       (field (game_info param)) in
  let* g := for_each width_range (fun col g => poke g 0 col 0) g in
  Done (set_field g param).

Definition updateInfo (param : Params_t) (line_full : Z) : Params_t :=
  let newScore :=
    match line_full with
    | 1 => 100
    | 2 => 300
    | 3 => 700
    | 4 => 1500
    | _ => 1500
    end in
  let gi := game_info param in
  let gi := with_score (int_of (score gi + newScore)) gi in
  let newLevel := score gi ÷ 600 + 1 in
  let newLevel := if newLevel >? 10 then 10 else newLevel in
  let gi :=
    if newLevel =? level gi then gi
    else
      let gi := with_level newLevel gi in
      let gi := with_speed (1000 - (newLevel - 1) * 100) gi in
      if speed gi <? 100 then with_speed 100 gi else gi in
  with_game_info gi param.

(** The inner loop of [updateCurrentGameInfo]: [full_check] of row [y]. *)
Definition fullCheck (g : Grid) (y : Z) : outcome Z :=
  for_each width_range (fun x full_check =>
    let* v := peek g y x in
    Done (if v =? 0 then full_check else full_check + 1)) 0.

(** The outer loop [for (y = FIELD_HEIGHT - 1; y >= 0; y--)], whose body
    raises [y] again after a clear.  One pass either clears a full row or
    lowers [y], so a run makes at most [FIELD_HEIGHT] passes of each kind
    and one last test: [scan_budget] passes are enough
    ([scanLines_enough] below), and [Spin] is never the outcome on a
    matrix of [initMatrix]. *)
Definition scan_budget : nat := 41.

Fixpoint scanLines (budget : nat) (y line_full : Z) (param : Params_t)
    : outcome (Z * Params_t) :=
  match budget with
  | O => Spin
  | S budget' =>
      if y >=? 0 then
        let* full_check := fullCheck (field (game_info param)) y in
        if full_check =? FIELD_WIDTH then
          let* param := cleanStr param y in
          let* param := copyStr param y in
          scanLines budget' (y + 1 - 1) (line_full + 1) param
        else scanLines budget' (y - 1) line_full param
      else Done (line_full, param)
  end.

Definition updateCurrentGameInfo (param : Params_t) : outcome Params_t :=
  let* (line_full, param) := scanLines scan_budget (FIELD_HEIGHT - 1) 0 param in
  if line_full =? 0 then Done param
  else Done (updateInfo param line_full).

(** ** overlayCurrentPiece, createGameInfo *)

Definition overlayCurrentPiece (param : Params_t) : outcome Params_t :=
  let p := currentPiece param in
  let* g := for_each block_cells (fun '(i, j) g =>
         if cell_of (shape p) i j =? 0 then Done g
         else
           let x := posX p + j in
           let y := posY p + i in
           if (x >=? 0) && (x <? FIELD_WIDTH) && (y >=? 0)
              && (y <? FIELD_HEIGHT)
           then poke g y x (type p + 1)
           else Done g)
       (fieldForFront param) in
  Done (with_fieldForFront g param).

(** The counters of [for (i = 0; i < FIELD_HEIGHT; i++)] nested with
    [for (j = 0; j < FIELD_WIDTH; j++)]. *)
Definition field_cells : list (Z * Z) :=
  i ← seqZ 0 FIELD_HEIGHT; j ← width_range; [(i, j)].

(** The snapshot is a [GameInfo_t] by value; its members [field] and
    [next] are pointers, modelled by the contents of the matrices they
    point to when the function returns.  [param] is passed by value but
    the render buffer it points to is shared, so the buffer written here
    is returned as well. *)
Definition createGameInfo (param : Params_t) (return_check : bool)
    : outcome (GameInfo_t * Params_t) :=
  if negb return_check then Done (game_info param, param)
  else
    let* g := for_each field_cells (fun '(i, j) g =>
           let* v := peek (field (game_info param)) i j in poke g i j v)
         (fieldForFront param) in
    let* param := overlayCurrentPiece (with_fieldForFront g param) in
    let gi := game_info param in
    Done (mkGameInfo (fieldForFront param) (next gi) (score gi)
            (high_score gi) (level gi) (speed gi) (pause gi), param).

(** ** getTime *)

(** [now] is what [clock_gettime(CLOCK_MONOTONIC)] stores.  The interval
    is computed in [long] (C's [/] truncates) and then held in a
    [double].  The conversion to [double] rounds, but it is monotone and
    every [int] is a [double], so the comparison with [speed] comes out
    as the comparison of the two integers. *)
Definition getTime (now : timespec) (param : Params_t)
    : bool * Params_t :=
  let drop_interval :=
    long_of
      (long_of (long_of (tv_sec now - tv_sec (drop_time param)) * 1000)
       + long_of (tv_nsec now - tv_nsec (drop_time param)) ÷ 1000000) in
  if drop_interval >=? speed (game_info param)
  then (true, with_drop_time now param)
  else (false, param).

(** ** moveFigureDown, moveFigureLeft, moveFigureRight *)

Definition moveFigureDown (param : Params_t) : outcome (bool * Params_t) :=
  let cur := currentPiece param in
  let newPosY := posY cur + 1 in
  let* return_value :=
    for_each block_cells (fun '(i, j) return_value =>
      if cell_of (shape cur) i j =? 0 then Done return_value
      else
        let x := posX cur + j in
        let y := newPosY + i in
        if y >=? FIELD_HEIGHT then Done false
        else let* v := peek (field (game_info param)) y x in
             Done (if v =? 0 then return_value else false)) true in
  if return_value
  then Done (true, with_currentPiece (with_posY newPosY cur) param)
  else Done (false, param).

Definition moveFigureLeft (param : Params_t) : outcome (bool * Params_t) :=
  let cur := currentPiece param in
  let newPosX := posX cur - 1 in
  let* return_value :=
    for_each block_cells (fun '(i, j) return_value =>
      if cell_of (shape cur) i j =? 0 then Done return_value
      else
        let x := newPosX + j in
        let y := posY cur + i in
        if x <? 0 then Done false
        else let* v := peek (field (game_info param)) y x in
             Done (if v =? 0 then return_value else false)) true in
  if return_value
  then Done (true, with_currentPiece (with_posX newPosX cur) param)
  else Done (false, param).

Definition moveFigureRight (param : Params_t) : outcome (bool * Params_t) :=
  let cur := currentPiece param in
  let newPosX := posX cur + 1 in
  let* return_value :=
    for_each block_cells (fun '(i, j) return_value =>
      if cell_of (shape cur) i j =? 0 then Done return_value
      else
        let x := newPosX + j in
        let y := posY cur + i in
        if x >=? FIELD_WIDTH then Done false
        else let* v := peek (field (game_info param)) y x in
             Done (if v =? 0 then return_value else false)) true in
  if return_value
  then Done (true, with_currentPiece (with_posX newPosX cur) param)
  else Done (false, param).

(** ** rotateShape, canRotate, findMinXY, adjustPositionForLine,
       rotatePiece *)

(** [temp[j][BLOCK - 1 - i] = shape[i][j]] for every cell.  The local
    array is not initialised in C; the loop assigns each of its sixteen
    cells, so what it starts from does not show. *)
Definition turned (shape : Shape) : Shape :=
  fold_left (fun temp '(i, j) =>
               cell_set temp j (BLOCK - 1 - i) (cell_of shape i j))
    block_cells zero_shape.

Definition rotateShape (shape : Shape) : Shape :=
  let temp := turned shape in
  copyPieceShape shape temp.

Definition canRotate (param : Params_t) : outcome bool :=
  let cur := currentPiece param in
  let tmp := turned (shape cur) in
  for_each block_cells (fun '(i, j) return_value =>
    if cell_of tmp i j =? 0 then Done return_value
    else
      let x := posX cur + j in
      let y := posY cur + i in
      if (x <? 0) || (x >=? FIELD_WIDTH) || (y <? 0) || (y >=? FIELD_HEIGHT)
      then Done false
      else let* v := peek (field (game_info param)) y x in
           Done (if v =? 0 then return_value else false)) true.

(** Returns [( *minX, *minY )]. *)
Definition findMinXY (shape : Shape) : Z * Z :=
  fold_left (fun '(minX, minY) '(i, j) =>
               if cell_of shape i j =? 0 then (minX, minY)
               else ((if j <? minX then j else minX),
                     (if i <? minY then i else minY)))
    block_cells (BLOCK, BLOCK).

Definition adjustPositionForLine (param : Params_t) : Params_t :=
  let cur := currentPiece param in
  if type cur =? 0 then
    if Z.rem (rotation cur) 2 =? 0
    then with_currentPiece
           (with_posY (posY cur - 1) (with_posX (posX cur + 1) cur)) param
    else with_currentPiece
           (with_posY (posY cur + 1) (with_posX (posX cur - 1) cur)) param
  else param.

Definition rotatePiece (param : Params_t) : outcome (bool * Params_t) :=
  let* ok := canRotate param in
  if negb ok then Done (false, param)
  else if type (currentPiece param) =? 1 then Done (true, param)
  else
    let oldShape := copyPieceShape zero_shape (shape (currentPiece param)) in
    let oldPosX := posX (currentPiece param) in
    let oldPosY := posY (currentPiece param) in
    let param :=
      with_currentPiece
        (with_shape (rotateShape (shape (currentPiece param)))
           (currentPiece param)) param in
    let '(oldMinX, oldMinY) := findMinXY oldShape in
    let '(newMinX, newMinY) := findMinXY (shape (currentPiece param)) in
    let offsetX := oldMinX - newMinX in
    let offsetY := oldMinY - newMinY in
    let param :=
      with_currentPiece
        (with_posY (oldPosY + offsetY)
           (with_posX (oldPosX + offsetX) (currentPiece param))) param in
    let param := adjustPositionForLine param in
    let* ok := canPlacePiece param in
    if negb ok then
      Done (false,
            with_currentPiece
              (with_posY oldPosY
                 (with_posX oldPosX
                    (with_shape
                       (copyPieceShape (shape (currentPiece param)) oldShape)
                       (currentPiece param)))) param)
    else
      Done (true,
            with_currentPiece
              (with_rotation (Z.rem (rotation (currentPiece param) + 1) 4)
                 (currentPiece param)) param).

(** ** getHighScore, addHighScore *)

(** The file highscore.txt as the program sees it: [hs_file] is the
    integer [fscanf] reads from it, [None] when [fopen(.., "r")] fails or
    no integer is there; [hs_writable] tells whether [fopen(.., "w")]
    succeeds. *)
Record Disk : Type := mkDisk { hs_file : option Z; hs_writable : bool }.

Definition getHighScore (d : Disk) : Z :=
  match hs_file d with
  | None => 0
  | Some highScore => highScore
  end.

Definition addHighScore (newScore : Z) (d : Disk) : bool * Disk :=
  let currentHigh := getHighScore d in
  if newScore <=? currentHigh then (false, d)
  else if hs_writable d then (true, mkDisk (Some newScore) true)
  else (false, d).

(** ** The process: the three statics and the file *)

Record Game : Type := mkGame {
  state : Status_game;
  param : Params_t;
  disk : Disk
}.

Definition Status_game_eqb (a b : Status_game) : bool :=
  match a, b with
  | Start_t, Start_t | Spawn, Spawn | Moving, Moving | Shifting, Shifting
  | Pause_t, Pause_t | Attaching, Attaching | Terminate_t, Terminate_t
  | GameOver, GameOver => true
  | _, _ => false
  end.

(** [param->game_info->pause = v] *)
Definition set_pause (v : Z) (p : Params_t) : Params_t :=
  with_game_info (with_pause v (game_info p)) p.

(** ** userInput *)

(** [while (moveFigureDown(param)) {}].  A step down succeeds only when
    every occupied cell lands on a row below [FIELD_HEIGHT] that the
    field really has, so a piece with an occupied cell steps at most
    [FIELD_HEIGHT] times and [drop_budget] tests are enough; a piece
    without any steps for ever, in C as here ([hardDrop_Spin]). *)
Definition drop_budget : nat := 21.

Fixpoint hardDrop (budget : nat) (param : Params_t) : outcome Params_t :=
  match budget with
  | O => Spin
  | S budget' =>
      let* (moved, param) := moveFigureDown param in
      if moved then hardDrop budget' param else Done param
  end.

Definition userInput (action : UserAction_t) (hold : bool) (g : Game)
    : outcome Game :=
  let running :=
    Status_game_eqb (state g) Moving && (pause (game_info (param g)) =? 0) in
  if negb hold then
    match action with
    | Start =>
        if Status_game_eqb (state g) Start_t
           || Status_game_eqb (state g) GameOver
        then Done (mkGame Spawn (with_start true (param g)) (disk g))
        else Done g
    | Pause =>
        if Status_game_eqb (state g) Pause_t
        then Done (mkGame Moving (set_pause 0 (param g)) (disk g))
        else if Status_game_eqb (state g) Moving
        then Done (mkGame Pause_t (set_pause 1 (param g)) (disk g))
        else Done g
    | Terminate =>
        let d :=
          if score (game_info (param g)) >? high_score (game_info (param g))
          then snd (addHighScore (score (game_info (param g))) (disk g))
          else disk g in
        let p :=
          if pause (game_info (param g)) =? 1 then set_pause 2 (param g)
          else param g in
        Done (mkGame GameOver p d)
    | Left =>
        if running then
          let* (_, p) := moveFigureLeft (param g) in
          Done (mkGame (state g) p (disk g))
        else Done g
    | Right =>
        if running then
          let* (_, p) := moveFigureRight (param g) in
          Done (mkGame (state g) p (disk g))
        else Done g
    | Up => Done g
    | Down => Done g
    | Action =>
        if running then
          let* (_, p) := rotatePiece (param g) in
          Done (mkGame (state g) p (disk g))
        else Done g
    end
  else
    if running then
      let* p := hardDrop drop_budget (param g) in
      Done (mkGame (state g) p (disk g))
    else Done g.

(** ** initGame *)

(** [rnd] is the value of the one [rand()] of [spawnNewPiece(param, true)].
    The members the function does not assign ([start], [currentPiece],
    [drop_time]) keep what they had. *)
Definition initGame (rnd : nat) (g : Game) : outcome Game :=
  let gi :=
    mkGameInfo (initMatrix FIELD_HEIGHT FIELD_WIDTH) (initMatrix BLOCK BLOCK)
      0 (getHighScore (disk g)) 1 1000 0 in
  let p :=
    with_fieldForFront (initMatrix FIELD_HEIGHT FIELD_WIDTH)
      (with_game_info gi (param g)) in
  let* (_, p) := spawnNewPiece rnd p true in
  Done (mkGame Start_t p (disk g)).

(** ** updateCurrentState *)

(** [rnd] is the value of [rand()] and [now] that of the monotonic clock,
    for the branches that ask for them. *)
Definition updateCurrentState (rnd : nat) (now : timespec) (g : Game)
    : outcome (GameInfo_t * Game) :=
  let return_check :=
    negb ((pause (game_info (param g)) =? 1) || negb (start (param g))) in
  let* g :=
    if return_check then
      match state g with
      | Start_t =>
          if start (param g) then Done (mkGame Spawn (param g) (disk g))
          else Done g
      | Spawn =>
          let* (ok, p) := spawnNewPiece rnd (param g) false in
          if ok then Done (mkGame Moving p (disk g))
          else Done (mkGame GameOver p (disk g))
      | Moving =>
          let '(due, p) := getTime now (param g) in
          if due then Done (mkGame Shifting p (disk g))
          else Done (mkGame (state g) p (disk g))
      | Shifting =>
          let* (moved, p) := moveFigureDown (param g) in
          if negb moved then Done (mkGame Attaching p (disk g))
          else Done (mkGame Moving p (disk g))
      | Pause_t => Done g
      | Attaching =>
          let* p := fixFigure (param g) in
          let* p := updateCurrentGameInfo p in
          Done (mkGame Spawn p (disk g))
      | Terminate_t | GameOver =>
          let p := set_pause 2 (param g) in
          Done (mkGame (state g) p
                  (snd (addHighScore (score (game_info p)) (disk g))))
      end
    else Done g in
  let* (view, p) := createGameInfo (param g) return_check in
  Done (view, mkGame (state g) p (disk g)).

(** The statics before [initGame]: zero-initialised, no matrix
    allocated.  ([game_info] is a null pointer then and every entry point
    but [initGame] dereferences it, so a run starts with [initGame].) *)
Definition zero_piece : Piece := mkPiece zero_shape 0 0 0 0.
Definition boot (d : Disk) : Game :=
  mkGame Start_t
    (mkParams (mkGameInfo [] [] 0 0 0 0 0) (mkTimespec 0 0) false
       zero_piece zero_piece [])
    d.

(** * Runs of the program *)

(** A call of one of the three entry points, with what the environment
    hands it. *)
Inductive call : Type :=
| InitGame (rnd : nat)
| UserInput (action : UserAction_t) (hold : bool)
| UpdateCurrentState (rnd : nat) (now : timespec).

Definition step (c : call) (g : Game) : outcome Game :=
  match c with
  | InitGame rnd => initGame rnd g
  | UserInput action hold => userInput action hold g
  | UpdateCurrentState rnd now =>
      let* (_, g) := updateCurrentState rnd now g in Done g
  end.

Definition run (cs : list call) (g : Game) : outcome Game :=
  for_each cs step g.

(** The states a process can be in after [initGame] and any further
    calls, whatever the file held when it started. *)
Inductive reachable : Game -> Prop :=
| reach_init d rnd g :
    initGame rnd (boot d) = Done g -> reachable g
| reach_step c g g' :
    reachable g -> step c g = Done g' -> reachable g'.

(** * Vocabulary of the properties *)

(** The bounds of the board. *)
Definition on_board (x y : Z) : Prop :=
  0 <= x < FIELD_WIDTH /\ 0 <= y < FIELD_HEIGHT.

(** Every occupied cell of template [sh], put with its corner at
    [(px, py)], satisfies [bound] and lies on an empty cell of [f]. *)
Definition fits (bound : Z -> Z -> Prop) (sh : Shape) (px py : Z)
    (f : Grid) : Prop :=
  forall i j, (i, j) ∈ block_cells -> cell_of sh i j <> 0 ->
    bound (px + j) (py + i) /\ peek f (py + i) (px + j) = Done 0.

(** The collision invariant: the current piece is on the board and on
    empty cells only. *)
Definition placed (p : Params_t) : Prop :=
  fits on_board (shape (currentPiece p)) (posX (currentPiece p))
    (posY (currentPiece p)) (field (game_info p)).

(** Every occupied cell of the current piece is on the board. *)
Definition inside (p : Params_t) : Prop :=
  forall i j, (i, j) ∈ block_cells ->
    cell_of (shape (currentPiece p)) i j <> 0 ->
    on_board (posX (currentPiece p) + j) (posY (currentPiece p) + i).

(** A matrix of [rows] rows of [cols] cells, as [initMatrix] makes it. *)
Definition grid_ok (rows cols : Z) (g : Grid) : Prop :=
  length g = Z.to_nat rows /\ Forall (fun r => length r = Z.to_nat cols) g.

Definition is_done {A : Type} (m : outcome A) : Prop :=
  exists a, m = Done a.

(** The current piece moved by [(dx, dy)]. *)
Definition shifted (dx dy : Z) (p : Params_t) : Params_t :=
  with_currentPiece
    (mkPiece (shape (currentPiece p)) (posX (currentPiece p) + dx)
       (posY (currentPiece p) + dy) (type (currentPiece p))
       (rotation (currentPiece p))) p.

(** A state in which a piece is in play. *)
Definition in_play (s : Status_game) : Prop :=
  s = Moving \/ s = Shifting \/ s = Pause_t \/ s = Attaching.

(** The common form of the four legality loops ([canPlacePiece],
    [canRotate] and the three moves): [bad x y] is the inline bounds
    test of the loop. *)
Definition check_body (bad : Z -> Z -> bool) (sh : Shape) (px py : Z)
    (f : Grid) : Z * Z -> bool -> outcome bool :=
  fun '(i, j) return_value =>
    if cell_of sh i j =? 0 then Done return_value
    else
      if bad (px + j) (py + i) then Done false
      else let* v := peek f (py + i) (px + j) in
           Done (if v =? 0 then return_value else false).

Definition cells_check (bad : Z -> Z -> bool) (sh : Shape) (px py : Z)
    (f : Grid) : outcome bool :=
  for_each block_cells (check_body bad sh px py f) true.

(** What [fits] asks of one cell. *)
Definition cell_fits (bound : Z -> Z -> Prop) (sh : Shape) (px py : Z)
    (f : Grid) (c : Z * Z) : Prop :=
  cell_of sh c.1 c.2 <> 0 ->
  bound (px + c.2) (py + c.1) /\ peek f (py + c.1) (px + c.2) = Done 0.

Definition off_board (x y : Z) : bool :=
  (x <? 0) || (x >=? FIELD_WIDTH) || (y <? 0) || (y >=? FIELD_HEIGHT).

(** The nudge of [adjustPositionForLine]. *)
Definition nudge_of (t r : Z) : Z * Z :=
  if t =? 0 then
    if Z.rem r 2 =? 0 then (1, -1) else (-1, 1)
  else (0, 0).
Definition nudge (c : Piece) : Z * Z := nudge_of (type c) (rotation c).

(** The points of [updateInfo]. *)
Definition bonus (k : Z) : Z :=
  match k with
  | 0 => 0
  | 1 => 100
  | 2 => 300
  | 3 => 700
  | _ => 1500
  end.

(** A row is full when none of its cells is empty. *)
Definition row_full (r : list Z) : bool := forallb (fun v => negb (v =? 0)) r.

(** The number of full rows among the rows [l]. *)
Definition full_in (l : Grid) : nat :=
  length (filter (fun r => row_full r = true) l).

(** The number of full rows of a matrix. *)
Definition full_rows (g : Grid) : Z := Z.of_nat (full_in g).

(** * Concrete states used below *)

Definition empty_disk : Disk := mkDisk None true.
Definition t0 : timespec := mkTimespec 0 0.

Definition o_piece : Shape :=
  ((1, 1, 0, 0), (1, 1, 0, 0), (0, 0, 0, 0), (0, 0, 0, 0)).
Definition i_piece : Shape :=
  ((0, 0, 0, 0), (1, 1, 1, 1), (0, 0, 0, 0), (0, 0, 0, 0)).

(** An empty board with the piece [c] falling. *)
Definition lone (c : Piece) : Params_t :=
  mkParams
    (mkGameInfo (initMatrix FIELD_HEIGHT FIELD_WIDTH)
       (initMatrix BLOCK BLOCK) 0 0 1 1000 0)
    t0 true c zero_piece (initMatrix FIELD_HEIGHT FIELD_WIDTH).

(** A game started with the O-piece, after its first tick. *)
Definition o_game_calls : list call :=
  [InitGame 1; UserInput Start false; UpdateCurrentState 1 t0].

(** The O-piece pushed against the right wall. *)
Definition o_at_wall_calls : list call :=
  o_game_calls ++ replicate 5 (UserInput Right false).

(** The O-piece dropped to the floor and fixed: three ticks a second
    apart after the hard drop. *)
Definition o_fixed_calls : list call :=
  o_game_calls ++
  [UserInput Down true;
   UpdateCurrentState 1 (mkTimespec 1 0);
   UpdateCurrentState 1 (mkTimespec 2 0);
   UpdateCurrentState 1 (mkTimespec 3 0)].

(** The number of non-zero cells of a row, counted as [fullCheck] does. *)
Definition count_nz (r : list Z) : Z :=
  fold_left (fun c v => if v =? 0 then c else c + 1) r 0.

Definition zero_row : list Z := replicate (Z.to_nat FIELD_WIDTH) 0.

(** A board whose bottom row is full. *)
Definition one_full_row : Grid :=
  <[19%nat := replicate 10 7]> (initMatrix FIELD_HEIGHT FIELD_WIDTH).

(** The template has an occupied cell. *)
Definition has_cell (sh : Shape) : Prop :=
  exists i j, (i, j) ∈ block_cells /\ cell_of sh i j <> 0.

(** What every state of a run satisfies: the three matrices have the
    sizes [initMatrix] gave them, the pieces are real ones, the piece in
    play is legally placed, and score, level, speed and high score are
    related as the scoring leaves them. *)
Definition sound (g : Game) : Prop :=
  let p := param g in
  let gi := game_info p in
  grid_ok FIELD_HEIGHT FIELD_WIDTH (field gi) /\
  grid_ok BLOCK BLOCK (next gi) /\
  grid_ok FIELD_HEIGHT FIELD_WIDTH (fieldForFront p) /\
  has_cell (shape (nextPiece p)) /\
  (in_play (state g) -> placed p /\ has_cell (shape (currentPiece p))) /\
  INT_MIN <= score gi <= INT_MAX /\
  level gi = Z.min (score gi ÷ 600 + 1) 10 /\
  speed gi = Z.max 100 (1000 - (level gi - 1) * 100) /\
  high_score gi <= getHighScore (disk g).

(** The rows of a matrix that are not full. *)
Definition kept_rows (l : Grid) : Grid :=
  filter (fun r => row_full r = false) l.

(** The board after a line-clear pass over [f]: as many empty rows on
    top as [f] has full rows, then the other rows of [f] in their
    order. *)
Definition compacted (f : Grid) : Grid :=
  replicate (full_in f) zero_row ++ kept_rows f.

(** The cell [(x, y)] of the board is under an occupied cell of piece
    [c]. *)
Definition covers (c : Piece) (y x : Z) : Prop :=
  exists i j, (i, j) ∈ block_cells /\ cell_of (shape c) i j <> 0 /\
              y = posY c + i /\ x = posX c + j.

(** Everything but the current piece, the flags and the state machine:
    what an input leaves alone. *)
Definition same_board (p p' : Params_t) : Prop :=
  field (game_info p') = field (game_info p) /\
  next (game_info p') = next (game_info p) /\
  score (game_info p') = score (game_info p) /\
  high_score (game_info p') = high_score (game_info p) /\
  level (game_info p') = level (game_info p) /\
  speed (game_info p') = speed (game_info p) /\
  nextPiece p' = nextPiece p /\
  fieldForFront p' = fieldForFront p /\
  drop_time p' = drop_time p /\
  type (currentPiece p') = type (currentPiece p).

Definition is_tick (c : call) : bool :=
  match c with
  | UpdateCurrentState _ _ => true
  | _ => false
  end.

Definition is_init (c : call) : bool :=
  match c with
  | InitGame _ => true
  | _ => false
  end.

(** One O-piece played: spawned by a tick, moved sideways, dropped, and
    fixed by three ticks, the first of them [sec] seconds after the
    start. *)
Definition play_square (moves : list call) (sec : Z) : list call :=
  [UpdateCurrentState 1 t0] ++ moves ++
  [UserInput Down true;
   UpdateCurrentState 1 (mkTimespec sec 0);
   UpdateCurrentState 1 (mkTimespec sec 0);
   UpdateCurrentState 1 (mkTimespec sec 0)].

(** Five O-pieces side by side on the floor: the two bottom rows fill up
    and are cleared when the fifth piece is fixed. *)
Definition five_squares : list call :=
  [InitGame 1; UserInput Start false] ++
  play_square (replicate 3 (UserInput Left false)) 1 ++
  play_square [UserInput Left false] 2 ++
  play_square [UserInput Right false] 3 ++
  play_square (replicate 3 (UserInput Right false)) 4 ++
  play_square (replicate 5 (UserInput Right false)) 5.

(** The same run up to the tick that fixes the fifth piece. *)
Definition five_squares_before_fix : list call :=
  take (length five_squares - 1) five_squares.

(** Ten O-pieces dropped where they spawn: columns 3 and 4 are full to
    the top and the state machine is about to spawn the eleventh. *)
Definition tower : list call :=
  [InitGame 1; UserInput Start false] ++
  play_square [] 1 ++ play_square [] 2 ++ play_square [] 3 ++
  play_square [] 4 ++ play_square [] 5 ++ play_square [] 6 ++
  play_square [] 7 ++ play_square [] 8 ++ play_square [] 9 ++
  play_square [] 10.

(** The piece [spawnNewPiece] makes of the next piece. *)
Definition promoted (p : Params_t) : Piece :=
  mkPiece (shape (nextPiece p)) 3 0 (type (nextPiece p)) 0.

(** The I-piece as spawned, on a board whose cell in row 3, column 4 is
    taken: the pre-check of a rotation passes, the final placement does
    not. *)
Definition i_blocked : Params_t :=
  set_field
    (<[3%nat := [0; 0; 0; 0; 7; 0; 0; 0; 0; 0]]>
       (initMatrix FIELD_HEIGHT FIELD_WIDTH))
    (lone (mkPiece i_piece 3 0 0 0)).

(** The state the run [tower] ends in. *)
Definition tower_state : Game :=
  match run tower (boot empty_disk) with
  | Done g => g
  | _ => boot empty_disk
  end.

(** The values the interface has a colour for: 0 for an empty cell and
    [type + 1], from 1 to 7, for a cell of a piece. *)
Definition colours_ok (g : Grid) : Prop :=
  Forall (Forall (fun v => 0 <= v <= 7)) g.

(** Piece [c] as [spawnNewPiece] draws the next piece: template number
    [type c] of the catalogue, at the spawn position, not rotated. *)
Definition drawn (c : Piece) : Prop :=
  0 <= type c /\ pieces !! Z.to_nat (type c) = Some (shape c) /\
  posX c = 3 /\ posY c = 0 /\ rotation c = 0.

(** The preview matrix [g] shows piece [c]. *)
Definition shows (g : Grid) (c : Piece) : Prop :=
  forall i j, (i, j) ∈ block_cells ->
    peek g i j = Done (if cell_of (shape c) i j =? 0 then 0 else type c + 1).

(** Piece [c] is template number [type c] of the catalogue after
    [rotation c] quarter turns. *)
Definition tetromino (c : Piece) : Prop :=
  0 <= type c /\ 0 <= rotation c < 4 /\
  exists t, pieces !! Z.to_nat (type c) = Some t /\
    shape c = Nat.iter (Z.to_nat (rotation c)) turned t.

(** The number of occupied cells of a shape. *)
Definition occupied (sh : Shape) : nat :=
  length (filter (fun c => cell_of sh c.1 c.2 <> 0) block_cells).

(** What every state of a run satisfies besides [sound]: the cells hold
    colours, the preview shows the next piece, which is a fresh template,
    and the piece in play is a tetromino. *)
Definition tidy (g : Game) : Prop :=
  let p := param g in
  colours_ok (field (game_info p)) /\ colours_ok (next (game_info p)) /\
  colours_ok (fieldForFront p) /\
  drawn (nextPiece p) /\ shows (next (game_info p)) (nextPiece p) /\
  0 <= type (currentPiece p) <= 6 /\
  (in_play (state g) -> tetromino (currentPiece p)).

(** The state the run [o_game_calls] ends in. *)
Definition o_game_state : Game :=
  match run o_game_calls (boot empty_disk) with
  | Done g => g
  | _ => boot empty_disk
  end.

(** A reading of the clock: seconds and nanoseconds as [clock_gettime]
    delivers them, the seconds far enough from the end of [long] for
    their thousandfold. *)
Definition clock_ok (t : timespec) : Prop :=
  0 <= tv_sec t <= 9000000000000000 /\ 0 <= tv_nsec t < 1000000000.

(** The whole milliseconds from the start of the drop timer to [now],
    the nanoseconds truncated as C's [/] does. *)
Definition elapsed (now : timespec) (p : Params_t) : Z :=
  (tv_sec now - tv_sec (drop_time p)) * 1000
  + (tv_nsec now - tv_nsec (drop_time p)) ÷ 1000000.

(** The row below is free for the current piece. *)
Definition can_fall (p : Params_t) : Prop :=
  fits (fun _ y => y < FIELD_HEIGHT) (shape (currentPiece p))
    (posX (currentPiece p)) (posY (currentPiece p) + 1)
    (field (game_info p)).

(** The state in which the fifth square of [five_squares] is about to be
    fixed. *)
Definition fifth_square_state : Game :=
  match run five_squares_before_fix (boot empty_disk) with
  | Done g => g
  | _ => boot empty_disk
  end.

(** What a call may do to the score: leave it, or add the points of a
    line clear with the addition of [int]. *)
Definition gained (s s' : Z) : Prop :=
  s' = s \/ exists pts, 100 <= pts <= 1500 /\ s' = int_of (s + pts).

(** A game that has ended with score [s], field [f] and, once a tick has
    run, file [D]: what the ticks after the end keep. *)
Definition ended (s : Z) (f : Grid) (D : Disk) (h : Game) : Prop :=
  state h = GameOver /\ start (param h) = true /\
  pause (game_info (param h)) <> 1 /\
  grid_ok FIELD_HEIGHT FIELD_WIDTH (fieldForFront (param h)) /\
  score (game_info (param h)) = s /\ field (game_info (param h)) = f /\
  (addHighScore s (disk h)).2 = D.

(** What every state of a run satisfies about the place of the current
    piece: its occupied cells are on the board; before the game is
    started the field is the empty one of [initGame]; and the state
    machine is never in [Terminate_t]. *)
Definition boxed (g : Game) : Prop :=
  inside (param g) /\
  (state g = Start_t ->
   field (game_info (param g)) = initMatrix FIELD_HEIGHT FIELD_WIDTH) /\
  state g <> Terminate_t.

(** * Proofs *)

(** The loops are unfolded by hand or run by [vm_compute], not by
    [simpl]. *)
Arguments copyPieceShape : simpl never.
Arguments turned : simpl never.
Arguments rotateShape : simpl never.
Arguments findMinXY : simpl never.
Arguments canPlacePiece : simpl never.
Arguments canRotate : simpl never.
Arguments cells_check : simpl never.
Arguments moveFigureDown : simpl never.
Arguments moveFigureLeft : simpl never.
Arguments moveFigureRight : simpl never.
Arguments rotatePiece : simpl never.
Arguments drawNextPiece : simpl never.
Arguments peek : simpl never.
Arguments poke : simpl never.
Arguments initMatrix : simpl never.

(** ** The outcome monad *)

Lemma bind_Done {A B : Type} (m : outcome A) (f : A -> outcome B) b :
  bind m f = Done b -> exists a, m = Done a /\ f a = Done b.
Proof. destruct m; simpl; intros H; try discriminate; eauto. Qed.

Lemma for_each_app {A S : Type} (l1 l2 : list A) body (s : S) :
  for_each (l1 ++ l2) body s =
  let* s' := for_each l1 body s in for_each l2 body s'.
Proof.
  revert s; induction l1 as [|a l1 IH]; intros s; simpl; [done|].
  destruct (body a s); simpl; auto.
Qed.

Lemma reachable_run cs g g' :
  reachable g -> run cs g = Done g' -> reachable g'.
Proof.
  revert g; induction cs as [|c cs IH]; simpl; intros g Hg H.
  - by inversion H; subst.
  - apply bind_Done in H as (g1 & H1 & H2).
    eapply IH; [|exact H2]. by eapply reach_step.
Qed.

Lemma reachable_boot d rnd cs g :
  run (InitGame rnd :: cs) (boot d) = Done g -> reachable g.
Proof.
  simpl. intros H. apply bind_Done in H as (g1 & H1 & H2).
  eapply reachable_run; [|exact H2]. by eapply reach_init.
Qed.

(** ** Scoring: level and speed *)

Ltac split_lines k :=
  destruct k as [|k|k]; simpl; try lia;
  do 4 (try (destruct k as [k|k|]; simpl; try lia)).

Lemma wrap_range w z : 0 < w -> - 2 ^ (w - 1) <= wrap w z < 2 ^ (w - 1).
Proof.
  intros Hw. unfold wrap.
  assert (2 ^ w = 2 * 2 ^ (w - 1)) as E.
  { rewrite <- Z.pow_succ_r by lia. f_equal. lia. }
  assert (0 < 2 ^ (w - 1)) by (apply Z.pow_pos_nonneg; lia).
  pose proof (Z.mod_pos_bound (z + 2 ^ (w - 1)) (2 ^ w) ltac:(lia)). lia.
Qed.

Lemma wrap_id w z :
  0 < w -> - 2 ^ (w - 1) <= z < 2 ^ (w - 1) -> wrap w z = z.
Proof.
  intros Hw Hz. unfold wrap.
  assert (2 ^ w = 2 * 2 ^ (w - 1)) as E.
  { rewrite <- Z.pow_succ_r by lia. f_equal. lia. }
  rewrite Z.mod_small by lia. lia.
Qed.

Lemma int_of_range z : INT_MIN <= int_of z <= INT_MAX.
Proof.
  pose proof (wrap_range 32 z ltac:(lia)) as H. unfold int_of, INT_MIN, INT_MAX.
  change (2 ^ (32 - 1)) with 2147483648 in H. lia.
Qed.

Lemma int_of_id z : INT_MIN <= z <= INT_MAX -> int_of z = z.
Proof.
  unfold INT_MIN, INT_MAX. intros H. apply wrap_id; [lia|].
  change (2 ^ (32 - 1)) with 2147483648. lia.
Qed.

Lemma long_of_id z :
  -9223372036854775808 <= z <= 9223372036854775807 -> long_of z = z.
Proof.
  intros H. apply wrap_id; [lia|].
  change (2 ^ (64 - 1)) with 9223372036854775808. lia.
Qed.

Lemma updateInfo_score p k :
  score (game_info (updateInfo p k)) =
  int_of
    (score (game_info p)
     + match k with 1 => 100 | 2 => 300 | 3 => 700 | 4 => 1500 | _ => 1500 end).
Proof.
  unfold updateInfo. cbn zeta.
  destruct (_ =? level _); [|destruct (_ <? 100)]; reflexivity.
Qed.

Lemma points_bounds k :
  100 <= match k with 1 => 100 | 2 => 300 | 3 => 700 | 4 => 1500 | _ => 1500 end
      <= 1500.
Proof. split_lines k. Qed.

(** What [updateInfo] does to level and speed, whatever the score
    is. *)
Lemma updateInfo_level_speed p k :
  let gi := game_info p in
  let gi' := game_info (updateInfo p k) in
  level gi' = Z.min (score gi' ÷ 600 + 1) 10 /\
  speed gi' = (if level gi' =? level gi then speed gi
               else Z.max 100 (1000 - (level gi' - 1) * 100)).
Proof.
  cbv zeta. rewrite updateInfo_score.
  unfold updateInfo. cbn zeta.
  cbn [score with_score game_info with_game_info].
  remember (game_info p) as gi eqn:Hgi. clear Hgi.
  match goal with |- context [int_of ?m ÷ 600] => set (s' := int_of m) in * end.
  set (q := s' ÷ 600) in *.
  cbn [level with_score].
  destruct (Z.gtb_spec (q + 1) 10) as [Hq|Hq];
    repeat (match goal with
            | |- context [?a =? ?b] => destruct (Z.eqb_spec a b)
            | |- context [?a <? ?b] => destruct (Z.ltb_spec a b)
            end; cbn [level speed with_speed with_level with_score] in *);
    lia.
Qed.

(** C3, the claim as written fails once the [int] score overflows: a
    fourfold clear at score [INT_MAX] wraps the score to a negative
    number, and the level the code computes from it is neither
    [min (floor (score / 600) + 1) 10] nor a level between 1 and 10. *)
Lemma C3_level_after_overflow :
  let p := with_game_info
             (mkGameInfo (initMatrix FIELD_HEIGHT FIELD_WIDTH)
                (initMatrix BLOCK BLOCK) INT_MAX 0 10 100 0)
             (lone zero_piece) in
  let gi' := game_info (updateInfo p 4) in
  score gi' = -2147482149 /\ level gi' = -3579135 /\
  speed gi' = 357914600 /\
  level gi' <> Z.min (score gi' / 600 + 1) 10.
Proof. vm_compute. repeat split; discriminate. Qed.

(** C3, amended.  After every scoring update the level is
    [min (score / 600 + 1) 10] for the new score with the division of C,
    which truncates; that is [min (floor (score / 600) + 1) 10] whenever
    the new score is not negative, and it is not negative when the score
    was not negative before and the sum stays within [INT_MAX].  The
    speed is recomputed only when the level changed, to
    [max 100 (1000 - (level - 1) * 100)], and it does not go below 100
    when it was not below before. *)
Theorem C3_level_and_speed (p : Params_t) (k : Z) :
  let gi := game_info p in
  let gi' := game_info (updateInfo p k) in
  level gi' = Z.min (score gi' ÷ 600 + 1) 10 /\
  (0 <= score gi' -> level gi' = Z.min (score gi' / 600 + 1) 10) /\
  (0 <= score gi -> score gi + 1500 <= INT_MAX -> 0 <= score gi') /\
  speed gi' = (if level gi' =? level gi then speed gi
               else Z.max 100 (1000 - (level gi' - 1) * 100)) /\
  (100 <= speed gi -> 100 <= speed gi').
Proof.
  cbv zeta. destruct (updateInfo_level_speed p k) as [Hl Hv]. cbv zeta in *.
  split; [exact Hl|]. split; [|split; [|split; [exact Hv|]]].
  - intros Hs. rewrite Hl. by rewrite Z.quot_div_nonneg by lia.
  - intros Hs Hmax. rewrite updateInfo_score.
    pose proof (points_bounds k) as Hadd.
    rewrite int_of_id; unfold INT_MIN, INT_MAX in *; lia.
  - intros Hs. rewrite Hv. destruct (_ =? _); lia.
Qed.

Lemma C3_level_and_speed_witness :
  let p := updateInfo (with_game_info
             (with_score 500 (game_info (lone zero_piece)))
             (lone zero_piece)) 1 in
  0 <= score (game_info p) /\
  level (game_info p) = Z.min (600 / 600 + 1) 10 /\
  speed (game_info p) = 900 /\ 100 <= speed (game_info p).
Proof.
  pose proof (C3_level_and_speed
    (with_game_info (with_score 500 (game_info (lone zero_piece)))
       (lone zero_piece)) 1)
    as (_ & Hl & Hs & Hv & Hv').
  cbv zeta in *.
  assert (0 <= score (game_info (updateInfo (with_game_info
             (with_score 500 (game_info (lone zero_piece)))
             (lone zero_piece)) 1))) as Hpos.
  { apply Hs; [simpl; lia|vm_compute; discriminate]. }
  split; [exact Hpos|]. split; [exact (Hl Hpos)|].
  split; [rewrite Hv; reflexivity|]. apply Hv'. simpl. lia.
Defined.

(** ** The O-piece *)




(** ** Four rotations *)

Ltac open_shape s :=
  let r0 := fresh "r" in
  let r1 := fresh "r" in
  let r2 := fresh "r" in
  let r3 := fresh "r" in
  destruct s as [[[r0 r1] r2] r3];
  destruct r0 as [[[? ?] ?] ?], r1 as [[[? ?] ?] ?],
           r2 as [[[? ?] ?] ?], r3 as [[[? ?] ?] ?].

Lemma copyPieceShape_eq d s : copyPieceShape d s = s.
Proof. open_shape d. open_shape s. vm_compute. reflexivity. Qed.

Lemma rotateShape_turned s : rotateShape s = turned s.
Proof. unfold rotateShape. apply copyPieceShape_eq. Qed.

Lemma turned_four s : turned (turned (turned (turned s))) = s.
Proof. open_shape s. vm_compute. reflexivity. Qed.

Lemma adjustPositionForLine_nudge p :
  adjustPositionForLine p =
  with_currentPiece
    (mkPiece (shape (currentPiece p))
       (posX (currentPiece p) + fst (nudge (currentPiece p)))
       (posY (currentPiece p) + snd (nudge (currentPiece p)))
       (type (currentPiece p)) (rotation (currentPiece p))) p.
Proof.
  unfold adjustPositionForLine, nudge, nudge_of.
  destruct p as [gi dt st [sh x y t r] np ff]. cbn.
  destruct (t =? 0); [destruct (Z.rem r 2 =? 0)|]; cbn;
    unfold with_currentPiece, with_posX, with_posY; cbn;
    repeat f_equal; lia.
Qed.

(** ** The legality loops *)

Section Check.
Variables (bad : Z -> Z -> bool) (bound : Z -> Z -> Prop).
Variables (sh : Shape) (px py : Z) (f : Grid).
Hypothesis bad_bound : forall x y, bad x y = false <-> bound x y.

Lemma check_body_true c rv r :
  check_body bad sh px py f c rv = Done r ->
  (r = true <-> rv = true /\ cell_fits bound sh px py f c).
Proof using bad_bound.
  destruct c as [i j]. unfold check_body, cell_fits. cbn [fst snd].
  destruct (Z.eqb_spec (cell_of sh i j) 0) as [Hc|Hc].
  - intros [= <-]. intuition congruence.
  - destruct (bad (px + j) (py + i)) eqn:Hb.
    + intros [= <-]. split; [done|]. intros [_ Hg].
      destruct (Hg Hc) as [Hbd _]. apply bad_bound in Hbd. congruence.
    + destruct (peek f (py + i) (px + j)) as [v| |]; cbn [bind];
        try done.
      intros [= <-]. apply bad_bound in Hb.
      destruct (Z.eqb_spec v 0) as [->|Hv].
      * intuition.
      * split; [done|]. intros [_ Hg]. destruct (Hg Hc) as [_ Hp].
        congruence.
Qed.

Lemma check_loop_true l rv r :
  for_each l (check_body bad sh px py f) rv = Done r ->
  (r = true <->
   rv = true /\ forall c, c ∈ l -> cell_fits bound sh px py f c).
Proof using bad_bound.
  revert rv; induction l as [|c l IH]; intros rv; cbn [for_each].
  - intros [= <-]. split; [|tauto]. intros ->; split; [done|].
    intros c Hc. by apply elem_of_nil in Hc.
  - intros H. apply bind_Done in H as (rv1 & H1 & H2).
    apply check_body_true in H1. apply IH in H2.
    rewrite H2, H1. split.
    + intros [[? ?] Hl]. split; [done|]. intros c' Hc'.
      apply elem_of_cons in Hc' as [->|Hc']; auto.
    + intros [? Hl]. split; [split; [done|]|].
      * apply Hl. by left.
      * intros c' Hc'. apply Hl. by right.
Qed.

(** The loop returns 1 exactly when the template fits. *)
Lemma cells_check_true r :
  cells_check bad sh px py f = Done r ->
  (r = true <-> fits bound sh px py f).
Proof using bad_bound.
  intros H. apply check_loop_true in H. rewrite H. unfold fits.
  split.
  - intros [_ Hl] i j Hij. exact (Hl (i, j) Hij).
  - intros Hf. split; [done|]. intros [i j] Hc. exact (Hf i j Hc).
Qed.

Lemma check_loop_done l rv :
  (forall c, c ∈ l -> cell_of sh c.1 c.2 <> 0 ->
     bad (px + c.2) (py + c.1) = false ->
     is_done (peek f (py + c.1) (px + c.2))) ->
  is_done (for_each l (check_body bad sh px py f) rv).
Proof.
  revert rv; induction l as [|c l IH]; intros rv Hl; cbn [for_each].
  - by eexists.
  - assert (is_done (check_body bad sh px py f c rv)) as [rv1 ->].
    { destruct c as [i j]. unfold check_body.
      destruct (Z.eqb_spec (cell_of sh i j) 0) as [Hc|Hc]; [by eexists|].
      destruct (bad (px + j) (py + i)) eqn:Hb; [by eexists|].
      destruct (Hl (i, j)) as [v Hv]; [by left|done|done|].
      cbn [fst snd] in Hv. rewrite Hv. cbn [bind]. by eexists. }
    cbn [bind]. apply IH. intros c' Hc'. apply Hl. by right.
Qed.

(** The loop returns when every cell it reads is in the matrix. *)
Lemma cells_check_done :
  (forall i j, (i, j) ∈ block_cells -> cell_of sh i j <> 0 ->
     bad (px + j) (py + i) = false ->
     is_done (peek f (py + i) (px + j))) ->
  is_done (cells_check bad sh px py f).
Proof.
  intros H. apply check_loop_done. intros [i j]. apply H.
Qed.


End Check.

Lemma off_board_on_board x y : off_board x y = false <-> on_board x y.
Proof. unfold off_board, on_board, FIELD_WIDTH, FIELD_HEIGHT. lia. Qed.

Lemma canPlacePiece_check p :
  canPlacePiece p =
  cells_check off_board (shape (currentPiece p)) (posX (currentPiece p))
    (posY (currentPiece p)) (field (game_info p)).
Proof. reflexivity. Qed.

Lemma canRotate_check p :
  canRotate p =
  cells_check off_board (turned (shape (currentPiece p)))
    (posX (currentPiece p)) (posY (currentPiece p)) (field (game_info p)).
Proof. reflexivity. Qed.

Lemma canPlacePiece_placed p r :
  canPlacePiece p = Done r -> (r = true <-> placed p).
Proof.
  rewrite canPlacePiece_check.
  apply cells_check_true, off_board_on_board.
Qed.

(** ** Reading a matrix *)

Lemma peek_grid_ok rows cols g y x :
  grid_ok rows cols g -> 0 <= y < rows -> 0 <= x < cols ->
  is_done (peek g y x).
Proof.
  intros [Hlen Hrows] Hy Hx. unfold peek.
  destruct (Z.ltb_spec y 0); [lia|]. destruct (Z.ltb_spec x 0); [lia|].
  simpl.
  destruct (lookup_lt_is_Some_2 g (Z.to_nat y)) as [row Hrow]; [lia|].
  rewrite Hrow.
  assert (length row = Z.to_nat cols) as Hl.
  { rewrite Forall_forall in Hrows. apply Hrows.
    eapply list_elem_of_lookup_2, Hrow. }
  destruct (lookup_lt_is_Some_2 row (Z.to_nat x)) as [v Hv]; [lia|].
  rewrite Hv. by eexists.
Qed.

Lemma block_cells_range i j :
  (i, j) ∈ block_cells -> 0 <= i < BLOCK /\ 0 <= j < BLOCK.
Proof.
  unfold block_cells, block_range, BLOCK. cbn.
  rewrite !elem_of_cons, elem_of_nil.
  intros H. repeat destruct H as [H|H]; try done; inversion H; lia.
Qed.

(** ** Rotation *)

(** [rotatePiece] with its local copies and offsets computed. *)
Lemma rotatePiece_unfold p :
  rotatePiece p =
  let* ok := canRotate p in
  if negb ok then Done (false, p)
  else if type (currentPiece p) =? 1 then Done (true, p)
  else
    let c := currentPiece p in
    let q :=
      with_currentPiece
        (mkPiece (turned (shape c))
           (posX c + (fst (findMinXY (shape c))
                      - fst (findMinXY (turned (shape c))))
            + fst (nudge c))
           (posY c + (snd (findMinXY (shape c))
                      - snd (findMinXY (turned (shape c))))
            + snd (nudge c))
           (type c) (rotation c)) p in
    let* ok := canPlacePiece q in
    if negb ok then Done (false, p)
    else Done (true,
               with_currentPiece
                 (with_rotation (Z.rem (rotation c + 1) 4) (currentPiece q))
                 p).
Proof.
  unfold rotatePiece.
  destruct (canRotate p) as [[]| |]; cbn [bind negb]; try reflexivity.
  destruct (type (currentPiece p) =? 1); [reflexivity|].
  rewrite !copyPieceShape_eq. unfold rotateShape. rewrite !copyPieceShape_eq.
  destruct p as [gi dt st [sh x y t r] np ff].
  unfold with_currentPiece, with_shape, with_posX, with_posY, with_rotation.
  cbn [currentPiece shape posX posY type rotation game_info drop_time
       start nextPiece fieldForFront].
  destruct (findMinXY sh) as [oldMinX oldMinY].
  destruct (findMinXY (turned sh)) as [newMinX newMinY].
  rewrite adjustPositionForLine_nudge.
  unfold with_currentPiece, with_shape, with_posX, with_posY,
    with_rotation, nudge, nudge_of.
  cbn [currentPiece shape posX posY type rotation game_info drop_time
       start nextPiece fieldForFront fst snd].
  match goal with |- bind ?m _ = _ => destruct m as [[]| |] end;
    cbn [bind negb]; rewrite ?copyPieceShape_eq; reflexivity.
Qed.

(** What a successful [rotatePiece] leaves. *)
Lemma rotatePiece_success p p' :
  rotatePiece p = Done (true, p') ->
  (type (currentPiece p) = 1 /\ p' = p) \/
  (type (currentPiece p) <> 1 /\
   p' = with_currentPiece
          (mkPiece (turned (shape (currentPiece p)))
             (posX (currentPiece p)
              + (fst (findMinXY (shape (currentPiece p)))
                 - fst (findMinXY (turned (shape (currentPiece p)))))
              + fst (nudge (currentPiece p)))
             (posY (currentPiece p)
              + (snd (findMinXY (shape (currentPiece p)))
                 - snd (findMinXY (turned (shape (currentPiece p)))))
              + snd (nudge (currentPiece p)))
             (type (currentPiece p))
             (Z.rem (rotation (currentPiece p) + 1) 4)) p /\
   placed p').
Proof.
  rewrite rotatePiece_unfold. intros H.
  apply bind_Done in H as (ok & Hrot & H).
  destruct ok; cbn [negb] in H; [|done].
  destruct (Z.eqb_spec (type (currentPiece p)) 1) as [Ht|Ht].
  { left. split; [done|]. by inversion H. }
  right. split; [done|]. cbv zeta in H.
  apply bind_Done in H as (ok & Hplace & H).
  destruct ok; cbn [negb] in H; [|done].
  apply canPlacePiece_placed in Hplace. inversion H; subst p'; clear H.
  split; [reflexivity|]. by apply Hplace.
Qed.

(** A failed [rotatePiece] leaves everything as it was. *)
Lemma rotatePiece_failure p p' :
  rotatePiece p = Done (false, p') -> p' = p.
Proof.
  rewrite rotatePiece_unfold. intros H.
  apply bind_Done in H as (ok & Hrot & H).
  destruct ok; cbn [negb] in H; [|by inversion H].
  destruct (type (currentPiece p) =? 1); [done|]. cbv zeta in H.
  apply bind_Done in H as (ok & Hplace & H).
  destruct ok; cbn [negb] in H; [done|]. by inversion H.
Qed.

Lemma rem4_parity r : Z.rem (Z.rem (r + 1) 4) 2 = Z.rem (r + 1) 2.
Proof. Z.to_euclidean_division_equations. lia. Qed.

(** The nudges of two successive rotations cancel. *)
Lemma nudge_alternates t r :
  (nudge_of t r).1 + (nudge_of t (Z.rem (r + 1) 4)).1 = 0 /\
  (nudge_of t r).2 + (nudge_of t (Z.rem (r + 1) 4)).2 = 0.
Proof.
  unfold nudge_of. destruct (t =? 0); [|done].
  rewrite rem4_parity.
  destruct (Z.eqb_spec (Z.rem r 2) 0), (Z.eqb_spec (Z.rem (r + 1) 2) 0);
    cbn [fst snd]; try lia; Z.to_euclidean_division_equations; lia.
Qed.

(** C7.  When four rotations in a row succeed, the shape is the original
    template again and the position is the original position, for every
    piece (the I-piece with its nudge included) and every board. *)
Theorem C7_four_rotations (p0 p1 p2 p3 p4 : Params_t) :
  rotatePiece p0 = Done (true, p1) ->
  rotatePiece p1 = Done (true, p2) ->
  rotatePiece p2 = Done (true, p3) ->
  rotatePiece p3 = Done (true, p4) ->
  shape (currentPiece p4) = shape (currentPiece p0) /\
  posX (currentPiece p4) = posX (currentPiece p0) /\
  posY (currentPiece p4) = posY (currentPiece p0).
Proof.
  intros H1 H2 H3 H4.
  apply rotatePiece_success in H1 as [[Ht ->]|(Ht & -> & _)].
  { apply rotatePiece_success in H2 as [[_ ->]|[? _]]; [|done].
    apply rotatePiece_success in H3 as [[_ ->]|[? _]]; [|done].
    apply rotatePiece_success in H4 as [[_ ->]|[? _]]; done. }
  apply rotatePiece_success in H2 as [[? _]|(_ & -> & _)]; [done|].
  apply rotatePiece_success in H3 as [[? _]|(_ & -> & _)]; [done|].
  apply rotatePiece_success in H4 as [[? _]|(_ & -> & _)]; [done|].
  destruct p0 as [gi dt st [sh x y t r] np ff].
  unfold with_currentPiece, nudge.
  cbn [currentPiece shape posX posY type rotation].
  rewrite turned_four. split; [done|].
  pose proof (nudge_alternates t r) as [Ha Hb].
  pose proof (nudge_alternates t (Z.rem (Z.rem (r + 1) 4 + 1) 4))
    as [Hc Hd].
  lia.
Qed.

Ltac run_rotation p H :=
  let q := fresh "p" in
  let H' := fresh in
  destruct (rotatePiece p) as [[[] q]| |] eqn:H;
    pose proof H as H'; vm_compute in H'; try discriminate H';
    injection H' as <-.

Lemma C7_four_rotations_witness :
  let p0 := lone (mkPiece i_piece 3 5 0 0) in
  exists p1 p2 p3 p4,
    rotatePiece p0 = Done (true, p1) /\ rotatePiece p1 = Done (true, p2) /\
    rotatePiece p2 = Done (true, p3) /\ rotatePiece p3 = Done (true, p4) /\
    shape (currentPiece p4) = i_piece /\
    posX (currentPiece p4) = 3 /\ posY (currentPiece p4) = 5.
Proof.
  intros p0.
  run_rotation p0 H1.
  match type of H1 with _ = Done (_, ?q) => run_rotation q H2 end.
  match type of H2 with _ = Done (_, ?q) => run_rotation q H3 end.
  match type of H3 with _ = Done (_, ?q) => run_rotation q H4 end.
  do 4 eexists. do 4 (split; [eassumption|]).
  exact (C7_four_rotations _ _ _ _ _ H1 H2 H3 H4).
Defined.

(** ** Loops with an invariant, writes to a matrix *)

Lemma for_each_inv {A S : Type} (I : S -> Prop) (l : list A) body (s : S) :
  I s ->
  (forall a s, a ∈ l -> I s -> exists s', body a s = Done s' /\ I s') ->
  exists s', for_each l body s = Done s' /\ I s'.
Proof.
  revert s; induction l as [|a l IH]; intros s Hs Hbody; simpl.
  - eauto.
  - destruct (Hbody a s) as (s1 & -> & Hs1); [by left|done|]. simpl.
    apply IH; [done|]. intros a' s' Ha'. apply Hbody. by right.
Qed.

Lemma for_each_Done_inv {A S : Type} (I : S -> Prop) (l : list A) body
    (s s' : S) :
  for_each l body s = Done s' -> I s ->
  (forall a s s', a ∈ l -> body a s = Done s' -> I s -> I s') ->
  I s'.
Proof.
  revert s; induction l as [|a l IH]; intros s; simpl.
  - by intros [= <-].
  - intros H Hs Hbody. apply bind_Done in H as (s1 & H1 & H2).
    eapply IH; [exact H2| |].
    + eapply Hbody; [by left|exact H1|done].
    + intros a' t t' Ha'. apply Hbody. by right.
Qed.

Lemma grid_ok_initMatrix rows cols : grid_ok rows cols (initMatrix rows cols).
Proof.
  unfold grid_ok, initMatrix. rewrite length_replicate. split; [done|].
  apply Forall_replicate, length_replicate.
Qed.

Lemma poke_Done_grid_ok rows cols g y x v g' :
  poke g y x v = Done g' -> grid_ok rows cols g -> grid_ok rows cols g'.
Proof.
  unfold poke. destruct ((y <? 0) || (x <? 0)); [done|].
  destruct (g !! Z.to_nat y) as [row|] eqn:Hrow; [|done].
  destruct (decide _); [|done]. intros [= <-] [Hlen Hrows].
  split; [by rewrite length_insert|].
  apply Forall_insert; [done|]. rewrite length_insert.
  rewrite Forall_forall in Hrows. apply Hrows.
  eapply list_elem_of_lookup_2, Hrow.
Qed.

Lemma poke_grid_ok rows cols g y x v :
  grid_ok rows cols g -> 0 <= y < rows -> 0 <= x < cols ->
  exists g', poke g y x v = Done g' /\ grid_ok rows cols g'.
Proof.
  intros Hg Hy Hx.
  assert (is_done (poke g y x v)) as [g' Hg'].
  { destruct Hg as [Hlen Hrows]. unfold poke.
    destruct (Z.ltb_spec y 0); [lia|]. destruct (Z.ltb_spec x 0); [lia|].
    simpl.
    destruct (lookup_lt_is_Some_2 g (Z.to_nat y)) as [row Hrow]; [lia|].
    rewrite Hrow.
    assert (length row = Z.to_nat cols) as Hl.
    { rewrite Forall_forall in Hrows. apply Hrows.
      eapply list_elem_of_lookup_2, Hrow. }
    destruct (decide _); [by eexists|lia]. }
  exists g'. split; [done|]. by eapply poke_Done_grid_ok.
Qed.

(** ** Moves *)

Lemma moveFigureLeft_check p :
  moveFigureLeft p =
  let* rv := cells_check (fun x _ => x <? 0) (shape (currentPiece p))
               (posX (currentPiece p) - 1) (posY (currentPiece p))
               (field (game_info p)) in
  Done (rv, if rv then shifted (-1) 0 p else p).
Proof.
  unfold moveFigureLeft. fold block_cells.
  change (for_each block_cells _ true) with
    (cells_check (fun x _ => x <? 0) (shape (currentPiece p))
       (posX (currentPiece p) - 1) (posY (currentPiece p))
       (field (game_info p))).
  destruct (cells_check _ _ _ _ _) as [[]| |]; simpl; try reflexivity.
  unfold shifted, with_posX. by rewrite Z.add_0_r.
Qed.

Lemma moveFigureRight_check p :
  moveFigureRight p =
  let* rv := cells_check (fun x _ => x >=? FIELD_WIDTH)
               (shape (currentPiece p))
               (posX (currentPiece p) + 1) (posY (currentPiece p))
               (field (game_info p)) in
  Done (rv, if rv then shifted 1 0 p else p).
Proof.
  unfold moveFigureRight.
  change (for_each block_cells _ true) with
    (cells_check (fun x _ => x >=? FIELD_WIDTH) (shape (currentPiece p))
       (posX (currentPiece p) + 1) (posY (currentPiece p))
       (field (game_info p))).
  destruct (cells_check _ _ _ _ _) as [[]| |]; simpl; try reflexivity.
  unfold shifted, with_posX. by rewrite Z.add_0_r.
Qed.

Lemma moveFigureDown_check p :
  moveFigureDown p =
  let* rv := cells_check (fun _ y => y >=? FIELD_HEIGHT)
               (shape (currentPiece p))
               (posX (currentPiece p)) (posY (currentPiece p) + 1)
               (field (game_info p)) in
  Done (rv, if rv then shifted 0 1 p else p).
Proof.
  unfold moveFigureDown.
  change (for_each block_cells _ true) with
    (cells_check (fun _ y => y >=? FIELD_HEIGHT) (shape (currentPiece p))
       (posX (currentPiece p)) (posY (currentPiece p) + 1)
       (field (game_info p))).
  destruct (cells_check _ _ _ _ _) as [[]| |]; simpl; try reflexivity.
  unfold shifted, with_posY. by rewrite Z.add_0_r.
Qed.

Lemma move_result bad bound sh px py f (p q : Params_t) r p' :
  (forall x y, bad x y = false <-> bound x y) ->
  (let* rv := cells_check bad sh px py f in
   Done (rv, if rv then q else p)) = Done (r, p') ->
  (r = true <-> fits bound sh px py f) /\ p' = (if r then q else p).
Proof.
  intros Hb H. apply bind_Done in H as (rv & Hc & [= <- <-]).
  split; [|done]. by eapply cells_check_true.
Qed.

Lemma moveFigureLeft_spec p r p' :
  moveFigureLeft p = Done (r, p') ->
  (r = true <->
   fits (fun x _ => 0 <= x) (shape (currentPiece p))
     (posX (currentPiece p) - 1) (posY (currentPiece p))
     (field (game_info p))) /\
  p' = if r then shifted (-1) 0 p else p.
Proof. rewrite moveFigureLeft_check. apply move_result. lia. Qed.

Lemma moveFigureRight_spec p r p' :
  moveFigureRight p = Done (r, p') ->
  (r = true <->
   fits (fun x _ => x < FIELD_WIDTH) (shape (currentPiece p))
     (posX (currentPiece p) + 1) (posY (currentPiece p))
     (field (game_info p))) /\
  p' = if r then shifted 1 0 p else p.
Proof. rewrite moveFigureRight_check. apply move_result. lia. Qed.

Lemma moveFigureDown_spec p r p' :
  moveFigureDown p = Done (r, p') ->
  (r = true <->
   fits (fun _ y => y < FIELD_HEIGHT) (shape (currentPiece p))
     (posX (currentPiece p)) (posY (currentPiece p) + 1)
     (field (game_info p))) /\
  p' = if r then shifted 0 1 p else p.
Proof. rewrite moveFigureDown_check. apply move_result. lia. Qed.

(** The moves return on a board of [initMatrix] with the piece on it. *)
Lemma moves_defined p :
  let sh := shape (currentPiece p) in
  let x := posX (currentPiece p) in
  let y := posY (currentPiece p) in
  let f := field (game_info p) in
  grid_ok FIELD_HEIGHT FIELD_WIDTH f -> inside p ->
  is_done (moveFigureLeft p) /\ is_done (moveFigureRight p) /\
  is_done (moveFigureDown p).
Proof.
  intros sh x y f Hf Hin.
  assert (Hrd : forall i j dx dy,
             (i, j) ∈ block_cells -> cell_of sh i j <> 0 ->
             on_board (x + dx + j) (y + dy + i) ->
             is_done (peek f (y + dy + i) (x + dx + j))).
  { intros i j dx dy Hij Hc [Hx Hy]. by eapply peek_grid_ok. }
  rewrite moveFigureLeft_check, moveFigureRight_check,
    moveFigureDown_check.
  fold sh x y f. repeat split.
  + destruct (cells_check (fun x _ => x <? 0) sh (x - 1) y f) eqn:E;
      [by eexists| |];
      (destruct (cells_check_done (fun x _ => x <? 0) sh (x - 1) y f)
         as [? E']; [|congruence]);
      intros i j Hij Hc Hb; specialize (Hin i j Hij Hc);
      specialize (Hrd i j (-1) 0 Hij Hc);
      replace (x + -1 + j) with (x - 1 + j) in Hrd by lia;
      replace (y + 0 + i) with (y + i) in Hrd by lia;
      apply Hrd; unfold on_board in *; fold x y in Hin; lia.
  + destruct (cells_check (fun x _ => x >=? FIELD_WIDTH) sh (x + 1) y f)
      eqn:E; [by eexists| |];
      (destruct (cells_check_done (fun x _ => x >=? FIELD_WIDTH) sh
                   (x + 1) y f) as [? E']; [|congruence]);
      intros i j Hij Hc Hb; specialize (Hin i j Hij Hc);
      specialize (Hrd i j 1 0 Hij Hc);
      replace (y + 0 + i) with (y + i) in Hrd by lia;
      apply Hrd; unfold on_board in *; fold x y in Hin; lia.
  + destruct (cells_check (fun _ y => y >=? FIELD_HEIGHT) sh x (y + 1) f)
      eqn:E; [by eexists| |];
      (destruct (cells_check_done (fun _ y => y >=? FIELD_HEIGHT) sh
                   x (y + 1) f) as [? E']; [|congruence]);
      intros i j Hij Hc Hb; specialize (Hin i j Hij Hc);
      specialize (Hrd i j 0 1 Hij Hc);
      replace (x + 0 + j) with (x + j) in Hrd by lia;
      apply Hrd; unfold on_board in *; fold x y in Hin; lia.
Qed.

(** C5.  Each of the three moves returns 1 exactly when every occupied
    cell of the piece, at the candidate position, is inside the bound of
    its direction and on an empty cell of the field; it then commits the
    candidate position, and otherwise leaves the parameters as they are.
    The moves do return on a board of [initMatrix] with the piece on
    it. *)
Theorem C5_moves (p : Params_t) :
  let sh := shape (currentPiece p) in
  let x := posX (currentPiece p) in
  let y := posY (currentPiece p) in
  let f := field (game_info p) in
  (grid_ok FIELD_HEIGHT FIELD_WIDTH f -> inside p ->
   is_done (moveFigureLeft p) /\ is_done (moveFigureRight p) /\
   is_done (moveFigureDown p)) /\
  (forall r p', moveFigureLeft p = Done (r, p') ->
     (r = true <-> fits (fun x _ => 0 <= x) sh (x - 1) y f) /\
     p' = if r then shifted (-1) 0 p else p) /\
  (forall r p', moveFigureRight p = Done (r, p') ->
     (r = true <-> fits (fun x _ => x < FIELD_WIDTH) sh (x + 1) y f) /\
     p' = if r then shifted 1 0 p else p) /\
  (forall r p', moveFigureDown p = Done (r, p') ->
     (r = true <-> fits (fun _ y => y < FIELD_HEIGHT) sh x (y + 1) f) /\
     p' = if r then shifted 0 1 p else p).
Proof.
  intros sh x y f. split; [|split; [|split]].
  - apply moves_defined.
  - intros r p'. apply moveFigureLeft_spec.
  - intros r p'. apply moveFigureRight_spec.
  - intros r p'. apply moveFigureDown_spec.
Qed.

Lemma block_cells_forall (P : Z -> Z -> Prop) :
  Forall (fun c => P c.1 c.2) block_cells ->
  forall i j, (i, j) ∈ block_cells -> P i j.
Proof. intros H i j Hij. rewrite Forall_forall in H. exact (H (i, j) Hij). Qed.

Ltac by_cells :=
  match goal with
  | |- forall i j, (i, j) ∈ block_cells -> @?P i j =>
      apply (block_cells_forall P)
  end;
  unfold block_cells, block_range; cbn;
  repeat (apply List.Forall_cons); try apply List.Forall_nil; cbn.

Ltac by_in_cells :=
  unfold block_cells, block_range, BLOCK; cbn; repeat constructor.

Lemma C5_moves_witness :
  let p := lone (mkPiece o_piece 0 18 1 0) in
  (is_done (moveFigureLeft p) /\ is_done (moveFigureRight p) /\
   is_done (moveFigureDown p)) /\
  ~ fits (fun x _ => 0 <= x) o_piece (-1) 18 (field (game_info p)) /\
  fits (fun x _ => x < FIELD_WIDTH) o_piece 1 18 (field (game_info p)) /\
  ~ fits (fun _ y => y < FIELD_HEIGHT) o_piece 0 19 (field (game_info p)).
Proof.
  intros p. destruct (C5_moves p) as (Hdef & HL & HR & HD).
  split; [|split; [|split]].
  - apply Hdef; [apply grid_ok_initMatrix|].
    unfold inside. by_cells; intros Hc; try done;
      unfold on_board, FIELD_WIDTH, FIELD_HEIGHT; lia.
  - destruct (HL false p) as [Hiff _]; [vm_compute; reflexivity|].
    intros Hf. apply Hiff in Hf. discriminate.
  - destruct (HR true (shifted 1 0 p)) as [Hiff _];
      [vm_compute; reflexivity|].
    by apply Hiff.
  - destruct (HD false p) as [Hiff _]; [vm_compute; reflexivity|].
    intros Hf. apply Hiff in Hf. discriminate.
Defined.

(** ** Spawning *)

Lemma drawNextPiece_frame rnd p p' :
  drawNextPiece rnd p = Done p' ->
  exists np g,
    p' = with_game_info (with_next g (game_info p)) (with_nextPiece np p) /\
    np = mkPiece (shape np) 3 0 (Z.rem (Z.of_nat rnd) 7) 0 /\
    pieces !! Z.to_nat (Z.rem (Z.of_nat rnd) 7) = Some (shape np).
Proof.
  unfold drawNextPiece.
  destruct (pieces !! _) as [template|] eqn:Ht; [|done].
  intros H. apply bind_Done in H as (g & _ & [= <-]).
  eexists _, g. split; [reflexivity|]. rewrite copyPieceShape_eq. by cbn.
Qed.

Lemma drawNextPiece_done rnd p :
  grid_ok BLOCK BLOCK (next (game_info p)) ->
  exists p', drawNextPiece rnd p = Done p' /\
    grid_ok BLOCK BLOCK (next (game_info p')).
Proof.
  intros Hn. unfold drawNextPiece.
  pose proof (Z.rem_bound_pos (Z.of_nat rnd) 7 ltac:(lia) ltac:(lia)) as Hr.
  destruct (lookup_lt_is_Some_2 pieces
              (Z.to_nat (Z.rem (Z.of_nat rnd) 7))) as [template ->].
  { change (length pieces) with 7%nat. lia. }
  match goal with
  | |- context [for_each block_cells ?b ?s] =>
      destruct (for_each_inv (grid_ok BLOCK BLOCK) block_cells b s)
        as (g & Hg & Hok)
  end; [done| |].
  - intros [i j] g Hij Hg. apply block_cells_range in Hij.
    apply poke_grid_ok; [done|apply Hij..].
  - rewrite Hg. simpl. eexists. split; [reflexivity|]. by cbn.
Qed.

Lemma spawnNewPiece_defined rnd p :
  grid_ok FIELD_HEIGHT FIELD_WIDTH (field (game_info p)) ->
  grid_ok BLOCK BLOCK (next (game_info p)) ->
  is_done (spawnNewPiece rnd p false).
Proof.
  unfold spawnNewPiece. cbn [negb].
  rewrite copyPieceShape_eq.
  set (promoted := mkPiece (shape (nextPiece p)) 3 0 (type (nextPiece p)) 0).
  change (mkPiece _ (FIELD_WIDTH ÷ 2 - BLOCK ÷ 2) 0 _ 0) with promoted.
  intros Hf Hn.
  destruct (cells_check_done off_board (shape promoted) 3 0
              (field (game_info p))) as [ok Hok].
  { intros i j Hij Hc Hb. apply off_board_on_board in Hb as [? ?].
    by eapply peek_grid_ok. }
  rewrite canPlacePiece_check. cbn [currentPiece with_currentPiece
    game_info posX posY shape promoted] in *.
  rewrite Hok. simpl. destruct ok; [|by eexists].
  destruct (drawNextPiece_done rnd (with_currentPiece promoted p))
    as (p' & -> & _); [done|]. by eexists.
Qed.

Lemma spawnNewPiece_spec rnd p r p' :
  spawnNewPiece rnd p false = Done (r, p') ->
  currentPiece p'
  = mkPiece (shape (nextPiece p)) 3 0 (type (nextPiece p)) 0 /\
  field (game_info p') = field (game_info p) /\
  (r = true <-> placed p') /\
  (r = false ->
   nextPiece p' = nextPiece p /\ next (game_info p') = next (game_info p)).
Proof.
  unfold spawnNewPiece. cbn [negb].
  rewrite copyPieceShape_eq.
  set (promoted := mkPiece (shape (nextPiece p)) 3 0 (type (nextPiece p)) 0).
  change (mkPiece _ (FIELD_WIDTH ÷ 2 - BLOCK ÷ 2) 0 _ 0) with promoted.
  intros H. apply bind_Done in H as (ok & Hok & H).
  apply canPlacePiece_placed in Hok. destruct ok.
  + apply bind_Done in H as (q & Hq & [= <- <-]).
    apply drawNextPiece_frame in Hq as (np & g & -> & _).
    split; [reflexivity|]. split; [reflexivity|]. split; [|done].
    split; [|done]. intros _. by apply Hok.
  + inversion H; subst r p'.
    split; [reflexivity|]. split; [reflexivity|]. split; [|done].
    split; [done|]. intros Hpl. by apply Hok.
Qed.

(** C4.  In normal mode [spawnNewPiece] makes the current piece from the
    next one (its shape and type, rotation 0, column 3, row 0); it
    returns 1 exactly when that piece is legally placed; when it returns
    0 the next piece and the preview matrix are as before.  It does
    return on matrices of [initMatrix]. *)
Theorem C4_spawn (rnd : nat) (p : Params_t) :
  let promoted := mkPiece (shape (nextPiece p)) 3 0 (type (nextPiece p)) 0 in
  (grid_ok FIELD_HEIGHT FIELD_WIDTH (field (game_info p)) ->
   grid_ok BLOCK BLOCK (next (game_info p)) ->
   is_done (spawnNewPiece rnd p false)) /\
  (forall r p', spawnNewPiece rnd p false = Done (r, p') ->
     currentPiece p' = promoted /\
     field (game_info p') = field (game_info p) /\
     (r = true <-> placed p') /\
     (r = false ->
      nextPiece p' = nextPiece p /\
      next (game_info p') = next (game_info p))).
Proof.
  intros promoted. split.
  - apply spawnNewPiece_defined.
  - intros r p'. apply spawnNewPiece_spec.
Qed.

Lemma C4_spawn_witness :
  let p := with_nextPiece (mkPiece i_piece 3 0 0 0) (lone zero_piece) in
  exists p', spawnNewPiece 1 p false = Done (true, p') /\
    currentPiece p' = mkPiece i_piece 3 0 0 0 /\ placed p'.
Proof.
  intros p. destruct (C4_spawn 1 p) as [Hdef Hspec].
  destruct Hdef as [[r p'] Hr]; [apply grid_ok_initMatrix ..|].
  destruct (Hspec r p' Hr) as (Hc & _ & Hpl & _).
  assert (r = true) as ->.
  { assert (H : forall q, spawnNewPiece 1 p false = q ->
                  match q with Done (b, _) => b = true | _ => True end).
    { intros q <-. vm_compute. reflexivity. }
    exact (H _ Hr). }
  exists p'. split; [exact Hr|]. split; [exact Hc|]. by apply Hpl.
Defined.

(** ** The hard drop *)

Lemma shifted_0 p : shifted 0 0 p = p.
Proof.
  destruct p as [gi dt st [sh x y t r] np ff]. unfold shifted. cbn.
  by rewrite !Z.add_0_r.
Qed.

Lemma shifted_shifted dx dy dx' dy' p :
  shifted dx' dy' (shifted dx dy p) = shifted (dx + dx') (dy + dy') p.
Proof.
  destruct p as [gi dt st [sh x y t r] np ff].
  unfold shifted, with_currentPiece.
  cbn [currentPiece shape posX posY type rotation game_info drop_time
       start nextPiece fieldForFront].
  by rewrite !Z.add_assoc.
Qed.


Lemma moveFigureDown_result p r p' :
  moveFigureDown p = Done (r, p') -> p' = if r then shifted 0 1 p else p.
Proof.
  rewrite moveFigureDown_check. intros H.
  by apply bind_Done in H as (rv & _ & [= <- <-]).
Qed.

(** What the loop leaves when it ends: the piece [k] rows lower, after
    [k] steps that succeeded and one that did not. *)
Lemma hardDrop_Done n p p' :
  hardDrop n p = Done p' ->
  exists k : nat,
    p' = shifted 0 (Z.of_nat k) p /\
    (forall m : nat, (m < k)%nat ->
       moveFigureDown (shifted 0 (Z.of_nat m) p)
       = Done (true, shifted 0 (Z.of_nat m + 1) p)) /\
    moveFigureDown (shifted 0 (Z.of_nat k) p)
    = Done (false, shifted 0 (Z.of_nat k) p).
Proof.
  revert p; induction n as [|n IH]; intros p; simpl; [done|].
  intros H. apply bind_Done in H as ([moved p1] & Hmv & H).
  pose proof (moveFigureDown_result _ _ _ Hmv) as Hp1.
  destruct moved; simpl in Hp1; subst p1.
  - apply IH in H as (k & -> & Hsteps & Hlast). exists (S k).
    rewrite shifted_shifted in *.
    replace (0 + 0) with 0 in * by lia.
    replace (Z.of_nat (S k)) with (1 + Z.of_nat k) by lia.
    split; [done|]. split; [|by rewrite Hlast].
    intros [|m] Hm.
    + by rewrite shifted_0, Hmv.
    + specialize (Hsteps m ltac:(lia)).
      rewrite !shifted_shifted in Hsteps.
      replace (0 + 0) with 0 in * by lia.
      replace (Z.of_nat (S m)) with (1 + Z.of_nat m) by lia.
      replace (1 + Z.of_nat m + 1) with (1 + (Z.of_nat m + 1)) by lia.
      exact Hsteps.
  - inversion H; subst p'. exists 0%nat. rewrite shifted_0.
    split; [done|]. split; [lia|done].
Qed.

Lemma inside_shifted_down p :
  inside p ->
  fits (fun _ y => y < FIELD_HEIGHT) (shape (currentPiece p))
    (posX (currentPiece p)) (posY (currentPiece p) + 1)
    (field (game_info p)) ->
  inside (shifted 0 1 p).
Proof.
  intros Hin Hf i j Hij Hc. cbn in *.
  destruct (Hin i j Hij Hc) as [Hx Hy]. destruct (Hf i j Hij Hc) as [Hb _].
  unfold on_board in *. lia.
Qed.

(** The loop ends when the piece has an occupied cell. *)
Lemma hardDrop_done n p i0 j0 :
  grid_ok FIELD_HEIGHT FIELD_WIDTH (field (game_info p)) ->
  inside p ->
  (i0, j0) ∈ block_cells -> cell_of (shape (currentPiece p)) i0 j0 <> 0 ->
  FIELD_HEIGHT - 1 - (posY (currentPiece p) + i0) < Z.of_nat n ->
  is_done (hardDrop n p).
Proof.
  revert p; induction n as [|n IH]; intros p Hf Hin Hij Hc Hn.
  { destruct (Hin i0 j0 Hij Hc) as [_ Hy]. lia. }
  simpl.
  destruct (moves_defined p Hf Hin) as (_ & _ & [[moved p1] Hmv]).
  rewrite Hmv. cbn [bind].
  destruct (moveFigureDown_spec _ _ _ Hmv) as [Hiff ->].
  destruct moved; [|by eexists].
  apply IH; try done.
  - apply inside_shifted_down; [done|]. by apply Hiff.
  - cbn. lia.
Qed.



(** C10, the claim as written fails: a game that is not paused can be
    in [Moving] with the status flag 2.  [Terminate] on a paused game
    sets the flag to 2, [Start] leaves [GameOver] without clearing it,
    and the next tick spawns a piece; there a call with [hold] set does
    nothing, although the piece could go down. *)
Lemma C10_hold_ignored_with_flag_2 :
  exists g,
    run [InitGame 1; UserInput Start false; UpdateCurrentState 1 t0;
         UserInput Pause false; UserInput Terminate false;
         UserInput Start false; UpdateCurrentState 1 t0]
      (boot empty_disk) = Done g /\
    reachable g /\ state g = Moving /\ pause (game_info (param g)) = 2 /\
    moveFigureDown (param g) = Done (true, shifted 0 1 (param g)) /\
    userInput Down true g = Done g.
Proof.
  eexists. split; [vm_compute; reflexivity|].
  split.
  { apply (reachable_boot empty_disk 1
             [UserInput Start false; UpdateCurrentState 1 t0;
              UserInput Pause false; UserInput Terminate false;
              UserInput Start false; UpdateCurrentState 1 t0]).
    vm_compute. reflexivity. }
  split; [reflexivity|]. split; [reflexivity|].
  split; vm_compute; reflexivity.
Qed.

(** C10, amended.  With [hold] set, in state [Moving] with the status
    flag 0 (the game neither paused nor flagged as ended),
    [userInput] does the same for every action: it moves the current
    piece down row by row until a step is refused, and changes nothing
    else.  The call returns on a board of [initMatrix] with a piece,
    having an occupied cell, on it. *)
Theorem C10_hold_is_hard_drop (a : UserAction_t) (g : Game) :
  state g = Moving ->
  pause (game_info (param g)) = 0 ->
  (grid_ok FIELD_HEIGHT FIELD_WIDTH (field (game_info (param g))) ->
   inside (param g) ->
   (exists i j, (i, j) ∈ block_cells /\
                cell_of (shape (currentPiece (param g))) i j <> 0) ->
   is_done (userInput a true g)) /\
  (forall g', userInput a true g = Done g' ->
     exists k : nat,
       g' = mkGame Moving (shifted 0 (Z.of_nat k) (param g)) (disk g) /\
       (forall m : nat, (m < k)%nat ->
          moveFigureDown (shifted 0 (Z.of_nat m) (param g))
          = Done (true, shifted 0 (Z.of_nat m + 1) (param g))) /\
       moveFigureDown (shifted 0 (Z.of_nat k) (param g))
       = Done (false, shifted 0 (Z.of_nat k) (param g))).
Proof.
  intros Hst Hp.
  assert (Hu : userInput a true g =
               let* p := hardDrop drop_budget (param g) in
               Done (mkGame Moving p (disk g))).
  { unfold userInput. rewrite Hst, Hp. by destruct a. }
  rewrite Hu. split.
  - intros Hf Hin (i & j & Hij & Hc).
    destruct (hardDrop_done drop_budget (param g) i j Hf Hin Hij Hc)
      as [p' ->].
    + destruct (Hin i j Hij Hc) as [_ Hy].
      unfold drop_budget, FIELD_HEIGHT in *. lia.
    + by eexists.
  - intros g' H. apply bind_Done in H as (p' & Hd & [= <-]).
    apply hardDrop_Done in Hd as (k & -> & Hsteps & Hlast).
    by exists k.
Qed.

Lemma C10_hold_is_hard_drop_witness :
  let g := mkGame Moving (lone (mkPiece o_piece 3 0 1 0)) empty_disk in
  userInput Left true g
  = Done (mkGame Moving (lone (mkPiece o_piece 3 18 1 0)) empty_disk) /\
  exists k : nat,
    mkGame Moving (lone (mkPiece o_piece 3 18 1 0)) empty_disk
    = mkGame Moving (shifted 0 (Z.of_nat k) (param g)) (disk g).
Proof.
  intros g.
  assert (Hrun : userInput Left true g
                 = Done (mkGame Moving (lone (mkPiece o_piece 3 18 1 0))
                           empty_disk)) by (vm_compute; reflexivity).
  split; [exact Hrun|].
  destruct (C10_hold_is_hard_drop Left g eq_refl eq_refl) as [_ Hspec].
  destruct (Hspec _ Hrun) as (k & Hk & _). by exists k.
Defined.

(** ** Terminate *)

Lemma createGameInfo_frame p rc view p' :
  createGameInfo p rc = Done (view, p') ->
  game_info p' = game_info p /\ currentPiece p' = currentPiece p /\
  nextPiece p' = nextPiece p /\ drop_time p' = drop_time p /\
  start p' = start p /\
  score view = score (game_info p) /\
  high_score view = high_score (game_info p) /\
  level view = level (game_info p) /\ speed view = speed (game_info p) /\
  pause view = pause (game_info p) /\ next view = next (game_info p).
Proof.
  unfold createGameInfo. destruct rc; cbn [negb].
  - intros H. apply bind_Done in H as (g & _ & H).
    apply bind_Done in H as (q & Hq & [= <- <-]).
    unfold overlayCurrentPiece in Hq.
    apply bind_Done in Hq as (g' & _ & [= <-]). by cbn.
  - by intros [= <- <-].
Qed.

(** C8, the code at the failing input: [Terminate] on a game that was
    never started.  The flag is set to 2 only under the guard
    [pause == 1]; here it stays 0, and since the following tick is idle
    (the start flag is not set) it stays 0 after the tick too. *)
Lemma C8_terminate_leaves_flag :
  exists g g1 view g2,
    initGame 1 (boot empty_disk) = Done g /\
    userInput Terminate false g = Done g1 /\
    pause (game_info (param g1)) = 0 /\
    updateCurrentState 1 t0 g1 = Done (view, g2) /\
    pause view = 0 /\ pause (game_info (param g2)) = 0.
Proof.
  do 4 eexists.
  split; [vm_compute; reflexivity|].
  split; [vm_compute; reflexivity|].
  split; [vm_compute; reflexivity|].
  split; [vm_compute; reflexivity|].
  split; vm_compute; reflexivity.
Qed.

(** What [Terminate] (without hold) does on the other paths: it moves
    the state machine to [GameOver], turns the status flag 1 (paused)
    into 2, and writes the score to the file when it exceeds the high
    score in memory and the one in the file and the file can be written;
    when the game was started and not paused, the next tick sets the
    flag to 2. *)
Lemma terminate_effect (g : Game) :
  let gi := game_info (param g) in
  exists g',
    userInput Terminate false g = Done g' /\
    state g' = GameOver /\
    param g' = (if pause gi =? 1 then set_pause 2 (param g) else param g) /\
    (score gi > high_score gi -> score gi > getHighScore (disk g) ->
     hs_writable (disk g) = true ->
     getHighScore (disk g') = score gi) /\
    (score gi <= high_score gi \/ score gi <= getHighScore (disk g) ->
     disk g' = disk g) /\
    (pause gi = 1 -> score gi > high_score gi ->
     score gi > getHighScore (disk g) -> hs_writable (disk g) = true ->
     getHighScore (disk g') = score gi /\
     pause (game_info (param g')) = 2) /\
    (pause gi <> 1 -> start (param g) = true ->
     forall rnd now view g'',
       updateCurrentState rnd now g' = Done (view, g'') ->
       state g'' = GameOver /\ pause view = 2 /\
       pause (game_info (param g'')) = 2).
Proof.
  intros gi. eexists. split; [reflexivity|].
  cbn [state param disk]. fold gi.
  split; [done|]. split; [done|].
  assert (Hw : score gi > high_score gi -> score gi > getHighScore (disk g) ->
               hs_writable (disk g) = true ->
               getHighScore
                 (if score gi >? high_score gi
                  then (addHighScore (score gi) (disk g)).2 else disk g)
               = score gi).
  { intros H1 H2 H3. destruct (Z.gtb_spec (score gi) (high_score gi)); [|lia].
    unfold addHighScore.
    destruct (Z.leb_spec (score gi) (getHighScore (disk g))); [lia|].
    by rewrite H3. }
  split; [exact Hw|]. split; [|split].
  - intros H. destruct (Z.gtb_spec (score gi) (high_score gi)); [|done].
    unfold addHighScore.
    destruct (Z.leb_spec (score gi) (getHighScore (disk g))); [done|lia].
  - intros H1 H2 H3 H4. split; [by apply Hw|]. by rewrite H1.
  - intros Hp Hs rnd now view g'' H.
    destruct (Z.eqb_spec (pause gi) 1) as [|_]; [done|].
    unfold updateCurrentState in H. cbn [state param disk] in H.
    fold gi in H.
    destruct (Z.eqb_spec (pause gi) 1) as [|_]; [done|].
    rewrite Hs in H. cbn [negb orb bind] in H.
    apply bind_Done in H as ([v p'] & Hc & [= <- <-]).
    apply createGameInfo_frame in Hc
      as (Hgi & _ & _ & _ & _ & _ & _ & _ & _ & Hpv & _).
    cbn [state param]. rewrite Hgi, Hpv. by cbn.
Qed.

(** ** The idle tick *)

(** C9, the code at the failing input: the snapshot of an idle tick is
    not the view built by the tick before.  A game is started, a tick
    spawns the O-piece and builds a view with the piece drawn in; the
    game is paused; the next tick returns the field without the
    piece. *)
Lemma C9_idle_snapshot_is_not_last_view :
  exists g built g1 g2 frozen g3,
    run [InitGame 1; UserInput Start false] (boot empty_disk) = Done g /\
    updateCurrentState 1 t0 g = Done (built, g1) /\
    userInput Pause false g1 = Done g2 /\
    pause (game_info (param g2)) = 1 /\
    updateCurrentState 1 t0 g2 = Done (frozen, g3) /\
    peek (field built) 0 3 = Done 2 /\
    peek (field frozen) 0 3 = Done 0 /\
    field frozen <> field built /\
    field frozen <> fieldForFront (param g2).
Proof.
  do 6 eexists.
  split; [vm_compute; reflexivity|].
  split; [vm_compute; reflexivity|].
  split; [vm_compute; reflexivity|].
  split; [vm_compute; reflexivity|].
  split; [vm_compute; reflexivity|].
  split; [vm_compute; reflexivity|].
  split; [vm_compute; reflexivity|].
  split; vm_compute; discriminate.
Qed.

(** ** The collision invariant *)

Lemma placed_ext p p' :
  currentPiece p' = currentPiece p ->
  field (game_info p') = field (game_info p) ->
  placed p -> placed p'.
Proof. unfold placed. by intros -> ->. Qed.

Lemma placed_shifted dx dy (bound : Z -> Z -> Prop) p :
  (forall x y, on_board x y -> bound (x + dx) (y + dy) ->
               on_board (x + dx) (y + dy)) ->
  placed p ->
  fits bound (shape (currentPiece p)) (posX (currentPiece p) + dx)
    (posY (currentPiece p) + dy) (field (game_info p)) ->
  placed (shifted dx dy p).
Proof.
  intros Hb Hp Hf i j Hij Hc.
  cbn [shifted currentPiece with_currentPiece shape posX posY game_info]
    in *.
  destruct (Hp i j Hij Hc) as [Hon _]. destruct (Hf i j Hij Hc) as [Hbd Hpk].
  split; [|done].
  replace (posX (currentPiece p) + dx + j)
    with (posX (currentPiece p) + j + dx) in * by lia.
  replace (posY (currentPiece p) + dy + i)
    with (posY (currentPiece p) + i + dy) in * by lia.
  by apply Hb.
Qed.

(** A move that succeeds keeps the piece legally placed; one that fails
    changes nothing. *)
Lemma moveFigureLeft_placed p r p' :
  moveFigureLeft p = Done (r, p') -> placed p -> placed p'.
Proof.
  intros H Hp.
  destruct (moveFigureLeft_spec _ _ _ H) as [Hiff ->]. destruct r; [|done].
  apply (placed_shifted (-1) 0 (fun x _ => 0 <= x)); [|done|].
  - unfold on_board. lia.
  - rewrite Z.add_0_r. by apply Hiff.
Qed.

Lemma moveFigureRight_placed p r p' :
  moveFigureRight p = Done (r, p') -> placed p -> placed p'.
Proof.
  intros H Hp.
  destruct (moveFigureRight_spec _ _ _ H) as [Hiff ->]. destruct r; [|done].
  apply (placed_shifted 1 0 (fun x _ => x < FIELD_WIDTH)); [|done|].
  - unfold on_board. lia.
  - rewrite Z.add_0_r. by apply Hiff.
Qed.

Lemma moveFigureDown_placed p r p' :
  moveFigureDown p = Done (r, p') -> placed p -> placed p'.
Proof.
  intros H Hp.
  destruct (moveFigureDown_spec _ _ _ H) as [Hiff ->]. destruct r; [|done].
  apply (placed_shifted 0 1 (fun _ y => y < FIELD_HEIGHT)); [|done|].
  - unfold on_board. lia.
  - rewrite Z.add_0_r. by apply Hiff.
Qed.

Lemma rotatePiece_placed p r p' :
  rotatePiece p = Done (r, p') -> placed p -> placed p'.
Proof.
  intros H Hp. destruct r.
  - apply rotatePiece_success in H as [[_ ->]|(_ & _ & Hpl)]; done.
  - by apply rotatePiece_failure in H as ->.
Qed.

Lemma hardDrop_placed n p p' :
  hardDrop n p = Done p' -> placed p -> placed p'.
Proof.
  revert p; induction n as [|n IH]; intros p; [done|]. cbn [hardDrop].
  intros H Hp. apply bind_Done in H as ([moved p1] & Hmv & H).
  pose proof (moveFigureDown_placed _ _ _ Hmv Hp) as Hp1.
  destruct moved; [by eapply IH|]. by inversion H; subst.
Qed.

Lemma spawnNewPiece_placed rnd p p' :
  spawnNewPiece rnd p false = Done (true, p') -> placed p'.
Proof.
  intros H.
  destruct (spawnNewPiece_spec _ _ _ _ H) as (_ & _ & Hiff & _).
  by apply Hiff.
Qed.

Lemma userInput_placed a hold g g' :
  userInput a hold g = Done g' ->
  (in_play (state g) -> placed (param g)) ->
  in_play (state g') -> placed (param g').
Proof.
  unfold userInput, in_play. intros H Hinv.
  destruct hold; cbn [negb] in H.
  - destruct (Status_game_eqb (state g) Moving
              && (pause (game_info (param g)) =? 0)) eqn:Hrun;
      [|by inversion H; subst].
    apply andb_prop in Hrun as [Hst _].
    assert (state g = Moving) as Hm by (by destruct (state g)).
    apply bind_Done in H as (p' & Hd & [= <-]). intros _.
    cbn [param]. eapply hardDrop_placed; [exact Hd|]. apply Hinv. tauto.
  - destruct a.
    + destruct (_ || _); inversion H; subst; cbn [state param]; [|done].
      intros [?|[?|[?|?]]]; done.
    + destruct (state g) eqn:Hst; cbn [Status_game_eqb] in H;
        inversion H; subst; cbn [state param]; rewrite ?Hst; try done;
        intros _; (eapply placed_ext; [..|apply Hinv; tauto]); done.
    + inversion H; subst; cbn [state]. intros [?|[?|[?|?]]]; done.
    + destruct (Status_game_eqb (state g) Moving
                && (pause (game_info (param g)) =? 0)) eqn:Hrun;
        [|by inversion H; subst].
      apply andb_prop in Hrun as [Hst _].
      assert (state g = Moving) as Hm by (by destruct (state g)).
      apply bind_Done in H as ([r p'] & Hd & [= <-]). intros _.
      cbn [param]. eapply moveFigureLeft_placed; [exact Hd|].
      apply Hinv. tauto.
    + destruct (Status_game_eqb (state g) Moving
                && (pause (game_info (param g)) =? 0)) eqn:Hrun;
        [|by inversion H; subst].
      apply andb_prop in Hrun as [Hst _].
      assert (state g = Moving) as Hm by (by destruct (state g)).
      apply bind_Done in H as ([r p'] & Hd & [= <-]). intros _.
      cbn [param]. eapply moveFigureRight_placed; [exact Hd|].
      apply Hinv. tauto.
    + by inversion H; subst.
    + by inversion H; subst.
    + destruct (Status_game_eqb (state g) Moving
                && (pause (game_info (param g)) =? 0)) eqn:Hrun;
        [|by inversion H; subst].
      apply andb_prop in Hrun as [Hst _].
      assert (state g = Moving) as Hm by (by destruct (state g)).
      apply bind_Done in H as ([r p'] & Hd & [= <-]). intros _.
      cbn [param]. eapply rotatePiece_placed; [exact Hd|].
      apply Hinv. tauto.
Qed.

Lemma updateCurrentState_placed rnd now g view g' :
  updateCurrentState rnd now g = Done (view, g') ->
  (in_play (state g) -> placed (param g)) ->
  in_play (state g') -> placed (param g').
Proof.
  unfold updateCurrentState. intros H Hinv.
  apply bind_Done in H as (g1 & H1 & H).
  apply bind_Done in H as ([v p'] & Hc & [= <- <-]).
  apply createGameInfo_frame in Hc as (Hgi & Hcur & _).
  cbn [state param]. intros Hplay.
  eapply placed_ext; [exact Hcur|by rewrite Hgi|].
  revert Hplay. clear Hgi Hcur p'.
  destruct (negb _); [|inversion H1; subst; exact Hinv].
  unfold in_play in *.
  destruct (state g) eqn:Hst.
  - destruct (start (param g)); inversion H1; subst; cbn [state];
      rewrite ?Hst; intros [?|[?|[?|?]]]; done.
  - apply bind_Done in H1 as ([ok p1] & Hs & H1).
    destruct ok; inversion H1; subst; cbn [state param].
    + intros _. by eapply spawnNewPiece_placed.
    + intros [?|[?|[?|?]]]; done.
  - unfold getTime in H1.
    destruct (_ >=? _); inversion H1; subst; cbn [state param]; intros _;
      (eapply placed_ext; [..|apply Hinv; tauto]); done.
  - apply bind_Done in H1 as ([moved p1] & Hmv & H1).
    assert (placed p1) by (eapply moveFigureDown_placed; [exact Hmv|tauto]).
    by destruct moved; inversion H1; subst.
  - inversion H1; subst. rewrite Hst. exact Hinv.
  - apply bind_Done in H1 as (p1 & _ & H1).
    apply bind_Done in H1 as (p2 & _ & [= <-]). cbn [state].
    intros [?|[?|[?|?]]]; done.
  - inversion H1; subst; cbn [state]. intros [?|[?|[?|?]]]; done.
  - inversion H1; subst; cbn [state]. intros [?|[?|[?|?]]]; done.
Qed.

Lemma initGame_state rnd g g' : initGame rnd g = Done g' -> state g' = Start_t.
Proof.
  unfold initGame. intros H.
  by apply bind_Done in H as ([r p] & _ & [= <-]).
Qed.

(** C1, the claim as written fails: when a piece has been fixed, it is
    part of the field and still the current piece until the next spawn.
    The O-piece is dropped to the floor and fixed; in the state [Spawn]
    that follows its four cells are cells of the field. *)
Lemma C1_fixed_piece_overlaps :
  exists g, run o_fixed_calls (boot empty_disk) = Done g /\
    reachable g /\ state g = Spawn /\
    cell_of (shape (currentPiece (param g))) 0 0 <> 0 /\
    peek (field (game_info (param g)))
      (posY (currentPiece (param g)) + 0)
      (posX (currentPiece (param g)) + 0) = Done 2 /\
    ~ placed (param g).
Proof.
  eexists. split; [vm_compute; reflexivity|].
  split; [apply (reachable_boot empty_disk 1 (tail o_fixed_calls));
          vm_compute; reflexivity|].
  split; [reflexivity|]. split; [vm_compute; discriminate|].
  split; [vm_compute; reflexivity|].
  intros Hp. destruct (Hp 0 0) as [_ Hk].
  - unfold block_cells, block_range. cbn. by left.
  - vm_compute. discriminate.
  - vm_compute in Hk. discriminate.
Qed.

(** ** Rows of a matrix *)

Lemma peek_row g y x row :
  0 <= y -> 0 <= x -> g !! Z.to_nat y = Some row ->
  peek g y x = match row !! Z.to_nat x with
               | Some v => Done v
               | None => Fault
               end.
Proof.
  intros Hy Hx Hrow. unfold peek. rewrite Hrow.
  destruct (Z.ltb_spec y 0); [lia|]. by destruct (Z.ltb_spec x 0); [lia|].
Qed.

Lemma poke_row g y x v row :
  0 <= y -> 0 <= x -> g !! Z.to_nat y = Some row ->
  (Z.to_nat x < length row)%nat ->
  poke g y x v = Done (<[Z.to_nat y := <[Z.to_nat x := v]> row]> g).
Proof.
  intros Hy Hx Hrow Hl. unfold poke. rewrite Hrow.
  destruct (Z.ltb_spec y 0); [lia|]. destruct (Z.ltb_spec x 0); [lia|].
  cbn [orb]. by destruct (decide _).
Qed.

Lemma row_of_ten (row : list Z) :
  length row = Z.to_nat FIELD_WIDTH ->
  exists a0 a1 a2 a3 a4 a5 a6 a7 a8 a9,
    row = [a0; a1; a2; a3; a4; a5; a6; a7; a8; a9].
Proof.
  intros H. do 10 (destruct row as [|? row]; [done|]).
  destruct row; [|done]. by do 10 eexists.
Qed.

Lemma width_range_ok (row : list Z) :
  length row = Z.to_nat FIELD_WIDTH ->
  Forall (fun x => 0 <= x /\ (Z.to_nat x < length row)%nat) width_range.
Proof.
  intros ->. unfold width_range, FIELD_WIDTH.
  repeat (apply List.Forall_cons; [lia|]). apply List.Forall_nil.
Qed.

(** A loop that writes cells of row [y] only. *)
Lemma poke_loop_row (vals : Z -> Z) l g y row :
  0 <= y -> g !! Z.to_nat y = Some row ->
  Forall (fun x => 0 <= x /\ (Z.to_nat x < length row)%nat) l ->
  for_each l (fun x g => poke g y x (vals x)) g =
  Done (<[Z.to_nat y :=
            fold_left (fun r x => <[Z.to_nat x := vals x]> r) l row]> g).
Proof.
  intros Hy. revert g row.
  induction l as [|x l IH]; intros g row Hrow Hl; cbn [for_each fold_left].
  - by rewrite list_insert_id.
  - apply Forall_cons_1 in Hl as [[Hx Hlen] Hl].
    rewrite (poke_row g y x _ row) by done. cbn [bind].
    rewrite (IH _ (<[Z.to_nat x := vals x]> row)).
    + by rewrite list_insert_insert_eq.
    + apply list_lookup_insert_eq. eapply lookup_lt_Some, Hrow.
    + by rewrite length_insert.
Qed.

(** The inner loop of [copyStr]: row [r - 1] copied over row [r]. *)
Lemma copy_loop_row l g r src dst :
  1 <= r -> g !! Z.to_nat (r - 1) = Some src -> g !! Z.to_nat r = Some dst ->
  Forall (fun x => 0 <= x /\ (Z.to_nat x < length src)%nat) l ->
  length dst = length src ->
  for_each l (fun col g => let* v := peek g (r - 1) col in poke g r col v) g
  = Done (<[Z.to_nat r :=
              fold_left (fun d x =>
                           <[Z.to_nat x := default 0 (src !! Z.to_nat x)]> d)
                l dst]> g).
Proof.
  intros Hr. revert g dst.
  induction l as [|x l IH]; intros g dst Hsrc Hdst Hl Hlen;
    cbn [for_each fold_left].
  - by rewrite list_insert_id.
  - apply Forall_cons_1 in Hl as [[Hx Hxs] Hl].
    rewrite (peek_row g (r - 1) x src) by (done || lia).
    destruct (lookup_lt_is_Some_2 src (Z.to_nat x) Hxs) as [v Hv].
    rewrite Hv. cbn [bind default].
    rewrite (poke_row g r x v dst) by (done || lia). cbn [bind].
    rewrite (IH _ (<[Z.to_nat x := v]> dst)).
    + by rewrite list_insert_insert_eq.
    + rewrite list_lookup_insert_ne by lia. done.
    + apply list_lookup_insert_eq. eapply lookup_lt_Some, Hdst.
    + done.
    + by rewrite length_insert.
Qed.

Lemma copy_row g r src dst :
  1 <= r -> g !! Z.to_nat (r - 1) = Some src -> g !! Z.to_nat r = Some dst ->
  length src = Z.to_nat FIELD_WIDTH -> length dst = Z.to_nat FIELD_WIDTH ->
  for_each width_range
    (fun col g => let* v := peek g (r - 1) col in poke g r col v) g
  = Done (<[Z.to_nat r := src]> g).
Proof.
  intros Hr Hsrc Hdst Hls Hld.
  rewrite (copy_loop_row width_range g r src dst); try done.
  - destruct (row_of_ten src Hls) as (a0&a1&a2&a3&a4&a5&a6&a7&a8&a9&->).
    destruct (row_of_ten dst Hld) as (b0&b1&b2&b3&b4&b5&b6&b7&b8&b9&->).
    reflexivity.
  - by apply width_range_ok.
  - congruence.
Qed.

Lemma zero_loop g y row :
  0 <= y -> g !! Z.to_nat y = Some row -> length row = Z.to_nat FIELD_WIDTH ->
  for_each width_range (fun x g => poke g y x 0) g
  = Done (<[Z.to_nat y := zero_row]> g).
Proof.
  intros Hy Hrow Hl.
  rewrite (poke_loop_row (fun _ => 0) width_range g y row); try done.
  - destruct (row_of_ten row Hl) as (a0&a1&a2&a3&a4&a5&a6&a7&a8&a9&->).
    reflexivity.
  - by apply width_range_ok.
Qed.

Lemma fullCheck_row g y row :
  0 <= y -> g !! Z.to_nat y = Some row -> length row = Z.to_nat FIELD_WIDTH ->
  fullCheck g y = Done (count_nz row).
Proof.
  intros Hy Hrow Hl. unfold fullCheck, width_range. cbn [for_each].
  rewrite !(peek_row g y _ row) by (done || lia).
  destruct (row_of_ten row Hl) as (a0&a1&a2&a3&a4&a5&a6&a7&a8&a9&->).
  reflexivity.
Qed.

Lemma count_nz_acc (r : list Z) c :
  c <= fold_left (fun c v => if v =? 0 then c else c + 1) r c
    <= c + Z.of_nat (length r) /\
  (fold_left (fun c v => if v =? 0 then c else c + 1) r c
   = c + Z.of_nat (length r) <-> row_full r = true).
Proof.
  revert c; induction r as [|v r IH]; intros c; cbn [fold_left length].
  - cbn. split; [lia|]. split; [done|lia].
  - destruct (IH (if v =? 0 then c else c + 1)) as [Hb Hiff].
    cbn [row_full forallb]. fold (row_full r).
    destruct (Z.eqb_spec v 0); cbn [negb andb].
    + split; [lia|]. split; [lia|done].
    + split; [lia|]. rewrite <- Hiff. lia.
Qed.

Lemma count_nz_full (r : list Z) :
  length r = Z.to_nat FIELD_WIDTH ->
  (count_nz r =? FIELD_WIDTH) = row_full r.
Proof.
  intros Hl. destruct (count_nz_acc r 0) as [_ Hiff]. fold (count_nz r) in Hiff.
  rewrite Hl in Hiff. change (Z.of_nat (Z.to_nat FIELD_WIDTH)) with 10 in Hiff.
  change FIELD_WIDTH with 10.
  destruct (Z.eqb_spec (count_nz r) 10) as [He|He].
  - symmetry. apply Hiff. lia.
  - destruct (row_full r); [|done]. exfalso. apply He.
    destruct Hiff as [_ Hiff]. rewrite Hiff; [lia|done].
Qed.

(** ** Clearing a row *)

Lemma rows_down_S (n : nat) :
  rows_down (Z.of_nat (S n)) = Z.of_nat (S n) :: rows_down (Z.of_nat n).
Proof.
  unfold rows_down. rewrite seqZ_S, rev_app_distr. cbn [rev app].
  f_equal. lia.
Qed.

Lemma rows_down_0 : rows_down (Z.of_nat 0) = [].
Proof. reflexivity. Qed.

Lemma wide_lookup (cols : Z) (g : Grid) (i : nat) row :
  Forall (fun r => length r = Z.to_nat cols) g -> g !! i = Some row ->
  length row = Z.to_nat cols.
Proof. intros H Hr. rewrite Forall_lookup in H. exact (H i row Hr). Qed.

Lemma grid_ok_row rows cols (g : Grid) (i : nat) :
  grid_ok rows cols g -> (i < Z.to_nat rows)%nat ->
  exists row, g !! i = Some row /\ length row = Z.to_nat cols.
Proof.
  intros [Hlen Hrows] Hi.
  destruct (lookup_lt_is_Some_2 g i) as [row Hrow]; [lia|].
  exists row. split; [done|].
  exact (wide_lookup _ _ _ _ Hrows Hrow).
Qed.

(** The outer loop of [copyStr]: the rows above [n] move down by one,
    row 0 stays. *)
Lemma shift_loop (n : nat) (g : Grid) :
  Forall (fun r => length r = Z.to_nat FIELD_WIDTH) g ->
  (n < length g)%nat ->
  for_each (rows_down (Z.of_nat n))
    (fun row g =>
       for_each width_range
         (fun col g => let* v := peek g (row - 1) col in poke g row col v) g)
    g
  = Done (take 1 g ++ take n g ++ drop (S n) g).
Proof.
  revert g; induction n as [|n IH]; intros g Hw Hn.
  - rewrite rows_down_0, take_0. cbn [for_each app]. by rewrite take_drop.
  - rewrite rows_down_S. cbn [for_each].
    destruct (lookup_lt_is_Some_2 g n) as [src Hsrc]; [lia|].
    destruct (lookup_lt_is_Some_2 g (S n)) as [dst Hdst]; [lia|].
    rewrite (copy_row g (Z.of_nat (S n)) src dst).
    + cbn [bind]. rewrite Nat2Z.id.
      rewrite IH.
      * f_equal. rewrite !take_insert_ge by lia.
        rewrite drop_insert_ge by lia. rewrite Nat.sub_diag.
        rewrite (drop_S g dst (S n)) by done. cbn [insert list_insert].
        rewrite (take_S_r g n src) by done.
        by rewrite <- !app_assoc.
      * apply Forall_insert; [done|].
        exact (wide_lookup _ _ _ _ Hw Hsrc).
      * rewrite length_insert. lia.
    + lia.
    + by replace (Z.to_nat (Z.of_nat (S n) - 1)) with n by lia.
    + by rewrite Nat2Z.id.
    + exact (wide_lookup _ _ _ _ Hw Hsrc).
    + exact (wide_lookup _ _ _ _ Hw Hdst).
Qed.

Lemma set_field_id p : set_field (field (game_info p)) p = p.
Proof. by destruct p as [[] ? ? ? ? ?]. Qed.

Lemma set_field_twice g g' p : set_field g (set_field g' p) = set_field g p.
Proof. reflexivity. Qed.

Lemma cleanStr_row (n : nat) p :
  grid_ok FIELD_HEIGHT FIELD_WIDTH (field (game_info p)) ->
  (n < Z.to_nat FIELD_HEIGHT)%nat ->
  cleanStr p (Z.of_nat n)
  = Done (set_field (<[n := zero_row]> (field (game_info p))) p).
Proof.
  intros Hg Hn. unfold cleanStr.
  destruct (grid_ok_row _ _ _ n Hg Hn) as (row & Hrow & Hl).
  rewrite (zero_loop _ _ row); [|lia|by rewrite Nat2Z.id|done].
  cbn [bind]. by rewrite Nat2Z.id.
Qed.

Lemma copyStr_rows (n : nat) p :
  grid_ok FIELD_HEIGHT FIELD_WIDTH (field (game_info p)) ->
  (n < Z.to_nat FIELD_HEIGHT)%nat ->
  copyStr p (Z.of_nat n)
  = Done (set_field
            (zero_row :: take n (field (game_info p))
               ++ drop (S n) (field (game_info p))) p).
Proof.
  intros Hg Hn. unfold copyStr. destruct Hg as [Hlen Hw].
  rewrite shift_loop; [|done|lia]. cbn [bind].
  destruct (field (game_info p)) as [|r0 f] eqn:Hf; [cbn in Hlen; lia|].
  cbn [take app].
  rewrite (zero_loop _ 0 r0); [done|lia|done|].
  by apply Forall_cons_1 in Hw as [? _].
Qed.

(** A full row cleared: a row of zeros on top, the rows above [n] one
    lower, the rows below as they were. *)
Lemma clear_row (n : nat) p :
  grid_ok FIELD_HEIGHT FIELD_WIDTH (field (game_info p)) ->
  (n < Z.to_nat FIELD_HEIGHT)%nat ->
  (let* p := cleanStr p (Z.of_nat n) in copyStr p (Z.of_nat n))
  = Done (set_field
            (zero_row :: take n (field (game_info p))
               ++ drop (S n) (field (game_info p))) p).
Proof.
  intros Hg Hn. rewrite cleanStr_row by done. cbn [bind].
  rewrite copyStr_rows; [|cbn [set_field with_game_info game_info field
                               with_field] |done].
  - cbn [set_field with_game_info game_info field with_field].
    rewrite take_insert_ge by lia. rewrite drop_insert_lt by lia. done.
  - destruct Hg as [Hlen Hw]. split; [by rewrite length_insert|].
    apply Forall_insert; [done|]. apply length_replicate.
Qed.

Lemma grid_ok_cleared (n : nat) (g : Grid) :
  grid_ok FIELD_HEIGHT FIELD_WIDTH g -> (n < Z.to_nat FIELD_HEIGHT)%nat ->
  grid_ok FIELD_HEIGHT FIELD_WIDTH (zero_row :: take n g ++ drop (S n) g).
Proof.
  intros [Hlen Hw] Hn. split.
  - cbn [length]. rewrite length_app, length_take, length_drop. lia.
  - apply Forall_cons. split; [apply length_replicate|].
    apply Forall_app. split; [by apply Forall_take|by apply Forall_drop].
Qed.

(** ** The scan *)

Lemma zero_row_not_full : row_full zero_row = false.
Proof. reflexivity. Qed.

Lemma full_in_snoc l r :
  full_in (l ++ [r]) = (full_in l + (if row_full r then 1 else 0))%nat.
Proof.
  unfold full_in. rewrite filter_app, length_app. f_equal.
  destruct (row_full r) eqn:E.
  - by rewrite filter_cons_True.
  - rewrite filter_cons_False; [done|]. by rewrite E.
Qed.

(** Enough passes give the number of full rows among the [n] rows still
    to examine, and leave a well-formed board. *)
Lemma scanLines_enough budget :
  forall (n : nat) (lf : Z) p,
    grid_ok FIELD_HEIGHT FIELD_WIDTH (field (game_info p)) ->
    (n <= Z.to_nat FIELD_HEIGHT)%nat ->
    (full_in (take n (field (game_info p))) + n < budget)%nat ->
    exists f',
      scanLines budget (Z.of_nat n - 1) lf p
      = Done (lf + Z.of_nat (full_in (take n (field (game_info p)))),
              set_field f' p) /\
      grid_ok FIELD_HEIGHT FIELD_WIDTH f'.
Proof.
  induction budget as [|budget IH]; intros n lf p Hg Hn Hb; [lia|].
  cbn [scanLines]. destruct n as [|m].
  - cbn [Z.of_nat Z.sub Z.opp Z.add Z.geb Z.compare].
    exists (field (game_info p)). rewrite set_field_id.
    split; [|done]. rewrite take_0. cbn. by rewrite Z.add_0_r.
  - replace (Z.of_nat (S m) - 1) with (Z.of_nat m) by lia.
    destruct (Z.geb_spec (Z.of_nat m) 0) as [_|]; [|lia].
    destruct (grid_ok_row _ _ _ m Hg ltac:(lia)) as (row & Hrow & Hl).
    rewrite (fullCheck_row _ _ row); [|lia|by rewrite Nat2Z.id|done].
    cbn [bind]. rewrite count_nz_full by done.
    rewrite (take_S_r _ _ _ Hrow), full_in_snoc in *.
    destruct (row_full row) eqn:Hfull.
    + pose proof (clear_row m p Hg ltac:(lia)) as Hclear.
      destruct (cleanStr p (Z.of_nat m)) as [p1| |]; cbn [bind] in *;
        try done.
      rewrite Hclear. cbn [bind].
      replace (Z.of_nat m + 1 - 1) with (Z.of_nat (S m) - 1) by lia.
      set (f2 := zero_row :: take m (field (game_info p))
                   ++ drop (S m) (field (game_info p))).
      assert (Hf2 : take (S m) f2 = zero_row :: take m (field (game_info p))).
      { subst f2. cbn [take]. f_equal. rewrite take_app_le.
        - apply take_take_min_id || (rewrite take_take; f_equal; lia).
        - rewrite length_take. destruct Hg as [Hlen _]. lia. }
      destruct (IH (S m) (lf + 1) (set_field f2 p)) as (f' & Hrun & Hok).
      * by apply grid_ok_cleared; [|lia].
      * done.
      * cbn [set_field with_game_info game_info field with_field].
        rewrite Hf2. unfold full_in in *.
        rewrite filter_cons_False by (by rewrite zero_row_not_full). lia.
      * exists f'. split; [|done]. rewrite Hrun.
        cbn [set_field with_game_info game_info field with_field].
        rewrite Hf2. unfold full_in.
        rewrite filter_cons_False by (by rewrite zero_row_not_full).
        apply f_equal, f_equal2; [lia|reflexivity].
    + replace (Z.of_nat m - 1) with (Z.of_nat m - 1) by lia.
      destruct (IH m lf p Hg ltac:(lia) ltac:(lia)) as (f' & Hrun & Hok).
      exists f'. split; [|done]. rewrite Hrun.
      apply f_equal, f_equal2; [lia|reflexivity].
Qed.

Lemma scanLines_field p :
  grid_ok FIELD_HEIGHT FIELD_WIDTH (field (game_info p)) ->
  exists f',
    scanLines scan_budget (FIELD_HEIGHT - 1) 0 p
    = Done (full_rows (field (game_info p)), set_field f' p) /\
    grid_ok FIELD_HEIGHT FIELD_WIDTH f'.
Proof.
  intros Hg. pose proof Hg as [Hlen Hw].
  destruct (scanLines_enough scan_budget 20 0 p Hg) as (f' & Hrun & Hok).
  - unfold FIELD_HEIGHT. lia.
  - unfold full_in.
    pose proof (length_filter (fun r => row_full r = true)
                  (take 20 (field (game_info p)))) as Hle.
    rewrite length_take in Hle. unfold scan_budget. lia.
  - exists f'. split; [|done].
    change (FIELD_HEIGHT - 1) with (Z.of_nat 20 - 1). rewrite Hrun.
    rewrite take_ge by (rewrite Hlen; unfold FIELD_HEIGHT; lia).
    done.
Qed.



(** ** Runs never fault *)

Lemma field_cells_range i j :
  (i, j) ∈ field_cells -> 0 <= i < FIELD_HEIGHT /\ 0 <= j < FIELD_WIDTH.
Proof.
  unfold field_cells. rewrite list_elem_of_bind.
  intros (i' & Hj & Hi). apply elem_of_seqZ in Hi.
  rewrite list_elem_of_bind in Hj. destruct Hj as (j' & Hij & Hj).
  apply list_elem_of_singleton in Hij as [= -> ->].
  split; [lia|]. unfold width_range, FIELD_WIDTH in *.
  rewrite !elem_of_cons, elem_of_nil in Hj. lia.
Qed.

Lemma placed_inside p : placed p -> inside p.
Proof. intros Hp i j Hij Hc. by destruct (Hp i j Hij Hc). Qed.

Lemma pieces_has_cell (n : nat) sh : pieces !! n = Some sh -> has_cell sh.
Proof.
  unfold pieces.
  do 7 (destruct n as [|n];
        [intros [= <-]; first
           [ exists 0, 0; split; [by_in_cells|vm_compute; discriminate]
           | exists 0, 1; split; [by_in_cells|vm_compute; discriminate]
           | exists 1, 0; split; [by_in_cells|vm_compute; discriminate] ]|]).
  done.
Qed.

Lemma turned_cell sh i j :
  (i, j) ∈ block_cells ->
  (j, BLOCK - 1 - i) ∈ block_cells /\
  cell_of (turned sh) j (BLOCK - 1 - i) = cell_of sh i j.
Proof.
  intros Hij. open_shape sh. revert i j Hij.
  by_cells; (split; [by_in_cells|vm_compute; reflexivity]).
Qed.

Lemma has_cell_turned sh : has_cell sh -> has_cell (turned sh).
Proof.
  intros (i & j & Hij & Hc).
  destruct (turned_cell sh i j Hij) as [Hin Heq].
  exists j, (BLOCK - 1 - i). split; [done|]. by rewrite Heq.
Qed.

Lemma canRotate_defined p :
  grid_ok FIELD_HEIGHT FIELD_WIDTH (field (game_info p)) ->
  is_done (canRotate p).
Proof.
  intros Hf. rewrite canRotate_check. apply cells_check_done.
  intros i j Hij Hc Hb. apply off_board_on_board in Hb as [? ?].
  by eapply peek_grid_ok.
Qed.

Lemma canPlacePiece_defined p :
  grid_ok FIELD_HEIGHT FIELD_WIDTH (field (game_info p)) ->
  is_done (canPlacePiece p).
Proof.
  intros Hf. rewrite canPlacePiece_check. apply cells_check_done.
  intros i j Hij Hc Hb. apply off_board_on_board in Hb as [? ?].
  by eapply peek_grid_ok.
Qed.

(** [rotatePiece] returns, and what it leaves differs from what it found
    in the current piece at most, whose shape is the old one or the old
    one turned. *)
Lemma rotatePiece_defined p :
  grid_ok FIELD_HEIGHT FIELD_WIDTH (field (game_info p)) ->
  exists r c, rotatePiece p = Done (r, with_currentPiece c p) /\
    (shape c = shape (currentPiece p) \/
     shape c = turned (shape (currentPiece p))).
Proof.
  intros Hf. rewrite rotatePiece_unfold.
  assert (Hid : p = with_currentPiece (currentPiece p) p) by (by destruct p).
  destruct (canRotate_defined p Hf) as [ok ->]. cbn [bind].
  destruct ok; cbn [negb];
    [|exists false, (currentPiece p); split; [by rewrite <- Hid|by left]].
  destruct (type (currentPiece p) =? 1);
    [exists true, (currentPiece p); split; [by rewrite <- Hid|by left]|].
  cbv zeta.
  match goal with
  | |- context [canPlacePiece ?q] =>
      destruct (canPlacePiece_defined q) as [ok ->]; [done|]
  end.
  cbn [bind]. destruct ok; cbn [negb].
  - eexists true, _. split; [reflexivity|]. by right.
  - exists false, (currentPiece p). split; [by rewrite <- Hid|by left].
Qed.

(** [fixFigure] returns and changes the field only. *)
Lemma fixFigure_defined p :
  grid_ok FIELD_HEIGHT FIELD_WIDTH (field (game_info p)) ->
  exists f', fixFigure p = Done (set_field f' p) /\
    grid_ok FIELD_HEIGHT FIELD_WIDTH f'.
Proof.
  intros Hf. unfold fixFigure.
  match goal with
  | |- context [for_each block_cells ?b ?s] =>
      destruct (for_each_inv (grid_ok FIELD_HEIGHT FIELD_WIDTH)
                  block_cells b s) as (g & Hg & Hok)
  end; [done| |].
  - intros [i j] g Hij Hg.
    destruct (_ =? 0); [by eexists|].
    destruct (Z.geb_spec (posX (currentPiece p) + j) 0);
      destruct (Z.ltb_spec (posX (currentPiece p) + j) FIELD_WIDTH);
      destruct (Z.geb_spec (posY (currentPiece p) + i) 0);
      destruct (Z.ltb_spec (posY (currentPiece p) + i) FIELD_HEIGHT);
      cbn [andb]; try (by eexists).
    by apply poke_grid_ok.
  - rewrite Hg. cbn [bind]. by exists g.
Qed.

(** [updateCurrentGameInfo] returns; it changes the field, and the
    score, level and speed when a row was full. *)
Lemma updateCurrentGameInfo_defined p :
  grid_ok FIELD_HEIGHT FIELD_WIDTH (field (game_info p)) ->
  exists f' k,
    updateCurrentGameInfo p
    = Done (if k =? 0 then set_field f' p
            else updateInfo (set_field f' p) k) /\
    grid_ok FIELD_HEIGHT FIELD_WIDTH f'.
Proof.
  intros Hf. unfold updateCurrentGameInfo.
  destruct (scanLines_field p Hf) as (f' & -> & Hok).
  cbn [bind]. exists f', (full_rows (field (game_info p))).
  split; [|done]. by destruct (_ =? 0).
Qed.

(** [createGameInfo] returns and changes the render buffer only. *)
Lemma createGameInfo_defined p rc :
  grid_ok FIELD_HEIGHT FIELD_WIDTH (field (game_info p)) ->
  grid_ok FIELD_HEIGHT FIELD_WIDTH (fieldForFront p) ->
  exists view ff,
    createGameInfo p rc = Done (view, with_fieldForFront ff p) /\
    grid_ok FIELD_HEIGHT FIELD_WIDTH ff.
Proof.
  intros Hf Hff. unfold createGameInfo.
  destruct rc; cbn [negb];
    [|exists (game_info p), (fieldForFront p); split; [by destruct p|done]].
  match goal with
  | |- context [for_each field_cells ?b ?s] =>
      destruct (for_each_inv (grid_ok FIELD_HEIGHT FIELD_WIDTH)
                  field_cells b s) as (g & Hg & Hok)
  end; [done| |].
  { intros [i j] g Hij Hg. apply field_cells_range in Hij as [Hi Hj].
    destruct (peek_grid_ok _ _ _ i j Hf Hi Hj) as [v ->]. cbn [bind].
    by apply poke_grid_ok. }
  rewrite Hg. cbn [bind]. unfold overlayCurrentPiece.
  cbn [currentPiece with_fieldForFront fieldForFront].
  match goal with
  | |- context [for_each block_cells ?b ?s] =>
      destruct (for_each_inv (grid_ok FIELD_HEIGHT FIELD_WIDTH)
                  block_cells b s) as (g' & Hg' & Hok')
  end; [done| |].
  { intros [i j] g0 Hij Hg0.
    destruct (_ =? 0); [by eexists|].
    destruct (Z.geb_spec (posX (currentPiece p) + j) 0);
      destruct (Z.ltb_spec (posX (currentPiece p) + j) FIELD_WIDTH);
      destruct (Z.geb_spec (posY (currentPiece p) + i) 0);
      destruct (Z.ltb_spec (posY (currentPiece p) + i) FIELD_HEIGHT);
      cbn [andb]; try (by eexists).
    by apply poke_grid_ok. }
  rewrite Hg'. cbn [bind]. eexists _, g'. split; [reflexivity|done].
Qed.

Ltac fields :=
  cbn [state param disk game_info drop_time start currentPiece nextPiece
       fieldForFront field next score high_score level speed pause shape
       posX posY type rotation with_game_info with_drop_time with_start
       with_currentPiece with_nextPiece with_fieldForFront with_field
       with_next with_score with_level with_speed with_pause set_field
       set_pause shifted] in *.

Ltac sound_split :=
  split; [|split; [|split; [|split; [|split; [|split; [|split; [|split]]]]]]].

Lemma not_in_play_Spawn : ~ in_play Spawn.
Proof. intros [?|[?|[?|?]]]; done. Qed.
Lemma not_in_play_GameOver : ~ in_play GameOver.
Proof. intros [?|[?|[?|?]]]; done. Qed.
Lemma not_in_play_Start_t : ~ in_play Start_t.
Proof. intros [?|[?|[?|?]]]; done. Qed.
Lemma not_in_play_Terminate_t : ~ in_play Terminate_t.
Proof. intros [?|[?|[?|?]]]; done. Qed.

Lemma addHighScore_grows v d : getHighScore d <= getHighScore (addHighScore v d).2.
Proof.
  unfold addHighScore. destruct (Z.leb_spec v (getHighScore d)); [done|].
  destruct (hs_writable d); [|done]. cbn. lia.
Qed.

(** What [updateInfo] keeps and what it re-establishes. *)
Lemma updateInfo_levels p k :
  let gi := game_info p in
  let p' := updateInfo p k in
  let gi' := game_info p' in
  speed gi = Z.max 100 (1000 - (level gi - 1) * 100) ->
  (field gi' = field gi /\ next gi' = next gi /\
   high_score gi' = high_score gi /\ pause gi' = pause gi /\
   currentPiece p' = currentPiece p /\ nextPiece p' = nextPiece p /\
   fieldForFront p' = fieldForFront p /\ start p' = start p /\
   drop_time p' = drop_time p) /\
  INT_MIN <= score gi' <= INT_MAX /\
  level gi' = Z.min (score gi' ÷ 600 + 1) 10 /\
  speed gi' = Z.max 100 (1000 - (level gi' - 1) * 100).
Proof.
  intros gi p' gi' Hv. subst gi' p'.
  destruct (updateInfo_level_speed p k) as [Hl Hs]. cbv zeta in Hl, Hs.
  fold gi in Hs. split; [|split; [|split]].
  - unfold updateInfo. cbn zeta. fold gi.
    repeat match goal with
           | |- context [if ?c then _ else _] => destruct c
           end; by cbn.
  - rewrite updateInfo_score. apply int_of_range.
  - exact Hl.
  - rewrite Hs. destruct (Z.eqb_spec (level (game_info (updateInfo p k)))
                            (level gi)) as [E|E]; [|reflexivity].
    by rewrite E.
Qed.

Lemma spawnNewPiece_result rnd p :
  grid_ok FIELD_HEIGHT FIELD_WIDTH (field (game_info p)) ->
  grid_ok BLOCK BLOCK (next (game_info p)) ->
  let promoted := mkPiece (shape (nextPiece p)) 3 0 (type (nextPiece p)) 0 in
  spawnNewPiece rnd p false = Done (false, with_currentPiece promoted p) \/
  exists np g,
    spawnNewPiece rnd p false
    = Done (true,
            with_game_info (with_next g (game_info p))
              (with_nextPiece np (with_currentPiece promoted p))) /\
    grid_ok BLOCK BLOCK g /\ has_cell (shape np) /\
    placed (with_currentPiece promoted p).
Proof.
  intros Hf Hn promoted.
  destruct (spawnNewPiece_defined rnd p Hf Hn) as [[r p'] Hrun].
  pose proof (spawnNewPiece_spec _ _ _ _ Hrun) as (_ & _ & Hiff & _).
  revert Hrun. unfold spawnNewPiece. cbn [negb].
  rewrite copyPieceShape_eq.
  change (mkPiece _ (FIELD_WIDTH ÷ 2 - BLOCK ÷ 2) 0 _ 0) with promoted.
  intros Hrun. apply bind_Done in Hrun as (ok & Hok & Hrun).
  rewrite Hok. cbn [bind].
  destruct ok; [|by left]. right.
  apply bind_Done in Hrun as (q & Hq & [= <- <-]).
  rewrite Hq. cbn [bind].
  destruct (drawNextPiece_done rnd (with_currentPiece promoted p) Hn)
    as (q' & Hq' & Hnext).
  assert (q' = q) as -> by congruence.
  apply drawNextPiece_frame in Hq as (np & g & -> & _ & Hnp).
  exists np, g. split; [done|]. split; [exact Hnext|].
  split; [by eapply pieces_has_cell|].
  eapply placed_ext; [| |by apply Hiff]; reflexivity.
Qed.

Lemma sound_front g ff :
  sound g -> grid_ok FIELD_HEIGHT FIELD_WIDTH ff ->
  sound (mkGame (state g) (with_fieldForFront ff (param g)) (disk g)).
Proof.
  unfold sound. intros (?&?&?&?&Hp&?&?&?&?) Hff. fields.
  sound_split; done.
Qed.

(** A change of the current piece alone, to a legally placed one. *)
Lemma sound_piece g c :
  sound g ->
  (in_play (state g) ->
   placed (with_currentPiece c (param g)) /\ has_cell (shape c)) ->
  sound (mkGame (state g) (with_currentPiece c (param g)) (disk g)).
Proof.
  unfold sound. intros (?&?&?&?&Hp&?&?&?&?) Hc. fields.
  sound_split; done.
Qed.

(** A change of state, status flag, start flag or timer. *)
Lemma sound_flags g st' v b t :
  sound g -> (in_play st' -> in_play (state g)) ->
  sound (mkGame st'
           (with_drop_time t (with_start b (set_pause v (param g))))
           (disk g)).
Proof.
  unfold sound. intros (?&?&?&?&Hp&?&?&?&?) Hst. fields.
  sound_split; try done.
  intros Hplay. exact (Hp (Hst Hplay)).
Qed.

Lemma flags_id p :
  with_drop_time (drop_time p)
    (with_start (start p) (set_pause (pause (game_info p)) p)) = p.
Proof. by destruct p as [[] ? ? ? ? ?]. Qed.

Lemma game_eta g : mkGame (state g) (param g) (disk g) = g.
Proof. by destruct g. Qed.

Lemma shifted_piece dx dy p :
  shifted dx dy p
  = with_currentPiece
      (mkPiece (shape (currentPiece p)) (posX (currentPiece p) + dx)
         (posY (currentPiece p) + dy) (type (currentPiece p))
         (rotation (currentPiece p))) p.
Proof. reflexivity. Qed.

Lemma running_Moving g :
  Status_game_eqb (state g) Moving && (pause (game_info (param g)) =? 0)
  = true ->
  state g = Moving /\ in_play (state g).
Proof.
  intros H. apply andb_prop in H as [H _].
  assert (state g = Moving) as Hm by (by destruct (state g)).
  split; [done|]. left. done.
Qed.

Lemma initGame_sound rnd g : exists g', initGame rnd g = Done g' /\ sound g'.
Proof.
  unfold initGame, spawnNewPiece.
  match goal with
  | |- context [drawNextPiece rnd ?q] =>
      destruct (drawNextPiece_done rnd q) as (p' & Hp' & Hnext);
        [apply grid_ok_initMatrix|]
  end.
  rewrite Hp'. cbn [bind]. eexists. split; [reflexivity|].
  apply drawNextPiece_frame in Hp' as (np & gn & -> & _ & Hnp).
  unfold sound. fields. sound_split; try done.
  - apply grid_ok_initMatrix.
  - apply grid_ok_initMatrix.
  - by eapply pieces_has_cell.
  - intros Hplay. by destruct (not_in_play_Start_t Hplay).
Qed.

Lemma move_sound (mv : Params_t -> outcome (bool * Params_t)) dx dy g :
  sound g -> in_play (state g) ->
  is_done (mv (param g)) ->
  (forall r p', mv (param g) = Done (r, p') ->
     p' = (if r then shifted dx dy (param g) else param g) /\ placed p') ->
  exists r p', mv (param g) = Done (r, p') /\
    sound (mkGame (state g) p' (disk g)).
Proof.
  intros Hs Hplay [[r p'] Hrun] Hspec. exists r, p'. split; [done|].
  destruct (Hspec _ _ Hrun) as [-> Hpl].
  destruct r; [|by rewrite game_eta].
  rewrite shifted_piece in *. apply sound_piece; [done|].
  intros _. split; [done|]. fields.
  destruct Hs as (_&_&_&_&Hp&_). by destruct (Hp Hplay).
Qed.

Lemma terminate_sound g :
  sound g ->
  exists g',
    Done
      (mkGame GameOver
         (if pause (game_info (param g)) =? 1 then set_pause 2 (param g)
          else param g)
         (if score (game_info (param g)) >? high_score (game_info (param g))
          then (addHighScore (score (game_info (param g))) (disk g)).2
          else disk g)) = Done g' /\ sound g'.
Proof.
  intros (Hf&Hn&Hff&Hnc&Hp&Hsc&Hl&Hv&Hh).
  eexists. split; [reflexivity|].
  pose proof (addHighScore_grows (score (game_info (param g))) (disk g)).
  unfold sound.
  destruct (pause (game_info (param g)) =? 1); fields;
    (sound_split; try done;
     [intros Hq; by destruct (not_in_play_GameOver Hq)
     |destruct (_ >? _); [lia|done]]).
Qed.

Lemma userInput_sound a hold g :
  sound g -> exists g', userInput a hold g = Done g' /\ sound g'.
Proof.
  intros Hs. pose proof Hs as (Hf&Hn&Hff&Hnc&Hp&Hsc&Hl&Hv&Hh).
  assert (Hsame : exists g', Done g = Done g' /\ sound g') by eauto.
  unfold userInput.
  destruct (Status_game_eqb (state g) Moving
            && (pause (game_info (param g)) =? 0)) eqn:Hrun.
  - apply running_Moving in Hrun as [Hm Hplay].
    destruct (Hp Hplay) as [Hpl Hc].
    destruct hold; cbn [negb].
    + destruct Hc as (i & j & Hij & Hcell).
      destruct (hardDrop_done drop_budget (param g) i j Hf
                  (placed_inside _ Hpl) Hij Hcell) as [p' Hd].
      { destruct (Hpl i j Hij Hcell) as [[_ Hy] _].
        unfold drop_budget, FIELD_HEIGHT in *. lia. }
      rewrite Hd. cbn [bind]. eexists. split; [reflexivity|].
      pose proof (hardDrop_placed _ _ _ Hd Hpl) as Hpl'.
      apply hardDrop_Done in Hd as (k & -> & _).
      rewrite shifted_piece in *. apply sound_piece; [done|].
      intros _. split; [done|]. fields. by exists i, j.
    + destruct a; try exact Hsame.
      * rewrite Hm. cbn [Status_game_eqb orb]. exact Hsame.
      * rewrite Hm. cbn [Status_game_eqb]. eexists. split; [reflexivity|].
        unfold sound. fields. sound_split; done.
      * apply terminate_sound; done.
      * destruct (move_sound moveFigureLeft (-1) 0 g Hs Hplay)
          as (r & p' & -> & Hs').
        -- by apply (moves_defined (param g) Hf (placed_inside _ Hpl)).
        -- intros r p' Hmv. split.
           ++ by destruct (moveFigureLeft_spec _ _ _ Hmv).
           ++ by eapply moveFigureLeft_placed.
        -- cbn [bind]. by eexists.
      * destruct (move_sound moveFigureRight 1 0 g Hs Hplay)
          as (r & p' & -> & Hs').
        -- by apply (moves_defined (param g) Hf (placed_inside _ Hpl)).
        -- intros r p' Hmv. split.
           ++ by destruct (moveFigureRight_spec _ _ _ Hmv).
           ++ by eapply moveFigureRight_placed.
        -- cbn [bind]. by eexists.
      * destruct (rotatePiece_defined (param g) Hf) as (r & c & Hrot & Hc').
        pose proof (rotatePiece_placed _ _ _ Hrot Hpl) as Hpl'.
        rewrite Hrot. cbn [bind]. eexists. split; [reflexivity|].
        apply sound_piece; [done|]. intros _. split; [done|].
        destruct Hc' as [-> | ->]; [done|by apply has_cell_turned].
  - destruct hold; cbn [negb]; [exact Hsame|].
    destruct a; try exact Hsame.
    + destruct (_ || _); [|exact Hsame].
      eexists. split; [reflexivity|].
      unfold sound. fields. sound_split; try done.
      intros Hq. by destruct (not_in_play_Spawn Hq).
    + destruct (state g) eqn:Hst; cbn [Status_game_eqb]; try exact Hsame;
        eexists; (split; [reflexivity|]);
        unfold sound; fields; sound_split; try done;
        intros _; apply Hp; rewrite ?Hst; unfold in_play; auto.
    + apply terminate_sound; done.
Qed.

Lemma updateCurrentState_sound rnd now g :
  sound g ->
  exists view g', updateCurrentState rnd now g = Done (view, g') /\ sound g'.
Proof.
  intros Hs. pose proof Hs as (Hf&Hn&Hff&Hnc&Hp&Hsc&Hl&Hv&Hh).
  unfold updateCurrentState.
  set (rc := negb ((pause (game_info (param g)) =? 1)
                   || negb (start (param g)))).
  match goal with
  | |- exists view g', bind ?m _ = _ /\ _ =>
      assert (Hmachine : exists g1, m = Done g1 /\ sound g1)
  end.
  { destruct rc; [|by exists g].
    destruct (state g) eqn:Hst.
    - destruct (start (param g)); [|by exists g].
      eexists. split; [reflexivity|]. unfold sound. fields.
      sound_split; try done;
        intros Hq; by destruct (not_in_play_Spawn Hq).
    - destruct (spawnNewPiece_result rnd (param g) Hf Hn)
        as [->|(np & gn & -> & Hgn & Hnp & Hpl)]; cbn [bind].
      + eexists. split; [reflexivity|]. unfold sound. fields.
        sound_split; try done;
          intros Hq; by destruct (not_in_play_GameOver Hq).
      + eexists. split; [reflexivity|]. unfold sound. fields.
        sound_split; try done.
    - assert (in_play Moving) as Hplay by (by left).
      unfold getTime. destruct (_ >=? _).
      + eexists. split; [reflexivity|]. unfold sound. fields.
        sound_split; try done; intros _; by apply Hp.
      + eexists. split; [reflexivity|]. unfold sound. fields.
        sound_split; try done; intros _; by apply Hp.
    - assert (in_play (state g)) as Hplay
        by (rewrite Hst; right; by left).
      destruct (Hp ltac:(right; by left)) as [Hpl Hc].
      destruct (move_sound moveFigureDown 0 1 g Hs Hplay)
        as (r & p' & -> & Hs').
      + by apply (moves_defined (param g) Hf (placed_inside _ Hpl)).
      + intros r p' Hmv. split.
        * by destruct (moveFigureDown_spec _ _ _ Hmv).
        * by eapply moveFigureDown_placed.
      + cbn [bind]. destruct Hs' as (?&?&?&?&Hp'&?&?&?&?). fields.
        rewrite Hst in Hp'.
        destruct (Hp' ltac:(right; by left)) as [Hpl' Hc'].
        destruct r; cbn [negb]; (eexists; split; [reflexivity|]);
          unfold sound; fields; sound_split; done.
    - by exists g.
    - destruct (fixFigure_defined (param g) Hf) as (f1 & -> & Hf1).
      cbn [bind].
      destruct (updateCurrentGameInfo_defined (set_field f1 (param g)))
        as (f2 & k & -> & Hf2); [done|].
      cbn [bind]. eexists. split; [reflexivity|].
      destruct (k =? 0).
      + unfold sound. fields. sound_split; try done;
          intros Hq; by destruct (not_in_play_Spawn Hq).
      + destruct (updateInfo_levels (set_field f2 (set_field f1 (param g))) k)
          as ((E1&E2&E3&E4&E5&E6&E7&E8&E9) & Hsc' & Hl' & Hv'); [done..|].
        cbv zeta in *. unfold sound.
        cbn [state param disk].
        rewrite E1, E2, E3, E6, E7. fields.
        sound_split; try done;
          intros Hq; by destruct (not_in_play_Spawn Hq).
    - eexists. split; [reflexivity|].
      pose proof (addHighScore_grows (score (game_info (param g)))
                    (disk g)).
      unfold sound. fields. sound_split; try done; try lia;
        intros Hq; by destruct (not_in_play_Terminate_t Hq).
    - eexists. split; [reflexivity|].
      pose proof (addHighScore_grows (score (game_info (param g)))
                    (disk g)).
      unfold sound. fields. sound_split; try done; try lia;
        intros Hq; by destruct (not_in_play_GameOver Hq). }
  destruct Hmachine as (g1 & -> & Hs1). cbn [bind].
  pose proof Hs1 as (Hf1&_&Hff1&_).
  destruct (createGameInfo_defined (param g1) rc Hf1 Hff1)
    as (view & ff & -> & Hok).
  cbn [bind]. eexists view, _. split; [reflexivity|].
  by apply sound_front.
Qed.

(** Every call returns on a sound state and leaves a sound state. *)
Lemma sound_step c g :
  sound g -> exists g', step c g = Done g' /\ sound g'.
Proof.
  intros Hs. destruct c as [rnd|a hold|rnd now]; cbn [step].
  - apply initGame_sound.
  - by apply userInput_sound.
  - destruct (updateCurrentState_sound rnd now g Hs) as (v & g' & -> & Hs').
    cbn [bind]. by exists g'.
Qed.

Lemma reachable_sound g : reachable g -> sound g.
Proof.
  induction 1 as [d rnd g Hi|c g g' Hg IH Hstep].
  - destruct (initGame_sound rnd (boot d)) as (g' & Hg' & Hs).
    congruence.
  - destruct (sound_step c g IH) as (g1 & Hg1 & Hs). congruence.
Qed.

(** ** The field after a line-clear pass *)

Lemma kept_rows_snoc l r :
  kept_rows (l ++ [r]) = kept_rows l ++ (if row_full r then [] else [r]).
Proof.
  unfold kept_rows. rewrite filter_app. f_equal.
  destruct (row_full r) eqn:E.
  - rewrite filter_cons_False; [done|]. by rewrite E.
  - by rewrite filter_cons_True.
Qed.

Lemma replicate_snoc_cons {A : Type} (n : nat) (x : A) l :
  replicate n x ++ x :: l = replicate (S n) x ++ l.
Proof. induction n as [|n IH]; cbn; [done|]. by rewrite IH. Qed.

(** The scan leaves the rows still to examine compacted and the rows
    below them as they are. *)
Lemma scanLines_exact budget :
  forall (n : nat) (lf : Z) p,
    grid_ok FIELD_HEIGHT FIELD_WIDTH (field (game_info p)) ->
    (n <= Z.to_nat FIELD_HEIGHT)%nat ->
    (full_in (take n (field (game_info p))) + n < budget)%nat ->
    scanLines budget (Z.of_nat n - 1) lf p
    = Done (lf + Z.of_nat (full_in (take n (field (game_info p)))),
            set_field
              (compacted (take n (field (game_info p)))
                 ++ drop n (field (game_info p))) p).
Proof.
  induction budget as [|budget IH]; intros n lf p Hg Hn Hb; [lia|].
  cbn [scanLines]. destruct n as [|m].
  - cbn [Z.of_nat Z.sub Z.opp Z.add Z.geb Z.compare].
    rewrite take_0, drop_0. cbn. by rewrite Z.add_0_r, set_field_id.
  - replace (Z.of_nat (S m) - 1) with (Z.of_nat m) by lia.
    destruct (Z.geb_spec (Z.of_nat m) 0) as [_|]; [|lia].
    destruct (grid_ok_row _ _ _ m Hg ltac:(lia)) as (row & Hrow & Hl).
    rewrite (fullCheck_row _ _ row); [|lia|by rewrite Nat2Z.id|done].
    cbn [bind]. rewrite count_nz_full by done.
    unfold compacted in *.
    rewrite (take_S_r _ _ _ Hrow), full_in_snoc, kept_rows_snoc in *.
    destruct (row_full row) eqn:Hfull.
    + pose proof (clear_row m p Hg ltac:(lia)) as Hclear.
      destruct (cleanStr p (Z.of_nat m)) as [p1| |]; cbn [bind] in *;
        try done.
      rewrite Hclear. cbn [bind].
      replace (Z.of_nat m + 1 - 1) with (Z.of_nat (S m) - 1) by lia.
      set (f := field (game_info p)) in *.
      set (f2 := zero_row :: take m f ++ drop (S m) f).
      assert (Hlen : length (take m f) = m).
      { rewrite length_take. destruct Hg as [Hlen _]. lia. }
      assert (Hf2 : take (S m) f2 = zero_row :: take m f).
      { subst f2. cbn [take]. f_equal. rewrite take_app_le by lia.
        rewrite take_take. f_equal. lia. }
      assert (Hd2 : drop (S m) f2 = drop (S m) f).
      { subst f2. cbn [drop]. rewrite drop_app_length'; done. }
      rewrite (IH (S m) (lf + 1) (set_field f2 p)).
      * cbn [set_field with_game_info game_info field with_field].
        rewrite Hf2, Hd2. unfold full_in, kept_rows.
        rewrite filter_cons_False by (by rewrite zero_row_not_full).
        rewrite filter_cons_True by apply zero_row_not_full.
        rewrite app_nil_r. fold (full_in (take m f)).
        fold (kept_rows (take m f)).
        apply f_equal, f_equal2; [lia|].
        rewrite set_field_twice. f_equal.
        rewrite <- !app_assoc. cbn [app].
        rewrite replicate_snoc_cons, Nat.add_1_r. done.
      * by apply grid_ok_cleared; [|lia].
      * done.
      * cbn [set_field with_game_info game_info field with_field].
        rewrite Hf2. unfold full_in in *.
        rewrite filter_cons_False by (by rewrite zero_row_not_full). lia.
    + rewrite (IH m lf p Hg ltac:(lia) ltac:(lia)).
      apply f_equal, f_equal2; [lia|].
      rewrite Nat.add_0_r, <- !app_assoc. cbn [app].
      by rewrite (drop_S _ _ _ Hrow).
Qed.

Lemma updateCurrentGameInfo_exact p :
  grid_ok FIELD_HEIGHT FIELD_WIDTH (field (game_info p)) ->
  updateCurrentGameInfo p
  = Done (let q := set_field (compacted (field (game_info p))) p in
          if full_rows (field (game_info p)) =? 0 then q
          else updateInfo q (full_rows (field (game_info p)))).
Proof.
  intros Hg. pose proof Hg as [Hlen Hw]. unfold updateCurrentGameInfo.
  change (FIELD_HEIGHT - 1) with (Z.of_nat 20 - 1).
  rewrite (scanLines_exact scan_budget 20 0 p Hg).
  - rewrite take_ge, drop_ge by (rewrite Hlen; unfold FIELD_HEIGHT; lia).
    rewrite app_nil_r. cbn [bind]. unfold full_rows.
    rewrite Z.add_0_l. by destruct (_ =? 0).
  - unfold FIELD_HEIGHT. lia.
  - unfold full_in.
    pose proof (length_filter (fun r => row_full r = true)
                  (take 20 (field (game_info p)))) as Hle.
    rewrite length_take in Hle. unfold scan_budget. lia.
Qed.

(** ** Reading what was written *)

Lemma peek_poke g y x v g' y' x' :
  poke g y x v = Done g' ->
  peek g' y' x' = if decide (y' = y /\ x' = x) then Done v else peek g y' x'.
Proof.
  unfold poke, peek.
  destruct (Z.ltb_spec y 0); [done|]. destruct (Z.ltb_spec x 0); [done|].
  cbn [orb].
  destruct (g !! Z.to_nat y) as [row|] eqn:Hrow; [|done].
  destruct (decide (Z.to_nat x < length row)%nat) as [Hx|]; [|done].
  intros [= <-].
  destruct (Z.ltb_spec y' 0); cbn [orb]; [by destruct (decide _); [lia|]|].
  destruct (Z.ltb_spec x' 0); cbn [orb]; [by destruct (decide _); [lia|]|].
  destruct (decide (y' = y)) as [->|Hy].
  - rewrite list_lookup_insert_eq by (by eapply lookup_lt_Some).
    rewrite Hrow.
    destruct (decide (x' = x)) as [->|Hx'].
    + rewrite list_lookup_insert_eq by done. by destruct (decide _); [|tauto].
    + rewrite list_lookup_insert_ne by lia. by destruct (decide _); [tauto|].
  - rewrite list_lookup_insert_ne by lia. by destruct (decide _); [tauto|].
Qed.

(** A loop that writes [val i j] to every cell [(i, j)] of a list. *)
Lemma write_loop (val : Z -> Z -> Z) l g g' :
  for_each l (fun '(i, j) g => poke g i j (val i j)) g = Done g' ->
  forall y x,
    peek g' y x
    = if decide ((y, x) ∈ l) then Done (val y x) else peek g y x.
Proof.
  revert g; induction l as [|[i j] l IH]; intros g; cbn [for_each].
  - intros [= <-] y x. destruct (decide _) as [Hin|]; [|done].
    by apply elem_of_nil in Hin.
  - intros H y x. apply bind_Done in H as (g1 & Hpoke & H).
    rewrite (IH _ H y x), (peek_poke _ _ _ _ _ y x Hpoke).
    destruct (decide ((y, x) ∈ l)) as [Hin|Hnin].
    + destruct (decide _) as [|Hn]; [done|]. destruct Hn. by right.
    + destruct (decide (y = i /\ x = j)) as [[-> ->]|Hne].
      * destruct (decide _) as [|Hn]; [done|]. destruct Hn. by left.
      * destruct (decide _) as [Hin|]; [|done].
        apply elem_of_cons in Hin as [[= -> ->]|Hin]; tauto.
Qed.

(** A loop that copies the cells of a list from matrix [src]. *)
Lemma copy_cells_loop (src : Grid) l g g' :
  for_each l (fun '(i, j) g => let* v := peek src i j in poke g i j v) g
  = Done g' ->
  forall y x,
    peek g' y x = if decide ((y, x) ∈ l) then peek src y x else peek g y x.
Proof.
  revert g; induction l as [|[i j] l IH]; intros g; cbn [for_each].
  - intros [= <-] y x. destruct (decide _) as [Hin|]; [|done].
    by apply elem_of_nil in Hin.
  - intros H y x. apply bind_Done in H as (g1 & Hstep & H).
    apply bind_Done in Hstep as (v & Hv & Hpoke).
    rewrite (IH _ H y x), (peek_poke _ _ _ _ _ y x Hpoke).
    destruct (decide ((y, x) ∈ l)) as [Hin|Hnin].
    + destruct (decide _) as [|Hn]; [done|]. destruct Hn. by right.
    + destruct (decide (y = i /\ x = j)) as [[-> ->]|Hne].
      * destruct (decide _) as [|Hn]; [done|]. destruct Hn. by left.
      * destruct (decide _) as [Hin|]; [|done].
        apply elem_of_cons in Hin as [[= -> ->]|Hin]; tauto.
Qed.

(** Whether a cell of the board is under an occupied cell of the piece,
    among the cells of a list, can be decided. *)
Lemma classic_in (c : Piece) (l : list (Z * Z)) (y x : Z) :
  (exists i j, (i, j) ∈ l /\ cell_of (shape c) i j <> 0 /\
               y = posY c + i /\ x = posX c + j) \/
  ~ (exists i j, (i, j) ∈ l /\ cell_of (shape c) i j <> 0 /\
                 y = posY c + i /\ x = posX c + j).
Proof.
  induction l as [|[i j] l [IH|IH]].
  - right. intros (i & j & Hin & _). by apply elem_of_nil in Hin.
  - left. destruct IH as (i0 & j0 & Hin & Hrest).
    exists i0, j0. split; [by right|done].
  - destruct (Z.eq_dec (cell_of (shape c) i j) 0) as [Hc|Hc];
      [|destruct (Z.eq_dec y (posY c + i)) as [Hy|Hy];
        [destruct (Z.eq_dec x (posX c + j)) as [Hx|Hx]|]].
    2: { left. exists i, j. split; [by left|done]. }
    all: right; intros (i0 & j0 & Hin & Hc0 & Hy0 & Hx0);
      (apply elem_of_cons in Hin as [[= -> ->]|Hin];
       [done|apply IH; by exists i0, j0]).
Qed.

(** The loop of [fixFigure] and [overlayCurrentPiece]: the cells of the
    board under the piece get [type + 1], the others keep what they
    have. *)
Lemma paint_loop (c : Piece) l g g' :
  for_each l (fun '(i, j) g =>
    if cell_of (shape c) i j =? 0 then Done g
    else
      let x := posX c + j in
      let y := posY c + i in
      if (x >=? 0) && (x <? FIELD_WIDTH) && (y >=? 0) && (y <? FIELD_HEIGHT)
      then poke g y x (type c + 1)
      else Done g) g = Done g' ->
  forall y x,
    ((exists i j, (i, j) ∈ l /\ cell_of (shape c) i j <> 0 /\
                  y = posY c + i /\ x = posX c + j) ->
     on_board x y -> peek g' y x = Done (type c + 1)) /\
    (~ (exists i j, (i, j) ∈ l /\ cell_of (shape c) i j <> 0 /\
                    y = posY c + i /\ x = posX c + j) ->
     peek g' y x = peek g y x).
Proof.
  revert g; induction l as [|[i j] l IH]; intros g; cbn [for_each].
  - intros [= <-] y x. split; [|done].
    intros (i & j & Hin & _). by apply elem_of_nil in Hin.
  - intros H y x. apply bind_Done in H as (g1 & Hstep & H).
    destruct (IH _ H y x) as [IHhit IHmiss].
    assert (Hg1 : (cell_of (shape c) i j <> 0 /\ on_board (posX c + j)
                     (posY c + i) /\
                   forall y x, peek g1 y x
                     = if decide (y = posY c + i /\ x = posX c + j)
                       then Done (type c + 1) else peek g y x) \/
                  ((cell_of (shape c) i j = 0 \/
                    ~ on_board (posX c + j) (posY c + i)) /\ g1 = g)).
    { destruct (Z.eqb_spec (cell_of (shape c) i j) 0) as [Hc|Hc].
      { right. split; [by left|]. by inversion Hstep. }
      cbv zeta in Hstep.
      destruct (Z.geb_spec (posX c + j) 0);
        destruct (Z.ltb_spec (posX c + j) FIELD_WIDTH);
        destruct (Z.geb_spec (posY c + i) 0);
        destruct (Z.ltb_spec (posY c + i) FIELD_HEIGHT);
        cbn [andb] in Hstep;
        try (right; split; [right; unfold on_board; lia|by inversion Hstep]).
      left. split; [done|]. split; [unfold on_board; lia|].
      intros y0 x0. by apply peek_poke. }
    split.
    + intros (i0 & j0 & Hin & Hc & -> & ->) Hon.
      destruct (classic_in c l (posY c + i0) (posX c + j0)) as [Hhit|Hmiss].
      * by apply IHhit.
      * rewrite (IHmiss Hmiss).
        apply elem_of_cons in Hin as [[= -> ->]|Hin];
          [|destruct Hmiss; by exists i0, j0].
        destruct Hg1 as [(_ & _ & Hpk)|[[Hz|Hoff] _]]; [|done..].
        rewrite Hpk. by destruct (decide _); [|tauto].
    + intros Hmiss. rewrite IHmiss.
      * destruct Hg1 as [(Hc & _ & Hpk)|[_ ->]]; [|done].
        rewrite Hpk. destruct (decide _) as [[-> ->]|]; [|done].
        destruct Hmiss. exists i, j. split; [by left|done].
      * intros (i0 & j0 & Hin & Hrest). apply Hmiss.
        exists i0, j0. split; [by right|done].
Qed.

(** ** What the calls leave alone *)

Lemma same_board_refl p : same_board p p.
Proof. by repeat split. Qed.

Lemma rotatePiece_frame p r p' :
  rotatePiece p = Done (r, p') -> same_board p p'.
Proof.
  intros H. destruct r.
  - apply rotatePiece_success in H as [[_ ->]|(_ & -> & _)];
      [apply same_board_refl|by repeat split].
  - apply rotatePiece_failure in H as ->. apply same_board_refl.
Qed.

Lemma userInput_frame a hold g g' :
  userInput a hold g = Done g' -> same_board (param g) (param g').
Proof.
  unfold userInput. intros H.
  destruct hold; cbn [negb] in H.
  - destruct (_ && _); [|inversion H; apply same_board_refl].
    apply bind_Done in H as (p' & Hd & [= <-]).
    apply hardDrop_Done in Hd as (k & -> & _). by repeat split.
  - destruct a.
    + destruct (_ || _); inversion H; by repeat split.
    + destruct (Status_game_eqb (state g) Pause_t);
        [|destruct (Status_game_eqb (state g) Moving)];
        inversion H; by repeat split.
    + inversion H. cbn [param].
      destruct (_ =? 1); by repeat split.
    + destruct (_ && _); [|inversion H; apply same_board_refl].
      apply bind_Done in H as ([r p'] & Hmv & [= <-]).
      destruct (moveFigureLeft_spec _ _ _ Hmv) as [_ ->].
      destruct r; by repeat split.
    + destruct (_ && _); [|inversion H; apply same_board_refl].
      apply bind_Done in H as ([r p'] & Hmv & [= <-]).
      destruct (moveFigureRight_spec _ _ _ Hmv) as [_ ->].
      destruct r; by repeat split.
    + inversion H; apply same_board_refl.
    + inversion H; apply same_board_refl.
    + destruct (_ && _); [|inversion H; apply same_board_refl].
      apply bind_Done in H as ([r p'] & Hrot & [= <-]).
      by eapply rotatePiece_frame.
Qed.

Lemma set_field_frame f p p' :
  p' = set_field f p ->
  score (game_info p') = score (game_info p) /\
  high_score (game_info p') = high_score (game_info p).
Proof. by intros ->. Qed.

Lemma scanLines_frame budget :
  forall y lf p k q,
    scanLines budget y lf p = Done (k, q) -> exists f, q = set_field f p.
Proof.
  induction budget as [|budget IH]; intros y lf p k q; cbn [scanLines];
    [done|].
  destruct (y >=? 0);
    [|intros [= <- <-]; exists (field (game_info p));
      by rewrite set_field_id].
  intros H. apply bind_Done in H as (fc & _ & H).
  destruct (fc =? FIELD_WIDTH); [|by eapply IH].
  apply bind_Done in H as (p1 & H1 & H).
  apply bind_Done in H as (p2 & H2 & H).
  unfold cleanStr in H1. apply bind_Done in H1 as (g1 & _ & [= <-]).
  unfold copyStr in H2. apply bind_Done in H2 as (g2 & _ & H2).
  apply bind_Done in H2 as (g3 & _ & [= <-]).
  apply IH in H as (f & ->). by exists f.
Qed.

Lemma gained_refl s : gained s s.
Proof. by left. Qed.

Lemma gained_le s s' :
  gained s s' -> INT_MIN <= s -> s + 1500 <= INT_MAX ->
  s <= s' <= s + 1500.
Proof.
  intros [->|(pts & Hp & ->)] Hlo Hhi; [lia|].
  rewrite int_of_id; lia.
Qed.

Lemma updateInfo_frame p k :
  gained (score (game_info p)) (score (game_info (updateInfo p k))) /\
  high_score (game_info (updateInfo p k)) = high_score (game_info p).
Proof.
  split.
  - right. eexists. split; [apply (points_bounds k)|].
    apply updateInfo_score.
  - unfold updateInfo. cbn zeta.
    destruct (_ =? level _); [done|]. by destruct (_ <? 100).
Qed.

Lemma updateCurrentGameInfo_frame p p' :
  updateCurrentGameInfo p = Done p' ->
  gained (score (game_info p)) (score (game_info p')) /\
  high_score (game_info p') = high_score (game_info p).
Proof.
  unfold updateCurrentGameInfo. intros H.
  apply bind_Done in H as ([k q] & Hscan & H).
  apply scanLines_frame in Hscan as (f & ->).
  destruct (k =? 0); inversion H; subst p'.
  - split; [apply gained_refl|done].
  - destruct (updateInfo_frame (set_field f p) k) as [Hs Hh].
    rewrite Hh. split; [exact Hs|done].
Qed.

Lemma spawnNewPiece_frame rnd p r p' :
  spawnNewPiece rnd p false = Done (r, p') ->
  score (game_info p') = score (game_info p) /\
  high_score (game_info p') = high_score (game_info p).
Proof.
  unfold spawnNewPiece. cbn [negb]. intros H.
  apply bind_Done in H as (ok & _ & H). destruct ok.
  - apply bind_Done in H as (q & Hq & [= <- <-]).
    by apply drawNextPiece_frame in Hq as (np & g & -> & _).
  - by inversion H.
Qed.

(** What a tick does to score, high score and file. *)
Lemma updateCurrentState_frame rnd now g view g' :
  updateCurrentState rnd now g = Done (view, g') ->
  gained (score (game_info (param g))) (score (game_info (param g'))) /\
  high_score (game_info (param g')) = high_score (game_info (param g)) /\
  getHighScore (disk g) <= getHighScore (disk g').
Proof.
  unfold updateCurrentState. intros H.
  apply bind_Done in H as (g1 & H1 & H).
  apply bind_Done in H as ([v p'] & Hc & [= <- <-]).
  apply createGameInfo_frame in Hc as (Hgi & _).
  cbn [state param disk]. rewrite Hgi. clear Hgi p'.
  assert (gained (score (game_info (param g)))
            (score (game_info (param g))) /\
          high_score (game_info (param g))
          = high_score (game_info (param g)) /\
          getHighScore (disk g) <= getHighScore (disk g))
    as Hsame by (split; [apply gained_refl|split; [done|lia]]).
  destruct (negb _); [|inversion H1; subst; by apply Hsame].
  destruct (state g).
  - destruct (start (param g)); inversion H1; subst; by apply Hsame.
  - apply bind_Done in H1 as ([ok p1] & Hs & H1).
    apply spawnNewPiece_frame in Hs as [Hsc Hh].
    destruct ok; inversion H1; subst; cbn [param disk]; rewrite Hsc, Hh;
      by apply Hsame.
  - unfold getTime in H1. destruct (_ >=? _); inversion H1; subst;
      by apply Hsame.
  - apply bind_Done in H1 as ([moved p1] & Hmv & H1).
    destruct (moveFigureDown_spec _ _ _ Hmv) as [_ ->].
    destruct moved; inversion H1; subst; by apply Hsame.
  - inversion H1; subst; by apply Hsame.
  - apply bind_Done in H1 as (p1 & Hfix & H1).
    apply bind_Done in H1 as (p2 & Hup & [= <-]).
    unfold fixFigure in Hfix. apply bind_Done in Hfix as (f & _ & [= <-]).
    apply updateCurrentGameInfo_frame in Hup as [Hsc Hh].
    cbn [param disk] in *. split; [exact Hsc|]. split; [exact Hh|lia].
  - inversion H1; subst. cbn [param disk].
    pose proof (addHighScore_grows (score (game_info (set_pause 2 (param g))))
                  (disk g)).
    split; [apply gained_refl|]. by split.
  - inversion H1; subst. cbn [param disk].
    pose proof (addHighScore_grows (score (game_info (set_pause 2 (param g))))
                  (disk g)).
    split; [apply gained_refl|]. by split.
Qed.

Lemma userInput_disk a hold g g' :
  userInput a hold g = Done g' ->
  getHighScore (disk g) <= getHighScore (disk g').
Proof.
  unfold userInput. intros H.
  destruct hold; cbn [negb] in H.
  - destruct (_ && _); [|inversion H; lia].
    by apply bind_Done in H as (p' & _ & [= <-]).
  - destruct a.
    + destruct (_ || _); inversion H; cbn; lia.
    + destruct (Status_game_eqb (state g) Pause_t);
        [|destruct (Status_game_eqb (state g) Moving)];
        inversion H; cbn; lia.
    + inversion H. cbn [disk]. destruct (_ >? _); [|lia].
      apply addHighScore_grows.
    + destruct (_ && _); [|inversion H; lia].
      by apply bind_Done in H as ([r p'] & _ & [= <-]).
    + destruct (_ && _); [|inversion H; lia].
      by apply bind_Done in H as ([r p'] & _ & [= <-]).
    + inversion H; lia.
    + inversion H; lia.
    + destruct (_ && _); [|inversion H; lia].
      by apply bind_Done in H as ([r p'] & _ & [= <-]).
Qed.

Lemma initGame_disk rnd g g' : initGame rnd g = Done g' -> disk g' = disk g.
Proof.
  unfold initGame. intros H.
  by apply bind_Done in H as ([r p] & _ & [= <-]).
Qed.

(** * Further properties of the code *)

Lemma run_sound cs g :
  sound g -> exists g', run cs g = Done g' /\ sound g'.
Proof.
  unfold run.
  revert g; induction cs as [|c cs IH]; intros g Hs; cbn [for_each].
  - by exists g.
  - destruct (sound_step c g Hs) as (g1 & -> & Hs1). cbn [bind].
    by apply IH.
Qed.

(** A run that starts with [initGame] never reads or writes outside a
    matrix and never hangs in a loop: every call returns, whatever the
    random numbers, the clock and the file are. *)
Theorem runs_never_fault (d : Disk) (rnd : nat) (cs : list call) :
  is_done (run (InitGame rnd :: cs) (boot d)).
Proof.
  unfold run. cbn [for_each step].
  destruct (initGame_sound rnd (boot d)) as (g & -> & Hs). cbn [bind].
  destruct (run_sound cs g Hs) as (g' & Hg' & _). by exists g'.
Qed.

(** In every reachable state the score is an [int], the level is
    [min (score / 600 + 1) 10] with the truncating division of C, and
    the speed is [max 100 (1000 - (level - 1) * 100)].  While the score
    is not negative, that is as long as it has not overflowed, the
    division is the floor, the level is between 1 and 10 and the speed
    between 100 and 1000. *)
Theorem reachable_levels (g : Game) :
  reachable g ->
  let gi := game_info (param g) in
  INT_MIN <= score gi <= INT_MAX /\
  level gi = Z.min (score gi ÷ 600 + 1) 10 /\
  speed gi = Z.max 100 (1000 - (level gi - 1) * 100) /\
  (0 <= score gi ->
   level gi = Z.min (score gi / 600 + 1) 10 /\
   1 <= level gi <= 10 /\ 100 <= speed gi <= 1000).
Proof.
  intros Hr. apply reachable_sound in Hr as (_&_&_&_&_&Hsc&Hl&Hv&_).
  cbv zeta. split; [done|]. split; [done|]. split; [done|].
  intros Hpos. rewrite Z.quot_div_nonneg in Hl by lia.
  assert (0 <= score (game_info (param g)) / 600)
    by (apply Z.div_pos; lia).
  lia.
Qed.

Lemma reachable_levels_witness :
  exists g, run five_squares (boot empty_disk) = Done g /\
    score (game_info (param g)) = 300 /\
    level (game_info (param g)) = Z.min (300 / 600 + 1) 10 /\
    100 <= speed (game_info (param g)) <= 1000.
Proof.
  eexists. split; [vm_compute; reflexivity|]. split; [reflexivity|].
  match goal with
  | |- context [param ?g] =>
      assert (Hr : reachable g)
        by (apply (reachable_boot empty_disk 1 (tail five_squares));
            vm_compute; reflexivity);
        destruct (reachable_levels g Hr) as (_ & _ & _ & Hpos)
  end.
  destruct Hpos as (Hl & _ & Hv); [vm_compute; discriminate|].
  split; [exact Hl|exact Hv].
Defined.

(** A call other than [initGame] leaves the score or adds between 100
    and 1500 to it with the addition of [int]; so, as long as the sum
    stays within [INT_MAX], no such call lowers the score.  No call at
    all lowers the high score in the file. *)
Theorem score_never_drops (c : call) (g g' : Game) :
  step c g = Done g' ->
  (is_init c = false ->
   gained (score (game_info (param g))) (score (game_info (param g'))) /\
   (INT_MIN <= score (game_info (param g)) ->
    score (game_info (param g)) + 1500 <= INT_MAX ->
    score (game_info (param g)) <= score (game_info (param g'))
    <= score (game_info (param g)) + 1500)) /\
  getHighScore (disk g) <= getHighScore (disk g').
Proof.
  destruct c as [rnd|a hold|rnd now]; cbn [step is_init]; intros H.
  - split; [done|]. apply initGame_disk in H. rewrite H. lia.
  - split.
    + intros _. apply userInput_frame in H as (_&_&Hs&_). rewrite Hs.
      split; [apply gained_refl|lia].
    + by eapply userInput_disk.
  - apply bind_Done in H as ([v g1] & H & [= <-]).
    apply updateCurrentState_frame in H as (Hs & _ & Hd).
    split; [|exact Hd]. intros _. split; [exact Hs|].
    by apply gained_le.
Qed.

Lemma score_never_drops_witness :
  exists g g',
    run five_squares_before_fix (boot empty_disk) = Done g /\
    step (UpdateCurrentState 1 (mkTimespec 5 0)) g = Done g' /\
    score (game_info (param g)) = 0 /\
    score (game_info (param g')) = 300 /\
    score (game_info (param g)) <= score (game_info (param g')).
Proof.
  eexists _, _. split; [vm_compute; reflexivity|].
  match goal with
  | |- step ?c ?g = Done ?g' /\ _ =>
      assert (Hstep : step c g = Done g') by (vm_compute; reflexivity)
  end.
  split; [exact Hstep|]. split; [reflexivity|]. split; [reflexivity|].
  destruct (score_never_drops _ _ _ Hstep) as [Hs _].
  destruct Hs as [_ Hle]; [reflexivity|].
  apply Hle; vm_compute; discriminate.
Defined.

(** ** The line-clear pass *)

Lemma full_in_app l1 l2 : full_in (l1 ++ l2) = (full_in l1 + full_in l2)%nat.
Proof. unfold full_in. by rewrite filter_app, length_app. Qed.

Lemma full_in_kept l : full_in (kept_rows l) = 0%nat.
Proof.
  unfold full_in, kept_rows. induction l as [|r l IH]; [done|].
  destruct (row_full r) eqn:E.
  - rewrite (filter_cons_False _ r l) by (by rewrite E). exact IH.
  - rewrite (filter_cons_True _ r l) by done.
    rewrite filter_cons_False by (by rewrite E). exact IH.
Qed.

Lemma full_in_zero_rows n : full_in (replicate n zero_row) = 0%nat.
Proof.
  unfold full_in. induction n as [|n IH]; [done|]. cbn [replicate].
  rewrite filter_cons_False by (by rewrite zero_row_not_full). exact IH.
Qed.

Lemma length_full_kept l : (full_in l + length (kept_rows l))%nat = length l.
Proof.
  unfold full_in, kept_rows. induction l as [|r l IH]; [done|].
  destruct (row_full r) eqn:E.
  - rewrite (filter_cons_True _ r l) by done.
    rewrite (filter_cons_False _ r l) by (by rewrite E). cbn [length]. lia.
  - rewrite (filter_cons_False _ r l) by (by rewrite E).
    rewrite (filter_cons_True _ r l) by done. cbn [length]. lia.
Qed.

(** On a board of [initMatrix] the line-clear pass leaves the rows that
    were not full in their order at the bottom, under as many empty rows
    as there were full rows; no row of the new board is full, the board
    has its size, and the pieces, the preview, the high score and the
    render buffer are as before. *)
Theorem line_clear_compacts (p : Params_t) :
  grid_ok FIELD_HEIGHT FIELD_WIDTH (field (game_info p)) ->
  exists p',
    updateCurrentGameInfo p = Done p' /\
    field (game_info p') = compacted (field (game_info p)) /\
    full_rows (field (game_info p')) = 0 /\
    length (field (game_info p')) = length (field (game_info p)) /\
    next (game_info p') = next (game_info p) /\
    high_score (game_info p') = high_score (game_info p) /\
    pause (game_info p') = pause (game_info p) /\
    currentPiece p' = currentPiece p /\ nextPiece p' = nextPiece p /\
    fieldForFront p' = fieldForFront p.
Proof.
  intros Hg. rewrite (updateCurrentGameInfo_exact p Hg). cbv zeta.
  eexists. split; [reflexivity|].
  assert (Hfull : full_rows (compacted (field (game_info p))) = 0).
  { unfold full_rows, compacted.
    by rewrite full_in_app, full_in_zero_rows, full_in_kept. }
  assert (Hlen : length (compacted (field (game_info p)))
                 = length (field (game_info p))).
  { unfold compacted. rewrite length_app, length_replicate.
    apply length_full_kept. }
  destruct (_ =? 0).
  - by cbn.
  - set (q := set_field (compacted (field (game_info p))) p).
    unfold updateInfo. cbn zeta.
    destruct (_ =? level _); [by cbn|]. by destruct (_ <? 100); cbn.
Qed.

Lemma line_clear_compacts_witness :
  exists p',
    updateCurrentGameInfo (set_field one_full_row (lone zero_piece))
    = Done p' /\
    field (game_info p') = initMatrix FIELD_HEIGHT FIELD_WIDTH.
Proof.
  destruct (line_clear_compacts (set_field one_full_row (lone zero_piece)))
    as (p' & Hrun & Hf & _).
  - split; [reflexivity|]. unfold one_full_row.
    cbn [set_field with_game_info game_info field with_field].
    apply Forall_insert; [apply grid_ok_initMatrix|reflexivity].
  - exists p'. split; [exact Hrun|]. rewrite Hf. vm_compute. reflexivity.
Defined.

(** ** Fixing a piece, drawing the view *)

Lemma field_cells_in y x : on_board x y -> (y, x) ∈ field_cells.
Proof.
  intros [Hx Hy]. unfold field_cells. apply list_elem_of_bind.
  exists y. split; [|apply elem_of_seqZ; unfold FIELD_HEIGHT in *; lia].
  apply list_elem_of_bind. exists x. split; [by left|].
  unfold width_range, FIELD_WIDTH in *.
  assert (x = 0 \/ x = 1 \/ x = 2 \/ x = 3 \/ x = 4 \/ x = 5 \/ x = 6 \/
          x = 7 \/ x = 8 \/ x = 9) as Hc by lia.
  repeat (destruct Hc as [-> | Hc]; [by repeat constructor|]).
  subst. by repeat constructor.
Qed.

(** [fixFigure] writes [type + 1] to the cells of the board that are
    under the piece, and changes no other cell and nothing but the
    field. *)
Theorem fixFigure_writes (p : Params_t) :
  grid_ok FIELD_HEIGHT FIELD_WIDTH (field (game_info p)) ->
  exists f',
    fixFigure p = Done (set_field f' p) /\
    grid_ok FIELD_HEIGHT FIELD_WIDTH f' /\
    forall y x,
      (covers (currentPiece p) y x -> on_board x y ->
       peek f' y x = Done (type (currentPiece p) + 1)) /\
      (~ covers (currentPiece p) y x ->
       peek f' y x = peek (field (game_info p)) y x).
Proof.
  intros Hf. destruct (fixFigure_defined p Hf) as (f' & Hrun & Hok).
  exists f'. split; [done|]. split; [done|].
  unfold fixFigure in Hrun.
  apply bind_Done in Hrun as (g & Hloop & Hg).
  assert (g = f') as ->.
  { by inversion Hg. }
  intros y x. exact (paint_loop (currentPiece p) block_cells _ _ Hloop y x).
Qed.

Lemma fixFigure_writes_witness :
  exists f',
    fixFigure (lone (mkPiece o_piece 3 18 1 0))
    = Done (set_field f' (lone (mkPiece o_piece 3 18 1 0))) /\
    peek f' 19 4 = Done 2.
Proof.
  destruct (fixFigure_writes (lone (mkPiece o_piece 3 18 1 0)))
    as (f' & Hrun & _ & Hcells); [apply grid_ok_initMatrix|].
  exists f'. split; [exact Hrun|].
  apply (Hcells 19 4).
  - exists 1, 1. split; [by_in_cells|]. split; [vm_compute; discriminate|].
    split; reflexivity.
  - unfold on_board, FIELD_WIDTH, FIELD_HEIGHT. lia.
Defined.

(** The view a working tick builds: its field shows the field with the
    current piece drawn over it as [type + 1], its other members are
    those of the game information; the game information itself (the
    field included) and the pieces are not touched. *)
Theorem snapshot_view (p : Params_t) :
  grid_ok FIELD_HEIGHT FIELD_WIDTH (field (game_info p)) ->
  grid_ok FIELD_HEIGHT FIELD_WIDTH (fieldForFront p) ->
  exists view p',
    createGameInfo p true = Done (view, p') /\
    game_info p' = game_info p /\
    currentPiece p' = currentPiece p /\ nextPiece p' = nextPiece p /\
    fieldForFront p' = field view /\
    next view = next (game_info p) /\ score view = score (game_info p) /\
    high_score view = high_score (game_info p) /\
    level view = level (game_info p) /\ speed view = speed (game_info p) /\
    pause view = pause (game_info p) /\
    forall y x, on_board x y ->
      (covers (currentPiece p) y x ->
       peek (field view) y x = Done (type (currentPiece p) + 1)) /\
      (~ covers (currentPiece p) y x ->
       peek (field view) y x = peek (field (game_info p)) y x).
Proof.
  intros Hf Hff.
  destruct (createGameInfo_defined p true Hf Hff) as (view & ff & Hrun & _).
  exists view, (with_fieldForFront ff p). split; [exact Hrun|].
  unfold createGameInfo in Hrun. cbn [negb] in Hrun.
  apply bind_Done in Hrun as (g & Hcopy & Hrun).
  apply bind_Done in Hrun as (q & Hover & Hrun).
  unfold overlayCurrentPiece in Hover.
  apply bind_Done in Hover as (g' & Hpaint & [= <-]).
  cbn [currentPiece with_fieldForFront fieldForFront game_info] in *.
  inversion Hrun as [[Hview Hq]]. clear Hrun. subst ff.
  cbn [field next score high_score level speed pause game_info
       currentPiece nextPiece fieldForFront with_fieldForFront].
  do 10 (split; [reflexivity|]).
  intros y x Hon.
  pose proof (copy_cells_loop _ _ _ _ Hcopy y x) as Hc.
  destruct (decide ((y, x) ∈ field_cells)) as [_|Hn];
    [|destruct Hn; by apply field_cells_in].
  destruct (paint_loop (currentPiece p) block_cells _ _ Hpaint y x)
    as [Hhit Hmiss].
  split.
  - intros Hcov. by apply Hhit.
  - intros Hcov. rewrite (Hmiss Hcov). exact Hc.
Qed.

Lemma snapshot_view_witness :
  exists view p',
    createGameInfo (lone (mkPiece o_piece 3 0 1 0)) true
    = Done (view, p') /\
    peek (field view) 0 3 = Done 2 /\
    field (game_info p') = initMatrix FIELD_HEIGHT FIELD_WIDTH.
Proof.
  destruct (snapshot_view (lone (mkPiece o_piece 3 0 1 0)))
    as (view & p' & Hrun & Hgi & _ & _ & _ & _ & _ & _ & _ & _ & _ & Hcells);
    [apply grid_ok_initMatrix..|].
  exists view, p'. split; [exact Hrun|]. split; [|by rewrite Hgi].
  apply (Hcells 0 3).
  - unfold on_board, FIELD_WIDTH, FIELD_HEIGHT. lia.
  - exists 0, 0. split; [by_in_cells|]. split; [vm_compute; discriminate|].
    split; reflexivity.
Defined.

(** ** Inputs *)

(** No input touches the field, the preview, the score, the level, the
    speed, the high score, the next piece, the render buffer or the drop
    timer, nor the type of the current piece. *)
Theorem input_keeps_board (a : UserAction_t) (hold : bool) (g g' : Game) :
  userInput a hold g = Done g' -> same_board (param g) (param g').
Proof. apply userInput_frame. Qed.

Lemma input_keeps_board_witness :
  exists g g',
    run o_game_calls (boot empty_disk) = Done g /\
    userInput Action false g = Done g' /\
    same_board (param g) (param g').
Proof.
  eexists _, _. split; [vm_compute; reflexivity|].
  match goal with
  | |- userInput ?a ?h ?g = Done ?g' /\ _ =>
      assert (Hrun : userInput a h g = Done g') by (vm_compute; reflexivity)
  end.
  split; [exact Hrun|]. exact (input_keeps_board _ _ _ _ Hrun).
Defined.

(** A rotation that is refused, by the pre-check or by the final
    placement check, leaves the piece as it was: the shape is copied
    back and the position restored. *)
Theorem failed_rotation_restores (p p' : Params_t) :
  rotatePiece p = Done (false, p') -> p' = p.
Proof. apply rotatePiece_failure. Qed.

Lemma failed_rotation_restores_witness :
  canRotate i_blocked = Done true /\
  exists p', rotatePiece i_blocked = Done (false, p') /\ p' = i_blocked.
Proof.
  split; [vm_compute; reflexivity|].
  assert (Hrun : rotatePiece i_blocked = Done (false, i_blocked))
    by (vm_compute; reflexivity).
  exists i_blocked. split; [exact Hrun|].
  exact (failed_rotation_restores _ _ Hrun).
Defined.

(** ** The high-score file *)

(** [addHighScore] writes exactly when the new score is above the stored
    one and the file can be opened for writing; then [getHighScore]
    reads the new score back; otherwise the file is as it was. *)
Theorem high_score_round_trip (v : Z) (d : Disk) :
  ((addHighScore v d).1 = true <->
   v > getHighScore d /\ hs_writable d = true) /\
  ((addHighScore v d).1 = true -> getHighScore (addHighScore v d).2 = v) /\
  ((addHighScore v d).1 = false -> (addHighScore v d).2 = d).
Proof.
  unfold addHighScore.
  destruct (Z.leb_spec v (getHighScore d)); cbn [fst snd].
  - split; [|done]. split; [done|]. lia.
  - destruct (hs_writable d); cbn [fst snd].
    + split; [|done]. split; [|done]. intros _. split; [lia|done].
    + split; [|done]. split; [done|]. by intros [_ ?].
Qed.

Lemma high_score_round_trip_witness :
  getHighScore (addHighScore 700 (mkDisk (Some 300) true)).2 = 700 /\
  (addHighScore 200 (mkDisk (Some 300) true)).2 = mkDisk (Some 300) true.
Proof.
  destruct (high_score_round_trip 700 (mkDisk (Some 300) true))
    as (_ & Hw & _).
  destruct (high_score_round_trip 200 (mkDisk (Some 300) true))
    as (_ & _ & Hn).
  split; [apply Hw; reflexivity|apply Hn; reflexivity].
Defined.

(** ** Pause *)

Lemma idle_tick rnd now g :
  pause (game_info (param g)) = 1 \/ start (param g) = false ->
  updateCurrentState rnd now g = Done (game_info (param g), g).
Proof.
  intros H. unfold updateCurrentState.
  assert (negb ((pause (game_info (param g)) =? 1) || negb (start (param g)))
          = false) as ->.
  { destruct H as [-> | ->]; [done|]. by rewrite orb_true_r. }
  cbn [bind createGameInfo negb]. by destruct g.
Qed.

Lemma idle_ticks ticks g :
  pause (game_info (param g)) = 1 \/ start (param g) = false ->
  forallb is_tick ticks = true ->
  run ticks g = Done g.
Proof.
  intros Hidle. unfold run.
  induction ticks as [|c ticks IH]; cbn [for_each forallb]; [done|].
  intros H. apply andb_prop in H as [Hc Hrest].
  destruct c as [|?|rnd now]; try done. cbn [step].
  rewrite (idle_tick rnd now g Hidle). cbn [bind]. by apply IH.
Qed.

(** From a game in [Moving], a pause, any number of ticks and a second
    pause lead back to [Moving] with everything as it was before the
    first pause, the drop timer included, but for the status flag, which
    is 0 afterwards.  So a game whose flag was 0 (neither paused nor
    flagged as ended) is exactly as it was; a game in [Moving] with the
    flag 2 is not: its flag has been cleared. *)
Theorem pause_round_trip (g : Game) (ticks : list call) :
  state g = Moving ->
  forallb is_tick ticks = true ->
  run (UserInput Pause false :: ticks ++ [UserInput Pause false]) g
  = Done (mkGame Moving (set_pause 0 (param g)) (disk g)) /\
  (pause (game_info (param g)) = 0 ->
   run (UserInput Pause false :: ticks ++ [UserInput Pause false]) g
   = Done g).
Proof.
  intros Hst Hticks.
  assert (run (UserInput Pause false :: ticks ++ [UserInput Pause false]) g
          = Done (mkGame Moving (set_pause 0 (param g)) (disk g))) as Hrun.
  { unfold run. cbn [for_each step].
    unfold userInput at 1. cbn [negb]. rewrite Hst.
    cbn [Status_game_eqb bind]. rewrite for_each_app.
    fold (run ticks (mkGame Pause_t (set_pause 1 (param g)) (disk g))).
    rewrite idle_ticks; [|by left|done].
    cbn [bind for_each step userInput negb state Status_game_eqb].
    by destruct g as [st [[f n s h l v pz] dt b c np ff] d]. }
  split; [exact Hrun|]. intros Hp. rewrite Hrun.
  destruct g as [st [[f n s h l v pz] dt b c np ff] d].
  cbn in Hst, Hp. by subst.
Qed.

Lemma pause_round_trip_witness :
  let g := mkGame Moving (lone (mkPiece o_piece 3 0 1 0)) empty_disk in
  run [UserInput Pause false; UpdateCurrentState 1 (mkTimespec 9 0);
       UpdateCurrentState 1 (mkTimespec 10 0); UserInput Pause false] g
  = Done g.
Proof.
  intros g.
  exact (proj2 (pause_round_trip g
                  [UpdateCurrentState 1 (mkTimespec 9 0);
                   UpdateCurrentState 1 (mkTimespec 10 0)]
                  eq_refl eq_refl) eq_refl).
Defined.

(** ** Game over *)

Lemma addHighScore_idem v d :
  (addHighScore v (addHighScore v d).2).2 = (addHighScore v d).2.
Proof.
  unfold addHighScore at 2 3.
  destruct (Z.leb_spec v (getHighScore d)) as [Hle|Hgt].
  - cbn [snd]. unfold addHighScore.
    by destruct (Z.leb_spec v (getHighScore d)); [|lia].
  - destruct (hs_writable d) eqn:Hw; cbn [snd].
    + unfold addHighScore, getHighScore. cbn [hs_file].
      by destruct (Z.leb_spec v v); [|lia].
    + unfold addHighScore.
      destruct (Z.leb_spec v (getHighScore d)); [lia|]. by rewrite Hw.
Qed.

Lemma ended_tick s f D h rnd now :
  grid_ok FIELD_HEIGHT FIELD_WIDTH f -> ended s f D h ->
  exists view h',
    updateCurrentState rnd now h = Done (view, h') /\
    pause view = 2 /\ disk h' = D /\ ended s f D h'.
Proof.
  intros Hf (Hst & Hstart & Hp & Hff & Hs & Hfd & HD).
  unfold updateCurrentState.
  assert (negb ((pause (game_info (param h)) =? 1)
                || negb (start (param h))) = true) as ->.
  { rewrite Hstart. by destruct (Z.eqb_spec (pause (game_info (param h))) 1). }
  rewrite Hst. cbn [bind param state disk].
  destruct (createGameInfo_defined (set_pause 2 (param h)) true)
    as (view & ff & Hc & Hff1).
  { cbn. by rewrite Hfd. }
  { exact Hff. }
  rewrite Hc. cbn [bind]. eexists view, _. split; [reflexivity|].
  apply createGameInfo_frame in Hc
    as (_ & _ & _ & _ & _ & _ & _ & _ & _ & Hpv & _).
  split; [by rewrite Hpv|].
  cbn [disk set_pause game_info with_game_info score with_pause].
  rewrite Hs. split; [exact HD|].
  unfold ended. cbn [state param disk]. fields.
  split; [done|]. split; [done|]. split; [done|]. split; [done|].
  split; [done|]. split; [done|]. rewrite <- HD. apply addHighScore_idem.
Qed.

Lemma ended_ticks s f D ticks :
  grid_ok FIELD_HEIGHT FIELD_WIDTH f ->
  forallb is_tick ticks = true ->
  forall h, ended s f D h -> exists h', run ticks h = Done h' /\ ended s f D h'.
Proof.
  intros Hf. unfold run.
  induction ticks as [|c ticks IH]; cbn [for_each forallb]; intros Hall h He.
  - by exists h.
  - apply andb_prop in Hall as [Hc Hrest].
    destruct c as [|?|rnd now]; try done. cbn [step].
    destruct (ended_tick s f D h rnd now Hf He) as (view & h' & -> & _ & _ & He').
    cbn [bind]. by apply IH.
Qed.

(** A tick in the state [Spawn] of a started, unpaused game whose next
    piece has no room at the top makes that piece the current one, keeps
    the next piece, the game information and the file, and goes to
    [GameOver].  Every tick after that, however many, returns, stays in
    [GameOver], shows the status 2, keeps score and field, and leaves
    the file as [addHighScore] makes it of the score. *)
Theorem blocked_spawn_ends_game (rnd : nat) (now : timespec) (g : Game) :
  state g = Spawn ->
  start (param g) = true ->
  pause (game_info (param g)) <> 1 ->
  grid_ok FIELD_HEIGHT FIELD_WIDTH (field (game_info (param g))) ->
  grid_ok BLOCK BLOCK (next (game_info (param g))) ->
  grid_ok FIELD_HEIGHT FIELD_WIDTH (fieldForFront (param g)) ->
  ~ placed (with_currentPiece (promoted (param g)) (param g)) ->
  exists view g',
    updateCurrentState rnd now g = Done (view, g') /\
    state g' = GameOver /\
    currentPiece (param g') = promoted (param g) /\
    nextPiece (param g') = nextPiece (param g) /\
    game_info (param g') = game_info (param g) /\
    disk g' = disk g /\
    forall (ticks : list call) rnd' now',
      forallb is_tick ticks = true ->
      exists g1 view' g'',
        run ticks g' = Done g1 /\
        updateCurrentState rnd' now' g1 = Done (view', g'') /\
        state g'' = GameOver /\ pause view' = 2 /\
        pause (game_info (param g'')) = 2 /\
        score (game_info (param g'')) = score (game_info (param g)) /\
        field (game_info (param g'')) = field (game_info (param g)) /\
        disk g'' = (addHighScore (score (game_info (param g))) (disk g)).2.
Proof.
  intros Hst Hstart Hp Hf Hn Hff Hblocked.
  assert (Hrc : negb ((pause (game_info (param g)) =? 1)
                      || negb (start (param g))) = true).
  { rewrite Hstart. by destruct (Z.eqb_spec (pause (game_info (param g))) 1). }
  unfold updateCurrentState at 1. rewrite Hrc, Hst.
  destruct (spawnNewPiece_result rnd (param g) Hf Hn)
    as [Hs|(np & gn & _ & _ & _ & Hpl)]; [|by destruct Hblocked].
  rewrite Hs. cbn [bind].
  destruct (createGameInfo_defined
              (with_currentPiece (promoted (param g)) (param g)) true Hf Hff)
    as (view & ff & Hc & Hff1).
  cbn [param state disk].
  change (mkPiece (shape (nextPiece (param g))) 3 0
            (type (nextPiece (param g))) 0) with (promoted (param g)).
  rewrite Hc. cbn [bind]. eexists view, _. split; [reflexivity|].
  cbn [state param disk]. do 5 (split; [reflexivity|]).
  intros ticks rnd' now' Hticks.
  set (g' := mkGame GameOver
               (with_fieldForFront ff
                  (with_currentPiece (promoted (param g)) (param g)))
               (disk g)).
  assert (ended (score (game_info (param g))) (field (game_info (param g)))
            (addHighScore (score (game_info (param g))) (disk g)).2 g')
    as He by (by unfold ended).
  destruct (ended_ticks _ _ _ ticks Hf Hticks g' He) as (g1 & Hrun & He1).
  destruct (ended_tick _ _ _ g1 rnd' now' Hf He1)
    as (view' & g'' & Ht & Hpv & Hd & (Hst2 & _ & _ & _ & Hs2 & Hf2 & _)).
  exists g1, view', g''. split; [exact Hrun|]. split; [exact Ht|].
  split; [exact Hst2|]. split; [exact Hpv|]. split; [|by split].
  unfold updateCurrentState in Ht.
  apply bind_Done in Ht as (h1 & H1 & Ht).
  apply bind_Done in Ht as ([v p'] & Hc' & [= _ <-]).
  apply createGameInfo_frame in Hc' as (Hgi & _).
  cbn [param]. rewrite Hgi. clear Hgi.
  destruct He1 as (Hst1 & Hstart1 & Hp1 & _).
  rewrite Hstart1, Hst1 in H1.
  destruct (Z.eqb_spec (pause (game_info (param g1))) 1); [done|].
  cbn [negb orb] in H1. by inversion H1.
Qed.

Lemma concrete_grid_ok rows cols (g : Grid) :
  (length g =? Z.to_nat rows)%nat
  && forallb (fun r => (length r =? Z.to_nat cols)%nat) g = true ->
  grid_ok rows cols g.
Proof.
  intros H. apply andb_prop in H as [Hl Hr]. split.
  - by apply Nat.eqb_eq.
  - apply Forall_forall. intros r Hin.
    rewrite forallb_forall in Hr. apply Nat.eqb_eq, Hr.
    by apply list_elem_of_In.
Qed.

Lemma blocked_spawn_ends_game_witness :
  run tower (boot empty_disk) = Done tower_state /\
  exists view g',
    updateCurrentState 1 t0 tower_state = Done (view, g') /\
    state g' = GameOver.
Proof.
  split; [vm_compute; reflexivity|].
  destruct (blocked_spawn_ends_game 1 t0 tower_state)
    as (view & g' & Htick & Hover & _).
  - vm_compute. reflexivity.
  - vm_compute. reflexivity.
  - vm_compute. discriminate.
  - apply concrete_grid_ok. vm_compute. reflexivity.
  - apply concrete_grid_ok. vm_compute. reflexivity.
  - apply concrete_grid_ok. vm_compute. reflexivity.
  - intros Hpl.
    apply (canPlacePiece_placed _ false) in Hpl; [discriminate|].
    vm_compute. reflexivity.
  - exists view, g'. split; [exact Htick|exact Hover].
Defined.

(** ** The hard-drop loop *)



(** ** The bounding box and the rotation *)

Lemma findMinXY_fold (sh : Shape) l :
  forall mx0 my0,
    let r := fold_left
               (fun '(minX, minY) '(i, j) =>
                  if cell_of sh i j =? 0 then (minX, minY)
                  else ((if j <? minX then j else minX),
                        (if i <? minY then i else minY)))
               l (mx0, my0) in
    r.1 <= mx0 /\ r.2 <= my0 /\
    (forall i j, (i, j) ∈ l -> cell_of sh i j <> 0 -> r.1 <= j /\ r.2 <= i) /\
    (r.1 = mx0 \/ exists i, (i, r.1) ∈ l /\ cell_of sh i r.1 <> 0) /\
    (r.2 = my0 \/ exists j, (r.2, j) ∈ l /\ cell_of sh r.2 j <> 0).
Proof.
  induction l as [|[i j] l IH]; intros mx0 my0; cbn [fold_left].
  - cbn [fst snd]. split; [lia|]. split; [lia|]. split; [|by split; left].
    intros i0 j0 Hin. by apply elem_of_nil in Hin.
  - destruct (Z.eqb_spec (cell_of sh i j) 0) as [Hc|Hc].
    + specialize (IH mx0 my0). cbv zeta in *.
      destruct IH as (H1 & H2 & H3 & H4 & H5).
      split; [done|]. split; [done|]. split; [|split].
      * intros i0 j0 Hin Hc0.
        apply elem_of_cons in Hin as [[= -> ->]|Hin]; [done|by apply H3].
      * destruct H4 as [|(i0 & Hin & Hc0)]; [by left|right].
        exists i0. split; [by right|done].
      * destruct H5 as [|(j0 & Hin & Hc0)]; [by left|right].
        exists j0. split; [by right|done].
    + specialize (IH (if j <? mx0 then j else mx0)
                     (if i <? my0 then i else my0)).
      cbv zeta in *. destruct IH as (H1 & H2 & H3 & H4 & H5).
      destruct (Z.ltb_spec j mx0), (Z.ltb_spec i my0);
        (split; [lia|]); (split; [lia|]); (split; [|split]);
        try (intros i0 j0 Hin Hc0;
             apply elem_of_cons in Hin as [[= -> ->]|Hin];
             [lia|by apply H3]);
        try (destruct H4 as [->|(i0 & Hin & Hc0)];
             [first [by left | right; exists i; split; [by left|done]]
             |right; exists i0; split; [by right|done]]);
        try (destruct H5 as [->|(j0 & Hin & Hc0)];
             [first [by left | right; exists j; split; [by left|done]]
             |right; exists j0; split; [by right|done]]).
Qed.

(** [findMinXY] returns the corner of the bounding box: no occupied cell
    is left of [minX] or above [minY], column [minX] and row [minY] have
    an occupied cell each; for a template without occupied cell both
    are [BLOCK]. *)
Theorem findMinXY_corner (sh : Shape) :
  let minX := (findMinXY sh).1 in
  let minY := (findMinXY sh).2 in
  (forall i j, (i, j) ∈ block_cells -> cell_of sh i j <> 0 ->
     minX <= j /\ minY <= i) /\
  (has_cell sh ->
   (exists i, (i, minX) ∈ block_cells /\ cell_of sh i minX <> 0) /\
   (exists j, (minY, j) ∈ block_cells /\ cell_of sh minY j <> 0)) /\
  (~ has_cell sh -> minX = BLOCK /\ minY = BLOCK).
Proof.
  pose proof (findMinXY_fold sh block_cells BLOCK BLOCK) as H.
  cbv zeta in *. fold (findMinXY sh) in H.
  destruct H as (H1 & H2 & H3 & H4 & H5).
  split; [exact H3|]. split.
  - intros (i & j & Hij & Hc).
    destruct (H3 i j Hij Hc) as [Hx Hy].
    apply block_cells_range in Hij as [Hi Hj].
    split.
    + destruct H4 as [H4|H4]; [lia|done].
    + destruct H5 as [H5|H5]; [lia|done].
  - intros Hno. split.
    + destruct H4 as [H4|(i & Hin & Hc)]; [done|].
      destruct Hno. by exists i, (findMinXY sh).1.
    + destruct H5 as [H5|(j & Hin & Hc)]; [done|].
      destruct Hno. by exists (findMinXY sh).2, j.
Qed.

Lemma findMinXY_corner_witness :
  (exists i, (i, (findMinXY (turned i_piece)).1) ∈ block_cells /\
     cell_of (turned i_piece) i (findMinXY (turned i_piece)).1 <> 0) /\
  findMinXY (turned i_piece) = (2, 0).
Proof.
  destruct (findMinXY_corner (turned i_piece)) as (_ & Hhas & _).
  split; [|reflexivity]. apply Hhas.
  exists 0, 2. split; [by_in_cells|vm_compute; discriminate].
Defined.

(** A rotation that succeeds on a piece other than the O-piece turns the
    template a quarter clockwise (the cell in row [i], column [j] goes
    to row [j], column [BLOCK - 1 - i]), advances the rotation counter modulo
    4, keeps the type and everything but the piece, and leaves the piece
    legally placed with the corner of its bounding box where it was, but
    for the I-piece, whose corner moves by its nudge: one column right
    and one row up at an even counter, the opposite at an odd one. *)
Theorem rotation_keeps_anchor (p p' : Params_t) :
  rotatePiece p = Done (true, p') ->
  type (currentPiece p) <> 1 ->
  let c := currentPiece p in
  let c' := currentPiece p' in
  (forall i j, (i, j) ∈ block_cells ->
     (j, BLOCK - 1 - i) ∈ block_cells /\
     cell_of (shape c') j (BLOCK - 1 - i) = cell_of (shape c) i j) /\
  type c' = type c /\
  rotation c' = Z.rem (rotation c + 1) 4 /\
  placed p' /\ same_board p p' /\
  posX c' + (findMinXY (shape c')).1
  = posX c + (findMinXY (shape c)).1 + (nudge c).1 /\
  posY c' + (findMinXY (shape c')).2
  = posY c + (findMinXY (shape c)).2 + (nudge c).2 /\
  (type c <> 0 -> nudge c = (0, 0)).
Proof.
  intros H Ht.
  pose proof (rotatePiece_frame _ _ _ H) as Hframe.
  apply rotatePiece_success in H as [[? _]|(_ & Hp' & Hpl)]; [done|].
  cbv zeta. subst p'.
  cbn [currentPiece with_currentPiece shape posX posY type rotation] in *.
  split; [intros i j Hij; by apply turned_cell|].
  split; [done|]. split; [done|]. split; [done|].
  split; [done|]. split; [lia|]. split; [lia|].
  intros Ht0. unfold nudge, nudge_of.
  by destruct (Z.eqb_spec (type (currentPiece p)) 0).
Qed.

Lemma rotation_keeps_anchor_witness :
  let p := lone (mkPiece i_piece 3 5 0 0) in
  let p' := lone (mkPiece ((0, 0, 1, 0), (0, 0, 1, 0), (0, 0, 1, 0),
                           (0, 0, 1, 0)) 2 5 0 1) in
  rotatePiece p = Done (true, p') /\
  cell_of (shape (currentPiece p')) 3 (BLOCK - 1 - 1) = 1 /\
  2 + 2 = 3 + 0 + 1 /\ 5 + 0 = 5 + 1 + -1.
Proof.
  intros p p'.
  assert (rotatePiece p = Done (true, p')) as Hrun
    by (vm_compute; reflexivity).
  destruct (rotation_keeps_anchor p p' Hrun)
    as (Hcells & _ & _ & _ & _ & Hx & Hy & _); [discriminate|].
  split; [exact Hrun|].
  split; [|split; [exact Hx|exact Hy]].
  destruct (Hcells 1 3) as [_ Hc]; [by_in_cells|]. exact Hc.
Defined.

(** * Cell values, the preview and the shape of the falling piece *)

Lemma colours_initMatrix r c : colours_ok (initMatrix r c).
Proof.
  unfold colours_ok, initMatrix. apply Forall_replicate, Forall_replicate. lia.
Qed.

Lemma colours_row g (n : nat) row :
  colours_ok g -> g !! n = Some row -> Forall (fun v => 0 <= v <= 7) row.
Proof.
  unfold colours_ok. intros Hg Hrow. rewrite Forall_forall in Hg.
  apply Hg. by eapply list_elem_of_lookup_2.
Qed.

Lemma poke_colours g y x v g' :
  poke g y x v = Done g' -> colours_ok g -> 0 <= v <= 7 -> colours_ok g'.
Proof.
  unfold poke. intros H Hg Hv.
  destruct (_ || _); [done|].
  destruct (g !! Z.to_nat y) as [row|] eqn:Hrow; [|done].
  destruct (decide _); [|done]. inversion H; subst.
  apply Forall_insert; [done|]. apply Forall_insert; [|done].
  by eapply colours_row.
Qed.

Lemma peek_colours g y x v :
  colours_ok g -> peek g y x = Done v -> 0 <= v <= 7.
Proof.
  unfold peek. intros Hg H.
  destruct (_ || _); [done|].
  destruct (g !! Z.to_nat y) as [row|] eqn:Hrow; [|done].
  destruct (row !! Z.to_nat x) as [w|] eqn:Hw; [|done].
  inversion H; subst.
  pose proof (colours_row _ _ _ Hg Hrow) as Hr. rewrite Forall_forall in Hr.
  apply Hr. by eapply list_elem_of_lookup_2.
Qed.

Lemma compacted_colours f : colours_ok f -> colours_ok (compacted f).
Proof.
  unfold colours_ok, compacted, kept_rows, zero_row. intros Hf.
  apply Forall_app_2.
  - apply Forall_replicate, Forall_replicate. lia.
  - apply Forall_forall. intros r Hr.
    apply list_elem_of_filter in Hr as [_ Hr].
    rewrite Forall_forall in Hf. by apply Hf.
Qed.

(** The loop of [fixFigure] and of [overlayCurrentPiece]. *)
Lemma paint_colours (c : Piece) l g g' :
  for_each l (fun '(i, j) g =>
    if cell_of (shape c) i j =? 0 then Done g
    else
      let x := posX c + j in
      let y := posY c + i in
      if (x >=? 0) && (x <? FIELD_WIDTH) && (y >=? 0) && (y <? FIELD_HEIGHT)
      then poke g y x (type c + 1)
      else Done g) g = Done g' ->
  0 <= type c <= 6 -> colours_ok g -> colours_ok g'.
Proof.
  intros H Ht Hg.
  eapply (for_each_Done_inv colours_ok); [exact H|exact Hg|].
  intros [i j] s s' _ Hb Hs. cbv zeta in Hb.
  destruct (_ =? 0); [by inversion Hb; subst|].
  destruct (_ && _); [|by inversion Hb; subst].
  eapply poke_colours; [exact Hb|done|lia].
Qed.

Lemma copy_colours (src : Grid) l g g' :
  for_each l (fun '(i, j) g => let* v := peek src i j in poke g i j v) g
  = Done g' ->
  colours_ok src -> colours_ok g -> colours_ok g'.
Proof.
  intros H Hs Hg.
  eapply (for_each_Done_inv colours_ok); [exact H|exact Hg|].
  intros [i j] s s' _ Hb Hc.
  apply bind_Done in Hb as (v & Hv & Hb).
  eapply poke_colours; [exact Hb|done|].
  exact (peek_colours _ _ _ _ Hs Hv).
Qed.

Lemma createGameInfo_colours p rc view p' :
  createGameInfo p rc = Done (view, p') ->
  colours_ok (field (game_info p)) -> colours_ok (next (game_info p)) ->
  colours_ok (fieldForFront p) -> 0 <= type (currentPiece p) <= 6 ->
  colours_ok (fieldForFront p') /\ colours_ok (field view) /\
  colours_ok (next view).
Proof.
  unfold createGameInfo. intros H Hf Hn Hff Ht.
  destruct rc; cbn [negb] in H.
  - apply bind_Done in H as (g1 & Hcopy & H).
    apply bind_Done in H as (p1 & Hov & [= <- <-]).
    unfold overlayCurrentPiece in Hov.
    apply bind_Done in Hov as (g2 & Hpaint & [= <-]).
    fields.
    apply copy_colours in Hcopy; [|done..].
    apply paint_colours in Hpaint; [|done..].
    done.
  - by inversion H; subst.
Qed.

Lemma drawNextPiece_tidy rnd p p' :
  drawNextPiece rnd p = Done p' ->
  colours_ok (next (game_info p)) ->
  colours_ok (next (game_info p')) /\ drawn (nextPiece p') /\
  shows (next (game_info p')) (nextPiece p') /\
  type (nextPiece p') = Z.rem (Z.of_nat rnd) 7 /\
  field (game_info p') = field (game_info p) /\
  fieldForFront p' = fieldForFront p /\ currentPiece p' = currentPiece p.
Proof.
  unfold drawNextPiece. intros H Hn.
  assert (0 <= Z.rem (Z.of_nat rnd) 7 < 7) as Hidx
    by (Z.to_euclidean_division_equations; lia).
  destruct (pieces !! _) as [t|] eqn:Ht; [|done].
  cbv zeta in H. rewrite !copyPieceShape_eq in H.
  apply bind_Done in H as (g & Hloop & [= <-]).
  fields. split; [|split; [|split]]; [| |intros i j Hij|done].
  - eapply (for_each_Done_inv colours_ok); [exact Hloop|exact Hn|].
    intros [i j] s s' _ Hb Hs.
    eapply poke_colours; [exact Hb|done|].
    destruct (_ =? 0); lia.
  - unfold drawn. fields. by repeat split; try lia.
  - rewrite (write_loop
               (fun i j => if cell_of t i j =? 0 then 0
                           else Z.rem (Z.of_nat rnd) 7 + 1) _ _ _ Hloop).
    by destruct (decide _).
Qed.

Ltac tidy_split :=
  split; [|split; [|split; [|split; [|split; [|split]]]]].

Lemma updateInfo_rest p k :
  field (game_info (updateInfo p k)) = field (game_info p) /\
  next (game_info (updateInfo p k)) = next (game_info p) /\
  currentPiece (updateInfo p k) = currentPiece p /\
  nextPiece (updateInfo p k) = nextPiece p /\
  fieldForFront (updateInfo p k) = fieldForFront p.
Proof.
  unfold updateInfo. cbv zeta.
  cbn [game_info with_game_info currentPiece nextPiece fieldForFront].
  repeat match goal with
         | |- context [if ?c then _ else _] => destruct c
         end; done.
Qed.

Lemma drawn_type c : drawn c -> 0 <= type c <= 6.
Proof.
  intros (H0 & Hlk & _). apply lookup_lt_Some in Hlk.
  change (length pieces) with 7%nat in Hlk. lia.
Qed.

Lemma tetromino_same c c' :
  shape c' = shape c -> type c' = type c -> rotation c' = rotation c ->
  tetromino c -> tetromino c'.
Proof. unfold tetromino. by intros -> -> ->. Qed.

Lemma tetromino_turned c x y :
  tetromino c ->
  tetromino (mkPiece (turned (shape c)) x y (type c)
               (Z.rem (rotation c + 1) 4)).
Proof.
  intros (Ht & Hr & t & Hlk & Hsh). unfold tetromino.
  cbn [shape type rotation]. split; [done|].
  assert (rotation c = 0 \/ rotation c = 1 \/ rotation c = 2
          \/ rotation c = 3) as [E|[E|[E|E]]] by lia;
    rewrite E in *; (split; [by vm_compute|]); exists t; (split; [done|]);
    rewrite Hsh; [reflexivity..|].
  change (Z.to_nat ((3 + 1) `rem` 4)) with 0%nat.
  change (Z.to_nat 3) with 3%nat. cbn [Nat.iter nat_rect].
  apply turned_four.
Qed.

Lemma drawn_promoted c sh :
  drawn c -> tetromino (mkPiece (copyPieceShape sh (shape c)) 3 0 (type c) 0).
Proof.
  intros (H0 & Hlk & _). unfold tetromino. cbn [shape type rotation].
  rewrite copyPieceShape_eq.
  split; [done|]. split; [lia|]. by exists (shape c).
Qed.

Lemma userInput_tetromino a hold g g' :
  userInput a hold g = Done g' ->
  (in_play (state g) -> tetromino (currentPiece (param g))) ->
  in_play (state g') -> tetromino (currentPiece (param g')).
Proof.
  unfold userInput. intros H Hpre Hplay.
  destruct hold; cbn [negb] in H.
  - destruct (_ && _); [|inversion H; subst; by apply Hpre].
    apply bind_Done in H as (p' & Hd & [= <-]).
    apply hardDrop_Done in Hd as (k & -> & _).
    apply (tetromino_same (currentPiece (param g))); [reflexivity..|].
    by apply Hpre.
  - destruct a.
    + destruct (_ || _); inversion H; subst; [|by apply Hpre].
      by destruct (not_in_play_Spawn Hplay).
    + destruct (state g) eqn:Hst; cbn [Status_game_eqb] in H;
        inversion H; subst; try (apply Hpre; by rewrite <- Hst).
      * apply Hpre. by left.
      * apply Hpre. right; right; by left.
    + inversion H; subst. by destruct (not_in_play_GameOver Hplay).
    + destruct (_ && _); [|inversion H; subst; by apply Hpre].
      apply bind_Done in H as ([r p'] & Hmv & [= <-]).
      destruct (moveFigureLeft_spec _ _ _ Hmv) as [_ ->].
      destruct r; [|by apply Hpre].
      apply (tetromino_same (currentPiece (param g))); [reflexivity..|].
      by apply Hpre.
    + destruct (_ && _); [|inversion H; subst; by apply Hpre].
      apply bind_Done in H as ([r p'] & Hmv & [= <-]).
      destruct (moveFigureRight_spec _ _ _ Hmv) as [_ ->].
      destruct r; [|by apply Hpre].
      apply (tetromino_same (currentPiece (param g))); [reflexivity..|].
      by apply Hpre.
    + inversion H; subst; by apply Hpre.
    + inversion H; subst; by apply Hpre.
    + destruct (_ && _); [|inversion H; subst; by apply Hpre].
      apply bind_Done in H as ([r p'] & Hrot & [= <-]).
      cbn [state param] in *. destruct r.
      * apply rotatePiece_success in Hrot as [[_ ->]|(_ & -> & _)];
          [by apply Hpre|].
        cbn [currentPiece with_currentPiece].
        apply tetromino_turned. by apply Hpre.
      * apply rotatePiece_failure in Hrot as ->. by apply Hpre.
Qed.

Lemma initGame_tidy rnd g g' :
  initGame rnd g = Done g' -> 0 <= type (currentPiece (param g)) <= 6 ->
  tidy g'.
Proof.
  unfold initGame, spawnNewPiece. intros H Ht.
  apply bind_Done in H as ([r p] & H & [= <-]).
  apply bind_Done in H as (p1 & Hdraw & [= _ <-]).
  apply drawNextPiece_tidy in Hdraw as (Hn & Hd & Hsh & _ & Hf & Hff & Hc);
    [|apply colours_initMatrix].
  unfold tidy. cbn [param state]. rewrite Hf, Hff, Hc. fields.
  tidy_split; try done; try apply colours_initMatrix.
  intros Hq; by destruct (not_in_play_Start_t Hq).
Qed.

Lemma spawnNewPiece_tidy rnd p r p' :
  spawnNewPiece rnd p false = Done (r, p') ->
  colours_ok (next (game_info p)) -> drawn (nextPiece p) ->
  shows (next (game_info p)) (nextPiece p) ->
  field (game_info p') = field (game_info p) /\
  fieldForFront p' = fieldForFront p /\
  currentPiece p' = promoted p /\
  colours_ok (next (game_info p')) /\ drawn (nextPiece p') /\
  shows (next (game_info p')) (nextPiece p').
Proof.
  unfold spawnNewPiece. cbn [negb]. rewrite copyPieceShape_eq.
  change (mkPiece _ (FIELD_WIDTH ÷ 2 - BLOCK ÷ 2) 0 _ 0) with (promoted p).
  intros H Hn Hd Hsh.
  apply bind_Done in H as (ok & _ & H). destruct ok.
  - apply bind_Done in H as (q & Hq & [= <- <-]).
    apply drawNextPiece_tidy in Hq
      as (Hn' & Hd' & Hsh' & _ & Hf' & Hff' & Hc'); [|done].
    split; [exact Hf'|]. split; [exact Hff'|]. split; [exact Hc'|].
    split; [exact Hn'|]. split; [exact Hd'|exact Hsh'].
  - inversion H; subst.
    split; [reflexivity|]. split; [reflexivity|]. split; [reflexivity|].
    split; [exact Hn|]. split; [exact Hd|exact Hsh].
Qed.

Lemma fixFigure_colours p f :
  fixFigure p = Done (set_field f p) ->
  colours_ok (field (game_info p)) -> 0 <= type (currentPiece p) <= 6 ->
  colours_ok f.
Proof.
  unfold fixFigure. intros H Hc Ht.
  apply bind_Done in H as (f' & Hpaint & Heq).
  assert (f' = f) as -> by (by inversion Heq).
  by apply paint_colours in Hpaint.
Qed.

Lemma bonus_points k :
  k <> 0 ->
  match k with 1 => 100 | 2 => 300 | 3 => 700 | 4 => 1500 | _ => 1500 end
  = bonus k.
Proof.
  intros Hk. destruct k as [|q|q]; [done| |done].
  by destruct q as [[[q|q|]|[q|q|]|]|[[q|q|]|[q|q|]|]|].
Qed.

Lemma bonus_bounds k : 0 <= bonus k <= 1500.
Proof.
  destruct k as [|q|q]; [done| |done].
  by destruct q as [[[q|q|]|[q|q|]|]|[[q|q|]|[q|q|]|]|].
Qed.

Lemma updateCurrentGameInfo_rest p p' :
  grid_ok FIELD_HEIGHT FIELD_WIDTH (field (game_info p)) ->
  updateCurrentGameInfo p = Done p' ->
  field (game_info p') = compacted (field (game_info p)) /\
  next (game_info p') = next (game_info p) /\
  currentPiece p' = currentPiece p /\ nextPiece p' = nextPiece p /\
  fieldForFront p' = fieldForFront p /\
  score (game_info p')
  = (if full_rows (field (game_info p)) =? 0 then score (game_info p)
     else int_of (score (game_info p)
                  + bonus (full_rows (field (game_info p))))).
Proof.
  intros Hg. rewrite (updateCurrentGameInfo_exact p Hg). cbv zeta.
  intros [= <-]. destruct (Z.eqb_spec (full_rows (field (game_info p))) 0)
    as [E|E].
  - by cbn.
  - match goal with
    | |- context [updateInfo ?q ?k] =>
        destruct (updateInfo_rest q k) as (E1 & E2 & E3 & E4 & E5);
          rewrite E1, E2, E3, E4, E5, (updateInfo_score q k),
            (bonus_points k E)
    end.
    by cbn.
Qed.

Lemma updateCurrentState_tidy rnd now g view g' :
  sound g -> tidy g ->
  updateCurrentState rnd now g = Done (view, g') ->
  tidy g' /\ colours_ok (field view) /\ colours_ok (next view).
Proof.
  intros Hs Htidy H.
  pose proof Hs as (Hf & _).
  pose proof Htidy as (Hcf & Hcn & Hcff & Hd & Hsh & Ht & Hp).
  unfold updateCurrentState in H.
  apply bind_Done in H as (g1 & H1 & H).
  apply bind_Done in H as ([v p'] & Hc & [= <- <-]).
  assert (tidy g1) as (Hcf1 & Hcn1 & Hcff1 & Hd1 & Hsh1 & Ht1 & Hp1).
  { destruct (negb _); [|by inversion H1; subst].
    destruct (state g) eqn:Hst.
    - destruct (start (param g)); inversion H1; subst; [|done].
      unfold tidy. fields. tidy_split; try done;
        try (intros Hq; by destruct (not_in_play_Spawn Hq)).
    - apply bind_Done in H1 as ([ok p1] & Hsp & H1).
      apply spawnNewPiece_tidy in Hsp
        as (Hf' & Hff' & Hc' & Hn' & Hd' & Hsh'); [|done..].
      pose proof (drawn_type _ Hd) as Htn.
      assert (tetromino (promoted (param g))) as Hnew.
      { destruct Hd as (H0 & Hlk & _). unfold tetromino, promoted.
        cbn [shape type rotation]. split; [done|]. split; [lia|].
        by exists (shape (nextPiece (param g))). }
      destruct ok; inversion H1; subst; unfold tidy; cbn [param state];
        rewrite Hf', Hff', Hc'; by tidy_split.
    - unfold getTime in H1. destruct (_ >=? _); inversion H1; subst;
        unfold tidy; fields; tidy_split; try done;
        intros _; apply Hp; by left.
    - apply bind_Done in H1 as ([moved p1] & Hmv & H1).
      destruct (moveFigureDown_spec _ _ _ Hmv) as [_ ->].
      assert (tetromino (currentPiece (param g))) as Hcur
        by (apply Hp; right; by left).
      destruct moved; inversion H1; subst; unfold tidy; fields;
        tidy_split; try done; intros _; done.
    - by inversion H1; subst.
    - apply bind_Done in H1 as (p1 & Hfix1 & H1).
      apply bind_Done in H1 as (p2 & Hup & [= <-]).
      destruct (fixFigure_defined (param g) Hf) as (f1 & Hfix & Hf1).
      assert (p1 = set_field f1 (param g)) as -> by congruence.
      pose proof (fixFigure_colours _ _ Hfix Hcf Ht) as Hc1.
      destruct (updateCurrentGameInfo_rest (set_field f1 (param g)) _ Hf1 Hup)
        as (E1 & E2 & E3 & E4 & E5 & _).
      unfold tidy. cbn [param state]. rewrite E1, E2, E3, E4, E5. fields.
      tidy_split; try done; [by apply compacted_colours|].
      intros Hq; by destruct (not_in_play_Spawn Hq).
    - inversion H1; subst. unfold tidy. fields. tidy_split; try done;
        try (intros Hq; by destruct (not_in_play_Terminate_t Hq)).
    - inversion H1; subst. unfold tidy. fields. tidy_split; try done;
        try (intros Hq; by destruct (not_in_play_GameOver Hq)). }
  destruct (createGameInfo_frame _ _ _ _ Hc) as (Hgi & Hcur & Hnx & _).
  destruct (createGameInfo_colours _ _ _ _ Hc) as (Hff' & Hv1 & Hv2);
    [done..|].
  split; [|done]. unfold tidy. cbn [param state]. rewrite Hgi, Hcur, Hnx.
  by tidy_split.
Qed.

Lemma reachable_tidy g : reachable g -> tidy g.
Proof.
  induction 1 as [d rnd g Hi|c g g' Hr IH Hstep].
  - eapply initGame_tidy; [exact Hi|]. cbn. lia.
  - pose proof (reachable_sound _ Hr) as Hs.
    pose proof IH as (Hcf & Hcn & Hcff & Hd & Hsh & Ht & Hp).
    destruct c; cbn [step] in Hstep.
    + eapply initGame_tidy; [exact Hstep|done].
    + destruct (userInput_frame _ _ _ _ Hstep)
        as (E1 & E2 & _ & _ & _ & _ & E7 & E8 & _ & E10).
      unfold tidy. rewrite E1, E2, E7, E8, E10.
      tidy_split; try done. by eapply userInput_tetromino.
    + apply bind_Done in Hstep as ([v g1] & Hu & [= <-]).
      by destruct (updateCurrentState_tidy _ _ _ _ _ Hs IH Hu).
Qed.

Lemma tetromino_four c : tetromino c -> occupied (shape c) = 4%nat.
Proof.
  intros (Ht & Hr & t & Hlk & ->).
  pose proof (lookup_lt_Some _ _ _ Hlk) as Hlt.
  change (length pieces) with 7%nat in Hlt.
  assert (type c = 0 \/ type c = 1 \/ type c = 2 \/ type c = 3 \/
          type c = 4 \/ type c = 5 \/ type c = 6)
    as [E|[E|[E|[E|[E|[E|E]]]]]] by lia;
    rewrite E in Hlk; vm_compute in Hlk; inversion Hlk; subst t;
    (assert (rotation c = 0 \/ rotation c = 1 \/ rotation c = 2
             \/ rotation c = 3) as [R|[R|[R|R]]] by lia);
    rewrite R; vm_compute; reflexivity.
Qed.

(** ** Colours *)

(** In every reachable state each cell of the field and of the preview
    matrix holds 0 or a colour from 1 to 7, and so does each cell of the
    field and the preview of the view that a tick returns. *)
Theorem cells_hold_colours (g : Game) :
  reachable g ->
  colours_ok (field (game_info (param g))) /\
  colours_ok (next (game_info (param g))) /\
  forall rnd now view g',
    updateCurrentState rnd now g = Done (view, g') ->
    colours_ok (field view) /\ colours_ok (next view).
Proof.
  intros Hr. pose proof (reachable_tidy _ Hr) as Ht.
  pose proof (reachable_sound _ Hr) as Hs.
  split; [apply Ht|]. split; [apply Ht|].
  intros rnd now view g' Hu.
  by destruct (updateCurrentState_tidy _ _ _ _ _ Hs Ht Hu) as (_ & ? & ?).
Qed.

Lemma cells_hold_colours_witness :
  colours_ok (field (game_info (param o_game_state))) /\
  colours_ok (next (game_info (param o_game_state))).
Proof.
  destruct (cells_hold_colours o_game_state) as (H1 & H2 & _).
  - apply (reachable_boot empty_disk 1 (tail o_game_calls)).
    vm_compute. reflexivity.
  - split; [exact H1|exact H2].
Defined.

(** ** The preview *)

(** In every reachable state the next piece is the template of the
    catalogue that its type names, at position (3, 0) with rotation 0,
    and the preview matrix shows exactly this piece: [type + 1] on its
    occupied cells and 0 elsewhere. *)
Theorem preview_shows_next_piece (g : Game) :
  reachable g ->
  drawn (nextPiece (param g)) /\
  shows (next (game_info (param g))) (nextPiece (param g)).
Proof.
  intros Hr. pose proof (reachable_tidy _ Hr) as (_ & _ & _ & Hd & Hsh & _).
  by split.
Qed.

Lemma preview_shows_next_piece_witness :
  drawn (nextPiece (param o_game_state)) /\
  peek (next (game_info (param o_game_state))) 1 1 = Done 2.
Proof.
  destruct (preview_shows_next_piece o_game_state) as (Hd & Hsh).
  - apply (reachable_boot empty_disk 1 (tail o_game_calls)).
    vm_compute. reflexivity.
  - split; [exact Hd|]. apply (Hsh 1 1). by_in_cells.
Defined.

(** ** The falling piece *)

(** In every reachable state with a piece in play, the current piece is
    one of the seven templates of the catalogue (the one its type names)
    turned as many quarter turns as its rotation counter says, the
    counter is between 0 and 3, and the shape has exactly four occupied
    cells. *)
Theorem falling_piece_is_tetromino (g : Game) :
  reachable g -> in_play (state g) ->
  tetromino (currentPiece (param g)) /\
  0 <= type (currentPiece (param g)) <= 6 /\
  occupied (shape (currentPiece (param g))) = 4%nat.
Proof.
  intros Hr Hplay.
  pose proof (reachable_tidy _ Hr) as (_ & _ & _ & _ & _ & Ht & Hp).
  split; [by apply Hp|]. split; [done|]. by apply tetromino_four, Hp.
Qed.

Lemma falling_piece_is_tetromino_witness :
  state o_game_state = Moving /\
  occupied (shape (currentPiece (param o_game_state))) = 4%nat.
Proof.
  split; [vm_compute; reflexivity|].
  apply (falling_piece_is_tetromino o_game_state).
  - apply (reachable_boot empty_disk 1 (tail o_game_calls)).
    vm_compute. reflexivity.
  - left. vm_compute. reflexivity.
Defined.

(** * Moves, gravity and the life cycle of a game *)

Lemma fits_weaken (b1 b2 : Z -> Z -> Prop) sh px py f :
  (forall x y, b1 x y -> b2 x y) -> fits b1 sh px py f -> fits b2 sh px py f.
Proof.
  intros Hb H i j Hij Hc. destruct (H i j Hij Hc) as [H1 H2].
  split; [by apply Hb|done].
Qed.

Lemma concrete_placed p : canPlacePiece p = Done true -> placed p.
Proof. intros H. by apply (canPlacePiece_placed p true H). Qed.

Lemma working_tick g :
  start (param g) = true -> pause (game_info (param g)) <> 1 ->
  negb ((pause (game_info (param g)) =? 1) || negb (start (param g))) = true.
Proof.
  intros -> Hp. by destruct (Z.eqb_spec (pause (game_info (param g))) 1).
Qed.

(** ** Left and right *)

(** On a piece that is legally placed, a successful move to the left is
    undone by a move to the right, which then always succeeds, and the
    other way round: the parameters are exactly those before the two
    moves. *)
Theorem left_right_round_trip (p p1 : Params_t) :
  grid_ok FIELD_HEIGHT FIELD_WIDTH (field (game_info p)) ->
  placed p ->
  (moveFigureLeft p = Done (true, p1) -> moveFigureRight p1 = Done (true, p))
  /\
  (moveFigureRight p = Done (true, p1) -> moveFigureLeft p1 = Done (true, p)).
Proof.
  intros Hg Hpl. split; intros Hmv.
  - pose proof (moveFigureLeft_placed _ _ _ Hmv Hpl) as Hpl1.
    destruct (moveFigureLeft_spec _ _ _ Hmv) as [_ E]. cbn in E. subst p1.
    destruct (moves_defined (shifted (-1) 0 p) Hg (placed_inside _ Hpl1))
      as (_ & [[r p2] Hr] & _).
    destruct (moveFigureRight_spec _ _ _ Hr) as [Hiff ->].
    assert (r = true) as ->.
    { apply Hiff. fields. rewrite Z.add_0_r.
      replace (posX (currentPiece p) + -1 + 1) with (posX (currentPiece p))
        by lia.
      eapply fits_weaken; [|exact Hpl].
      unfold on_board. intros; lia. }
    rewrite Hr, shifted_shifted. change (-1 + 1) with 0.
    change (0 + 0) with 0. by rewrite shifted_0.
  - pose proof (moveFigureRight_placed _ _ _ Hmv Hpl) as Hpl1.
    destruct (moveFigureRight_spec _ _ _ Hmv) as [_ E]. cbn in E. subst p1.
    destruct (moves_defined (shifted 1 0 p) Hg (placed_inside _ Hpl1))
      as ([[r p2] Hr] & _).
    destruct (moveFigureLeft_spec _ _ _ Hr) as [Hiff ->].
    assert (r = true) as ->.
    { apply Hiff. fields. rewrite Z.add_0_r.
      replace (posX (currentPiece p) + 1 - 1) with (posX (currentPiece p))
        by lia.
      eapply fits_weaken; [|exact Hpl].
      unfold on_board. intros; lia. }
    rewrite Hr, shifted_shifted. change (1 + -1) with 0.
    change (0 + 0) with 0. by rewrite shifted_0.
Qed.

Lemma left_right_round_trip_witness :
  let p := lone (mkPiece o_piece 3 0 1 0) in
  let p1 := lone (mkPiece o_piece 2 0 1 0) in
  moveFigureLeft p = Done (true, p1) /\ moveFigureRight p1 = Done (true, p).
Proof.
  intros p p1.
  assert (moveFigureLeft p = Done (true, p1)) as Hmv
    by (vm_compute; reflexivity).
  split; [exact Hmv|].
  apply (left_right_round_trip p p1).
  - apply grid_ok_initMatrix.
  - apply concrete_placed. vm_compute. reflexivity.
  - exact Hmv.
Defined.

(** ** Gravity *)

(** On readings of the clock no step of [getTime] leaves the range of
    [long]. *)
Lemma getTime_exact now p :
  clock_ok now -> clock_ok (drop_time p) ->
  getTime now p
  = if elapsed now p >=? speed (game_info p)
    then (true, with_drop_time now p) else (false, p).
Proof.
  intros [Hs Hn] [Hs' Hn']. unfold getTime, elapsed.
  assert (-999 <= (tv_nsec now - tv_nsec (drop_time p)) ÷ 1000000 <= 999)
    by (Z.to_euclidean_division_equations; lia).
  rewrite (long_of_id (tv_sec now - tv_sec (drop_time p))) by lia.
  rewrite (long_of_id (tv_nsec now - tv_nsec (drop_time p))) by lia.
  rewrite (long_of_id (_ * 1000)) by lia.
  by rewrite long_of_id by lia.
Qed.

(** A tick on a started, unpaused game in Moving, for readings of the
    clock on which the arithmetic of [getTime] stays within [long]:
    while the time since the start of the drop timer, in whole
    milliseconds, is below the speed, the tick changes neither the state
    nor the timer; once it has
    reached the speed the tick restarts the timer at the current time and
    moves to Shifting, and the tick after that moves the piece one row
    down and returns to Moving when the row below is free, and otherwise
    leaves the piece and moves to Attaching.  The game information is
    untouched by both ticks. *)
Theorem gravity (rnd rnd' : nat) (now now' : timespec) (g : Game) :
  state g = Moving ->
  start (param g) = true ->
  pause (game_info (param g)) <> 1 ->
  grid_ok FIELD_HEIGHT FIELD_WIDTH (field (game_info (param g))) ->
  grid_ok FIELD_HEIGHT FIELD_WIDTH (fieldForFront (param g)) ->
  placed (param g) ->
  clock_ok now -> clock_ok (drop_time (param g)) ->
  exists view g1,
    updateCurrentState rnd now g = Done (view, g1) /\
    game_info (param g1) = game_info (param g) /\
    currentPiece (param g1) = currentPiece (param g) /\
    (elapsed now (param g) < speed (game_info (param g)) ->
     state g1 = Moving /\ drop_time (param g1) = drop_time (param g)) /\
    (speed (game_info (param g)) <= elapsed now (param g) ->
     state g1 = Shifting /\ drop_time (param g1) = now /\
     exists view' g2,
       updateCurrentState rnd' now' g1 = Done (view', g2) /\
       game_info (param g2) = game_info (param g) /\
       drop_time (param g2) = now /\
       (can_fall (param g) ->
        state g2 = Moving /\
        currentPiece (param g2)
        = with_posY (posY (currentPiece (param g)) + 1)
            (currentPiece (param g)) /\
        placed (param g2)) /\
       (~ can_fall (param g) ->
        state g2 = Attaching /\
        currentPiece (param g2) = currentPiece (param g))).
Proof.
  intros Hst Hstart Hp Hf Hff Hpl Hnow Hdt.
  pose proof (working_tick g Hstart Hp) as Hrc.
  unfold updateCurrentState at 1.
  rewrite Hrc, Hst, (getTime_exact now (param g) Hnow Hdt).
  destruct (Z.geb_spec (elapsed now (param g)) (speed (game_info (param g))))
    as [Hdue|Hwait]; cbn [bind param state disk].
  - destruct (createGameInfo_defined (with_drop_time now (param g)) true
                Hf Hff) as (view & ff & -> & Hff1).
    cbn [bind]. eexists view, _. split; [reflexivity|].
    cbn [param state game_info currentPiece drop_time with_fieldForFront
         with_drop_time].
    split; [reflexivity|]. split; [reflexivity|]. split; [lia|].
    intros _. split; [reflexivity|]. split; [reflexivity|].
    set (p1 := with_fieldForFront ff (with_drop_time now (param g))).
    assert (placed p1) as Hpl1 by (by apply (placed_ext (param g))).
    destruct (moves_defined p1 Hf (placed_inside _ Hpl1))
      as (_ & _ & [[r p2] Hmv]).
    pose proof (moveFigureDown_placed _ _ _ Hmv Hpl1) as Hpl2.
    destruct (moveFigureDown_spec _ _ _ Hmv) as [Hiff E].
    unfold updateCurrentState.
    cbn [param state disk]. fold p1.
    assert (negb ((pause (game_info p1) =? 1) || negb (start p1)) = true)
      as -> by exact Hrc.
    rewrite Hmv. cbn [bind].
    assert (exists view' ff2,
              createGameInfo p2 true = Done (view', with_fieldForFront ff2 p2))
      as (view' & ff2 & Hc2).
    { destruct (createGameInfo_defined p2 true) as (v & f2 & Hv & _).
      - by destruct r; subst p2.
      - by destruct r; subst p2.
      - by exists v, f2. }
    destruct r; cbn [negb bind param state disk]; rewrite Hc2; cbn [bind];
      eexists view', _; (split; [reflexivity|]); subst p2;
      cbn [param state game_info currentPiece drop_time with_fieldForFront
           with_drop_time with_currentPiece shifted p1];
      (split; [reflexivity|]); (split; [reflexivity|]); split.
    + intros _. split; [reflexivity|]. split.
      * unfold with_posY. f_equal; lia.
      * revert Hpl2. by apply placed_ext.
    + intros Hn. destruct Hn. by apply Hiff.
    + intros Hfall. apply Hiff in Hfall. discriminate.
    + intros _. by split.
  - destruct (createGameInfo_defined (param g) true Hf Hff)
      as (view & ff & -> & Hff1).
    cbn [bind]. eexists view, _. split; [reflexivity|].
    cbn [param state game_info currentPiece drop_time with_fieldForFront].
    split; [reflexivity|]. split; [reflexivity|]. split; [|lia].
    intros _. by split.
Qed.

Lemma gravity_witness :
  exists view g1 view' g2,
    updateCurrentState 1 (mkTimespec 1 0) o_game_state = Done (view, g1) /\
    state g1 = Shifting /\
    updateCurrentState 1 (mkTimespec 1 0) g1 = Done (view', g2) /\
    state g2 = Moving /\ posY (currentPiece (param g2)) = 1.
Proof.
  destruct (gravity 1 1 (mkTimespec 1 0) (mkTimespec 1 0) o_game_state)
    as (view & g1 & Ht1 & _ & _ & _ & Hdue).
  - vm_compute. reflexivity.
  - vm_compute. reflexivity.
  - vm_compute. discriminate.
  - apply concrete_grid_ok. vm_compute. reflexivity.
  - apply concrete_grid_ok. vm_compute. reflexivity.
  - apply concrete_placed. vm_compute. reflexivity.
  - unfold clock_ok. cbn. lia.
  - unfold clock_ok. vm_compute. repeat split; discriminate.
  - destruct Hdue as (Hs1 & _ & view' & g2 & Ht2 & _ & _ & Hfall & _).
    { vm_compute. discriminate. }
    destruct Hfall as (Hs2 & Hc2 & _).
    { apply (proj1 (proj1 (moveFigureDown_spec (param o_game_state) true
               (shifted 0 1 (param o_game_state))
               ltac:(vm_compute; reflexivity))) eq_refl). }
    exists view, g1, view', g2.
    split; [exact Ht1|]. split; [exact Hs1|]. split; [exact Ht2|].
    split; [exact Hs2|]. rewrite Hc2. vm_compute. reflexivity.
Defined.

(** ** Initialisation *)

Lemma initGame_effect (rnd : nat) (g : Game) :
  exists g',
    initGame rnd g = Done g' /\
    state g' = Start_t /\ disk g' = disk g /\
    field (game_info (param g')) = initMatrix FIELD_HEIGHT FIELD_WIDTH /\
    fieldForFront (param g') = initMatrix FIELD_HEIGHT FIELD_WIDTH /\
    score (game_info (param g')) = 0 /\ level (game_info (param g')) = 1 /\
    speed (game_info (param g')) = 1000 /\ pause (game_info (param g')) = 0 /\
    high_score (game_info (param g')) = getHighScore (disk g) /\
    type (nextPiece (param g')) = Z.rem (Z.of_nat rnd) 7 /\
    drawn (nextPiece (param g')) /\
    shows (next (game_info (param g'))) (nextPiece (param g')) /\
    start (param g') = start (param g) /\
    currentPiece (param g') = currentPiece (param g) /\
    drop_time (param g') = drop_time (param g).
Proof.
  unfold initGame, spawnNewPiece.
  match goal with
  | |- context [drawNextPiece rnd ?q] =>
      destruct (drawNextPiece_done rnd q) as (p' & Hp' & _);
        [apply grid_ok_initMatrix|]
  end.
  rewrite Hp'. cbn [bind]. eexists. split; [reflexivity|].
  destruct (drawNextPiece_tidy _ _ _ Hp') as (_ & Hd & Hsh & Ht & _);
    [apply colours_initMatrix|].
  apply drawNextPiece_frame in Hp' as (np & gn & -> & _ & _).
  fields. by repeat (split; [done|]).
Qed.

(** [initGame] returns on every state, whatever it held: the field and
    the render buffer are empty, score 0, level 1, speed 1000, pause 0,
    the high score is the one of the file, the state machine is in
    Start_t, the next piece is template [rnd % 7] and the preview shows
    it.  The start flag, the current piece and the drop timer are not
    reset: they keep what they had. *)
Theorem initGame_resets (rnd : nat) (g : Game) :
  exists g',
    initGame rnd g = Done g' /\
    state g' = Start_t /\ disk g' = disk g /\
    field (game_info (param g')) = initMatrix FIELD_HEIGHT FIELD_WIDTH /\
    fieldForFront (param g') = initMatrix FIELD_HEIGHT FIELD_WIDTH /\
    score (game_info (param g')) = 0 /\ level (game_info (param g')) = 1 /\
    speed (game_info (param g')) = 1000 /\ pause (game_info (param g')) = 0 /\
    high_score (game_info (param g')) = getHighScore (disk g) /\
    type (nextPiece (param g')) = Z.rem (Z.of_nat rnd) 7 /\
    drawn (nextPiece (param g')) /\
    shows (next (game_info (param g'))) (nextPiece (param g')) /\
    start (param g') = start (param g) /\
    currentPiece (param g') = currentPiece (param g) /\
    drop_time (param g') = drop_time (param g).
Proof. apply initGame_effect. Qed.

(** ** The end of a game *)

Lemma blocked_tick rnd now g :
  state g = Spawn ->
  start (param g) = true ->
  pause (game_info (param g)) <> 1 ->
  grid_ok FIELD_HEIGHT FIELD_WIDTH (field (game_info (param g))) ->
  grid_ok BLOCK BLOCK (next (game_info (param g))) ->
  grid_ok FIELD_HEIGHT FIELD_WIDTH (fieldForFront (param g)) ->
  ~ placed (with_currentPiece (promoted (param g)) (param g)) ->
  exists view ff,
    updateCurrentState rnd now g
    = Done (view,
            mkGame GameOver
              (with_fieldForFront ff
                 (with_currentPiece (promoted (param g)) (param g)))
              (disk g)) /\
    grid_ok FIELD_HEIGHT FIELD_WIDTH ff.
Proof.
  intros Hst Hstart Hp Hf Hn Hff Hblocked.
  pose proof (working_tick g Hstart Hp) as Hrc.
  unfold updateCurrentState. rewrite Hrc, Hst.
  destruct (spawnNewPiece_result rnd (param g) Hf Hn)
    as [Hs|(np & gn & _ & _ & _ & Hpl)]; [|by destruct Hblocked].
  rewrite Hs. cbn [bind].
  destruct (createGameInfo_defined
              (with_currentPiece (promoted (param g)) (param g)) true Hf Hff)
    as (view & ff & Hc & Hff1).
  cbn [param state disk].
  change (mkPiece (shape (nextPiece (param g))) 3 0
            (type (nextPiece (param g))) 0) with (promoted (param g)).
  rewrite Hc. cbn [bind]. by exists view, ff.
Qed.

(** A game that ended because the next piece did not fit cannot be
    started again with the Start action: Start moves the state machine
    from GameOver to Spawn, but nothing clears the field, so the next
    tick fails to place the same piece and the state is GameOver again,
    with the game information (field and score included) and the next
    piece as they were. *)
Theorem top_out_is_final (rnd rnd' : nat) (now now' : timespec) (g g1 : Game)
    (view : GameInfo_t) :
  state g = Spawn ->
  start (param g) = true ->
  pause (game_info (param g)) <> 1 ->
  grid_ok FIELD_HEIGHT FIELD_WIDTH (field (game_info (param g))) ->
  grid_ok BLOCK BLOCK (next (game_info (param g))) ->
  grid_ok FIELD_HEIGHT FIELD_WIDTH (fieldForFront (param g)) ->
  ~ placed (with_currentPiece (promoted (param g)) (param g)) ->
  updateCurrentState rnd now g = Done (view, g1) ->
  state g1 = GameOver /\
  exists g2 view' g3,
    userInput Start false g1 = Done g2 /\ state g2 = Spawn /\
    updateCurrentState rnd' now' g2 = Done (view', g3) /\
    state g3 = GameOver /\
    game_info (param g3) = game_info (param g) /\
    nextPiece (param g3) = nextPiece (param g).
Proof.
  intros Hst Hstart Hp Hf Hn Hff Hblocked Htick.
  destruct (blocked_tick rnd now g Hst Hstart Hp Hf Hn Hff Hblocked)
    as (v & ff & Ht & Hff1).
  rewrite Ht in Htick. inversion Htick; subst v g1. clear Htick.
  split; [reflexivity|].
  unfold userInput. cbn [negb state Status_game_eqb orb param disk].
  eexists. 
  match goal with
  | |- exists view' g3, Done ?g2 = Done _ /\ _ =>
      destruct (blocked_tick rnd' now' g2) as (v' & ff' & Ht' & _);
        [reflexivity|reflexivity|exact Hp|exact Hf|exact Hn|exact Hff1| |]
  end.
  - intros Hpl. apply Hblocked. revert Hpl. by apply placed_ext.
  - eexists v', _. split; [reflexivity|]. split; [reflexivity|].
    split; [exact Ht'|]. by repeat split.
Qed.

Lemma top_out_is_final_witness :
  exists view g1 g2 view' g3,
    updateCurrentState 1 t0 tower_state = Done (view, g1) /\
    state g1 = GameOver /\
    userInput Start false g1 = Done g2 /\ state g2 = Spawn /\
    updateCurrentState 1 t0 g2 = Done (view', g3) /\
    state g3 = GameOver.
Proof.
  destruct (updateCurrentState 1 t0 tower_state) as [[view g1]| |] eqn:Htick;
    try (exfalso; revert Htick; vm_compute; discriminate).
  destruct (top_out_is_final 1 1 t0 t0 tower_state g1 view)
    as (Hover & g2 & view' & g3 & Hin & Hsp & Ht & Hover' & _).
  - vm_compute. reflexivity.
  - vm_compute. reflexivity.
  - vm_compute. discriminate.
  - apply concrete_grid_ok. vm_compute. reflexivity.
  - apply concrete_grid_ok. vm_compute. reflexivity.
  - apply concrete_grid_ok. vm_compute. reflexivity.
  - intros Hpl.
    apply (canPlacePiece_placed _ false) in Hpl; [discriminate|].
    vm_compute. reflexivity.
  - exact Htick.
  - exists view, g1, g2, view', g3. by repeat split.
Defined.

(** ** Locking a piece *)

Lemma createGameInfo_cells p view p' :
  createGameInfo p true = Done (view, p') ->
  forall y x, on_board x y ->
    (covers (currentPiece p) y x ->
     peek (field view) y x = Done (type (currentPiece p) + 1)) /\
    (~ covers (currentPiece p) y x ->
     peek (field view) y x = peek (field (game_info p)) y x).
Proof.
  unfold createGameInfo. cbn [negb]. intros Hrun.
  apply bind_Done in Hrun as (g & Hcopy & Hrun).
  apply bind_Done in Hrun as (q & Hover & Hrun).
  unfold overlayCurrentPiece in Hover.
  apply bind_Done in Hover as (g' & Hpaint & [= <-]).
  cbn [currentPiece with_fieldForFront fieldForFront game_info] in *.
  inversion Hrun; subst. clear Hrun. cbn [field].
  intros y x Hon.
  pose proof (copy_cells_loop _ _ _ _ Hcopy y x) as Hc.
  destruct (decide ((y, x) ∈ field_cells)) as [_|Hn];
    [|destruct Hn; by apply field_cells_in].
  destruct (paint_loop (currentPiece p) block_cells _ _ Hpaint y x)
    as [Hhit Hmiss].
  split.
  - intros Hcov. by apply Hhit.
  - intros Hcov. rewrite (Hmiss Hcov). exact Hc.
Qed.

(** The Attaching tick of a started, unpaused game writes the current
    piece into the field, removes the full rows, adds the points for
    them (with the addition of [int]: the sum itself while it stays in
    range) and moves to Spawn; the piece stays the current piece.  The
    view the tick returns is the compacted field with the piece still
    drawn where it was fixed, also over rows that were just cleared. *)
Theorem lock_tick (rnd : nat) (now : timespec) (g : Game) :
  state g = Attaching ->
  start (param g) = true ->
  pause (game_info (param g)) <> 1 ->
  grid_ok FIELD_HEIGHT FIELD_WIDTH (field (game_info (param g))) ->
  grid_ok FIELD_HEIGHT FIELD_WIDTH (fieldForFront (param g)) ->
  exists f1 view g',
    fixFigure (param g) = Done (set_field f1 (param g)) /\
    updateCurrentState rnd now g = Done (view, g') /\
    state g' = Spawn /\ disk g' = disk g /\
    field (game_info (param g')) = compacted f1 /\
    score (game_info (param g'))
    = (if full_rows f1 =? 0 then score (game_info (param g))
       else int_of (score (game_info (param g)) + bonus (full_rows f1))) /\
    (INT_MIN <= score (game_info (param g)) ->
     score (game_info (param g)) + 1500 <= INT_MAX ->
     score (game_info (param g'))
     = score (game_info (param g)) + bonus (full_rows f1)) /\
    currentPiece (param g') = currentPiece (param g) /\
    nextPiece (param g') = nextPiece (param g) /\
    forall y x, on_board x y ->
      (covers (currentPiece (param g)) y x ->
       peek (field view) y x = Done (type (currentPiece (param g)) + 1)) /\
      (~ covers (currentPiece (param g)) y x ->
       peek (field view) y x = peek (compacted f1) y x).
Proof.
  intros Hst Hstart Hp Hf Hff.
  pose proof (working_tick g Hstart Hp) as Hrc.
  destruct (fixFigure_defined (param g) Hf) as (f1 & Hfix & Hf1).
  destruct (updateCurrentGameInfo_defined (set_field f1 (param g)) Hf1)
    as (f2 & k & Hup & Hf2).
  remember (if k =? 0 then set_field f2 (set_field f1 (param g))
            else updateInfo (set_field f2 (set_field f1 (param g))) k)
    as p2 eqn:Ep2.
  destruct (updateCurrentGameInfo_rest (set_field f1 (param g)) p2 Hf1 Hup)
    as (E1 & E2 & E3 & E4 & E5 & E6).
  cbn [set_field game_info with_game_info with_field field score
       currentPiece nextPiece fieldForFront] in E1, E3, E4, E5, E6.
  assert (field (game_info p2) = f2) as Ef2.
  { subst p2. destruct (k =? 0); [reflexivity|].
    by destruct (updateInfo_rest (set_field f2 (set_field f1 (param g))) k)
      as (-> & _). }
  destruct (createGameInfo_defined p2 true) as (view & ff & Hc & _).
  { by rewrite Ef2. }
  { by rewrite E5. }
  exists f1, view, (mkGame Spawn (with_fieldForFront ff p2) (disk g)).
  split; [exact Hfix|]. split.
  { unfold updateCurrentState. rewrite Hrc, Hst, Hfix. cbn [bind].
    rewrite Hup. cbn [bind param state disk]. rewrite Hc. reflexivity. }
  cbn [param state disk game_info currentPiece nextPiece with_fieldForFront].
  split; [reflexivity|]. split; [reflexivity|]. split; [exact E1|].
  split; [exact E6|]. split.
  { intros Hlo Hhi. rewrite E6.
    pose proof (bonus_bounds (full_rows f1)) as Hb.
    destruct (Z.eqb_spec (full_rows f1) 0) as [E|E].
    - rewrite E. cbn. lia.
    - apply int_of_id. lia. }
  split; [exact E3|]. split; [exact E4|].
  intros y x Hon.
  destruct (createGameInfo_cells _ _ _ Hc y x Hon) as [Hhit Hmiss].
  rewrite E3, E1 in *. by split.
Qed.

Lemma lock_tick_witness :
  exists view g',
    updateCurrentState 1 (mkTimespec 5 0) fifth_square_state
    = Done (view, g') /\
    state g' = Spawn /\ peek (field view) 19 8 = Done 2.
Proof.
  destruct (lock_tick 1 (mkTimespec 5 0) fifth_square_state)
    as (f1 & view & g' & _ & Htick & Hsp & _ & _ & _ & _ & _ & _ & Hcells).
  - vm_compute. reflexivity.
  - vm_compute. reflexivity.
  - vm_compute. discriminate.
  - apply concrete_grid_ok. vm_compute. reflexivity.
  - apply concrete_grid_ok. vm_compute. reflexivity.
  - exists view, g'. split; [exact Htick|]. split; [exact Hsp|].
    destruct (Hcells 19 8) as [Hhit _].
    { unfold on_board, FIELD_WIDTH, FIELD_HEIGHT. lia. }
    apply Hhit. exists 1, 0. split; [by_in_cells|].
    split; [vm_compute; discriminate|]. split; vm_compute; reflexivity.
Defined.

(** ** The first piece *)

Lemma spawnNewPiece_success rnd p p' :
  spawnNewPiece rnd p false = Done (true, p') ->
  drawNextPiece rnd (with_currentPiece (promoted p) p) = Done p'.
Proof.
  unfold spawnNewPiece. cbn [negb]. rewrite copyPieceShape_eq.
  change (mkPiece _ (FIELD_WIDTH ÷ 2 - BLOCK ÷ 2) 0 _ 0) with (promoted p).
  intros H. apply bind_Done in H as (ok & _ & H). destruct ok; [|done].
  by apply bind_Done in H as (q & Hq & [= <-]).
Qed.

Lemma template_fits_empty (n : nat) t ty p :
  pieces !! n = Some t ->
  field (game_info p) = initMatrix FIELD_HEIGHT FIELD_WIDTH ->
  placed (with_currentPiece (mkPiece t 3 0 ty 0) p).
Proof.
  intros Hlk Hf. apply concrete_placed. unfold canPlacePiece.
  cbn [currentPiece with_currentPiece game_info shape posX posY].
  rewrite Hf. clear Hf.
  do 7 (destruct n as [|n]; [inversion Hlk; subst t; vm_compute; reflexivity|]).
  done.
Qed.

(** Whatever the file, the random numbers and the clock are: after
    [initGame], the Start action and one tick, the game is in Moving
    with template [rnd1 % 7] (the piece [initGame] drew) as current
    piece at position (3, 0), which always fits on the empty field; the
    next piece is template [rnd2 % 7]; the field is empty, the score 0,
    the high score the one of the file, and the drop timer has not been
    started: it still holds the zero of the static. *)
Theorem first_piece (d : Disk) (rnd1 rnd2 : nat) (now : timespec) :
  exists g t,
    run [InitGame rnd1; UserInput Start false; UpdateCurrentState rnd2 now]
      (boot d) = Done g /\
    state g = Moving /\
    pieces !! Z.to_nat (Z.rem (Z.of_nat rnd1) 7) = Some t /\
    currentPiece (param g) = mkPiece t 3 0 (Z.rem (Z.of_nat rnd1) 7) 0 /\
    placed (param g) /\
    type (nextPiece (param g)) = Z.rem (Z.of_nat rnd2) 7 /\
    field (game_info (param g)) = initMatrix FIELD_HEIGHT FIELD_WIDTH /\
    score (game_info (param g)) = 0 /\
    high_score (game_info (param g)) = getHighScore d /\
    drop_time (param g) = mkTimespec 0 0.
Proof.
  destruct (initGame_effect rnd1 (boot d))
    as (g0 & Hinit & Hst & Hd & Hf & Hff & Hsc & Hl & Hv & Hp & Hh & Hty
        & Hdr & Hsh & Hstart & Hcur & Hdt).
  destruct (initGame_sound rnd1 (boot d)) as (g0' & Hinit' & Hs).
  assert (g0' = g0) as -> by congruence.
  destruct Hs as (Hgf & Hgn & Hgff & _).
  destruct Hdr as (Ht0 & Hlk & Hx & Hy & Hr).
  set (g1 := mkGame Spawn (with_start true (param g0)) (disk g0)).
  set (p1 := with_currentPiece (promoted (param g1)) (param g1)).
  assert (placed p1) as Hpl.
  { eapply template_fits_empty; [exact Hlk|exact Hf]. }
  destruct (spawnNewPiece_result rnd2 (param g1) Hgf Hgn)
    as [Hfail|(np & gn & Hok & _)].
  { apply spawnNewPiece_spec in Hfail as (_ & _ & Hiff & _).
    by apply Hiff in Hpl. }
  pose proof (spawnNewPiece_success _ _ _ Hok) as Hdraw.
  destruct (drawNextPiece_tidy _ _ _ Hdraw) as (_ & _ & _ & Hty2 & _).
  { exact (proj1 (proj2 (reachable_tidy _ (reach_init _ _ _ Hinit)))). }
  set (p2 := with_game_info (with_next gn (game_info (param g1)))
               (with_nextPiece np p1)) in *.
  destruct (createGameInfo_defined p2 true Hgf Hgff) as (view & ff & Hc & _).
  exists (mkGame Moving (with_fieldForFront ff p2) (disk g0)),
    (shape (nextPiece (param g0))).
  split.
  { unfold run. cbn [for_each step bind]. rewrite Hinit. cbn [bind].
    unfold userInput. cbn [negb]. rewrite Hst.
    cbn [Status_game_eqb orb bind]. fold g1.
    unfold updateCurrentState. cbn [state param disk g1].
    cbn [game_info with_start start]. rewrite Hp. cbn [Z.eqb orb negb].
    fold g1 in Hok. cbn [param g1] in Hok. rewrite Hok.
    cbn [bind param state disk].
    match goal with
    | |- bind (bind (bind ?m _) _) _ = _ =>
        change m with (createGameInfo p2 true)
    end.
    rewrite Hc. reflexivity. }
  cbn [state param game_info currentPiece nextPiece drop_time
       with_fieldForFront p2 with_game_info with_nextPiece with_next p1
       with_currentPiece g1 with_start field score high_score].
  split; [reflexivity|]. rewrite <- Hty. split; [exact Hlk|].
  split; [reflexivity|]. split; [exact Hpl|]. split; [exact Hty2|].
  split; [exact Hf|]. split; [exact Hsc|]. split; [exact Hh|exact Hdt].
Qed.

(** ** The high score on display *)

Lemma step_high_score c g g' :
  step c g = Done g' -> is_init c = false ->
  high_score (game_info (param g')) = high_score (game_info (param g)).
Proof.
  intros H Hc. destruct c; [done| |]; cbn [step] in H.
  - by destruct (userInput_frame _ _ _ _ H) as (_ & _ & _ & ? & _).
  - apply bind_Done in H as ([v g1] & Hu & [= <-]).
    by destruct (updateCurrentState_frame _ _ _ _ _ Hu) as (_ & ? & _).
Qed.

(** The high score held in the game information, which the views show,
    is read from the file by [initGame] and never written afterwards: no
    sequence of inputs and ticks changes it, also when the score passes
    it and the file is updated. *)
Theorem displayed_high_score_is_frozen (cs : list call) (g g' : Game) :
  run cs g = Done g' ->
  forallb (fun c => negb (is_init c)) cs = true ->
  high_score (game_info (param g')) = high_score (game_info (param g)).
Proof.
  revert g. induction cs as [|c cs IH]; intros g Hrun Hcs.
  - by inversion Hrun.
  - unfold run in Hrun. cbn [for_each] in Hrun.
    apply bind_Done in Hrun as (g1 & Hstep & Hrun).
    cbn [forallb] in Hcs. apply andb_prop in Hcs as [Hc Hcs].
    rewrite (IH g1 Hrun Hcs). apply (step_high_score c); [done|].
    by destruct (is_init c).
Qed.

Lemma displayed_high_score_is_frozen_witness :
  exists g',
    run [UserInput Down true; UpdateCurrentState 1 (mkTimespec 1 0);
         UserInput Terminate false] o_game_state = Done g' /\
    high_score (game_info (param g')) = 0.
Proof.
  destruct (run [UserInput Down true; UpdateCurrentState 1 (mkTimespec 1 0);
                 UserInput Terminate false] o_game_state)
    as [g'| |] eqn:Hrun;
    try (exfalso; revert Hrun; vm_compute; discriminate).
  exists g'. split; [reflexivity|].
  rewrite (displayed_high_score_is_frozen _ _ _ Hrun); [|reflexivity].
  vm_compute. reflexivity.
Defined.

(** * The collision invariant *)

Lemma inside_ext p p' :
  currentPiece p' = currentPiece p -> inside p -> inside p'.
Proof. unfold inside. by intros ->. Qed.

Lemma inside_zero p : currentPiece p = zero_piece -> inside p.
Proof. unfold inside. intros ->. by_cells; intros Hc; by destruct Hc. Qed.

Lemma template_inside (n : nat) t ty p :
  pieces !! n = Some t -> inside (with_currentPiece (mkPiece t 3 0 ty 0) p).
Proof.
  intros Hlk.
  apply (inside_ext (with_currentPiece (mkPiece t 3 0 ty 0)
                       (set_field (initMatrix FIELD_HEIGHT FIELD_WIDTH) p)));
    [reflexivity|].
  apply placed_inside. by eapply template_fits_empty.
Qed.

Lemma peek_initMatrix x y :
  on_board x y -> peek (initMatrix FIELD_HEIGHT FIELD_WIDTH) y x = Done 0.
Proof.
  unfold peek, initMatrix, on_board, FIELD_HEIGHT, FIELD_WIDTH.
  intros [Hx Hy].
  destruct (Z.ltb_spec y 0); [lia|]. destruct (Z.ltb_spec x 0); [lia|].
  cbn [orb]. rewrite lookup_replicate_2 by lia.
  by rewrite lookup_replicate_2 by lia.
Qed.

Lemma inside_empty_placed p :
  inside p -> field (game_info p) = initMatrix FIELD_HEIGHT FIELD_WIDTH ->
  placed p.
Proof.
  intros Hin Hf i j Hij Hc. split; [by apply Hin|].
  rewrite Hf. apply peek_initMatrix. by apply Hin.
Qed.

(** What an input does to the piece and to the state: the piece changes
    in [Moving] only, and no input leads to [Start_t] or to
    [Terminate_t]. *)
Lemma userInput_states a hold g g' :
  userInput a hold g = Done g' ->
  (currentPiece (param g') = currentPiece (param g) \/
   (state g = Moving /\ state g' = Moving)) /\
  (state g' = Start_t -> state g = Start_t) /\
  (state g <> Terminate_t -> state g' <> Terminate_t).
Proof.
  unfold userInput. intros H.
  destruct hold, a, (state g) eqn:Hst;
    cbn [negb Status_game_eqb andb orb] in H;
    try destruct (pause (game_info (param g)) =? 0);
    try destruct (pause (game_info (param g)) =? 1);
    try (apply bind_Done in H as (? & _ & H));
    try match type of H with
        | (let '(_, _) := ?x in _) = _ => destruct x
        end;
    inversion H; subst; cbn [state param];
    (split; [first [by left | by right]|]); by rewrite ?Hst.
Qed.

Lemma userInput_boxed a hold g g' :
  userInput a hold g = Done g' ->
  (in_play (state g) -> placed (param g)) ->
  boxed g -> boxed g'.
Proof.
  intros H Hpl (Hin & Hf & Hnt).
  destruct (userInput_states _ _ _ _ H) as (Hpiece & Hstart & Hterm).
  destruct (userInput_frame _ _ _ _ H) as (Hfield & _).
  split; [|split].
  - destruct Hpiece as [E|[Hm Hm']]; [by apply (inside_ext (param g))|].
    apply placed_inside. eapply userInput_placed; [exact H|exact Hpl|].
    rewrite Hm'. by left.
  - intros Hs. rewrite Hfield. by apply Hf, Hstart.
  - by apply Hterm.
Qed.

Lemma updateCurrentState_boxed rnd now g view g' :
  sound g -> tidy g -> boxed g ->
  updateCurrentState rnd now g = Done (view, g') -> boxed g'.
Proof.
  intros Hs Htidy Hb H.
  pose proof Hs as (Hgf & _ & _ & _ & Hpl & _).
  pose proof Htidy as (_ & Hcn & _ & Hd & Hsh & _).
  pose proof Hb as (Hin & Hf & Hnt).
  unfold updateCurrentState in H.
  apply bind_Done in H as (g1 & H1 & H).
  apply bind_Done in H as ([v p'] & Hc & [= <- <-]).
  assert (boxed g1) as (Hin1 & Hf1 & Hnt1).
  { destruct (negb _); [|by inversion H1; subst].
    destruct (state g) eqn:Hst.
    - destruct (start (param g)); inversion H1; subst; [|done].
      by split.
    - apply bind_Done in H1 as ([ok p1] & Hsp & H1).
      apply spawnNewPiece_tidy in Hsp as (_ & _ & Hc' & _); [|done..].
      assert (inside p1) as Hin1.
      { destruct Hd as (_ & Hlk & _).
        apply (inside_ext
                 (with_currentPiece
                    (mkPiece (shape (nextPiece (param g))) 3 0
                       (type (nextPiece (param g))) 0) (param g)));
          [exact Hc'|].
        by eapply template_inside. }
      by destruct ok; inversion H1; subst.
    - unfold getTime in H1. by destruct (_ >=? _); inversion H1; subst.
    - apply bind_Done in H1 as ([moved p1] & Hmv & H1).
      assert (placed p1) as Hpl1.
      { eapply moveFigureDown_placed; [exact Hmv|].
        apply Hpl. right. by left. }
      apply placed_inside in Hpl1.
      by destruct moved; inversion H1; subst.
    - by inversion H1; subst.
    - apply bind_Done in H1 as (p1 & Hfix1 & H1).
      apply bind_Done in H1 as (p2 & Hup & [= <-]).
      destruct (fixFigure_defined (param g) Hgf) as (f1 & Hfix & Hgf1).
      assert (p1 = set_field f1 (param g)) as -> by congruence.
      destruct (updateCurrentGameInfo_rest (set_field f1 (param g)) _
                  Hgf1 Hup) as (_ & _ & E3 & _).
      split; [|done]. by apply (inside_ext (param g)).
    - done.
    - by inversion H1; subst. }
  destruct (createGameInfo_frame _ _ _ _ Hc) as (Hgi & Hcur & _).
  split; [|split]; cbn [state param].
  - by apply (inside_ext (param g1)).
  - rewrite Hgi. exact Hf1.
  - exact Hnt1.
Qed.

Lemma reachable_boxed g : reachable g -> boxed g.
Proof.
  induction 1 as [d rnd g Hi|c g g' Hr IH Hstep].
  - destruct (initGame_effect rnd (boot d))
      as (g0 & Hi0 & Hst & _ & Hf & _ & _ & _ & _ & _ & _ & _ & _ & _ & _
          & Hcur & _).
    assert (g0 = g) as -> by congruence.
    split; [by apply inside_zero|]. split; [done|]. by rewrite Hst.
  - pose proof (reachable_sound _ Hr) as Hs.
    pose proof (reachable_tidy _ Hr) as Ht.
    destruct c as [rnd|a hold|rnd now]; cbn [step] in Hstep.
    + destruct (initGame_effect rnd g)
        as (g0 & Hi0 & Hst & _ & Hf & _ & _ & _ & _ & _ & _ & _ & _ & _ & _
            & Hcur & _).
      assert (g0 = g') as -> by congruence.
      split; [|split; [done|by rewrite Hst]].
      apply (inside_ext (param g)); [exact Hcur|apply IH].
    + eapply userInput_boxed; [exact Hstep| |exact IH].
      intros Hplay. by apply Hs.
    + apply bind_Done in Hstep as ([v g1] & Hu & [= <-]).
      by eapply updateCurrentState_boxed.
Qed.

(** C1, amended.  In every reachable state each occupied cell of the
    current piece is within the board.  In every reachable state other
    than [Spawn] and [GameOver] (where a fixed piece, or a piece that
    found no room, remains the current piece) no occupied cell of the
    current piece is on a non-zero cell of the field.  A successful
    move or rotation of a legally placed piece, and a successful spawn,
    leave the piece legally placed. *)
Theorem C1_collision_invariant :
  (forall g, reachable g -> inside (param g)) /\
  (forall g, reachable g -> state g <> Spawn -> state g <> GameOver ->
     placed (param g)) /\
  (forall p p', placed p ->
     moveFigureLeft p = Done (true, p') \/
     moveFigureRight p = Done (true, p') \/
     moveFigureDown p = Done (true, p') \/
     rotatePiece p = Done (true, p') ->
     placed p') /\
  (forall rnd p p', spawnNewPiece rnd p false = Done (true, p') ->
     placed p').
Proof.
  split; [|split; [|split]].
  - intros g Hr. by destruct (reachable_boxed g Hr).
  - intros g Hr Hsp Hgo.
    destruct (reachable_boxed g Hr) as (Hin & Hf & Hnt).
    pose proof (reachable_sound _ Hr) as (_ & _ & _ & _ & Hpl & _).
    destruct (state g) eqn:Hst; try done;
      try (apply Hpl; unfold in_play; tauto).
    by apply inside_empty_placed, Hf.
  - intros p p' Hp [H|[H|[H|H]]].
    + by eapply moveFigureLeft_placed.
    + by eapply moveFigureRight_placed.
    + by eapply moveFigureDown_placed.
    + by eapply rotatePiece_placed.
  - intros rnd p p'. apply spawnNewPiece_placed.
Qed.

Lemma C1_collision_invariant_witness :
  (exists g, run o_at_wall_calls (boot empty_disk) = Done g /\
     state g = Moving /\ placed (param g)) /\
  (exists g, run o_fixed_calls (boot empty_disk) = Done g /\
     state g = Spawn /\ inside (param g)).
Proof.
  destruct C1_collision_invariant as (Hin & Hinv & _).
  split.
  - eexists. split; [vm_compute; reflexivity|]. split; [reflexivity|].
    apply Hinv.
    + apply (reachable_boot empty_disk 1 (tail o_at_wall_calls)).
      vm_compute. reflexivity.
    + vm_compute. discriminate.
    + vm_compute. discriminate.
  - eexists. split; [vm_compute; reflexivity|]. split; [reflexivity|].
    apply Hin.
    apply (reachable_boot empty_disk 1 (tail o_fixed_calls)).
    vm_compute. reflexivity.
Defined.

(** * The score within the range of [int] *)

Lemma run_score cs :
  forall g g' B,
    run cs g = Done g' ->
    0 <= score (game_info (param g)) <= B ->
    B + 1500 * Z.of_nat (length cs) <= INT_MAX ->
    0 <= score (game_info (param g')) <= B + 1500 * Z.of_nat (length cs).
Proof.
  unfold run.
  induction cs as [|c cs IH]; intros g g' B Hrun Hs HB; cbn [for_each] in Hrun.
  - inversion Hrun; subst. cbn [length]. lia.
  - apply bind_Done in Hrun as (g1 & Hstep & Hrun).
    cbn [length] in *.
    assert (0 <= score (game_info (param g1)) <= B + 1500) as Hs1.
    { destruct c as [rnd|a hold|rnd now]; cbn [step] in Hstep.
      - destruct (initGame_effect rnd g)
          as (g0 & Hi0 & _ & _ & _ & _ & Hsc & _).
        assert (g0 = g1) as -> by congruence. lia.
      - apply userInput_frame in Hstep as (_ & _ & E & _). lia.
      - apply bind_Done in Hstep as ([v g2] & Hu & [= <-]).
        apply updateCurrentState_frame in Hu as (Hg & _).
        apply gained_le in Hg; unfold INT_MIN, INT_MAX in *; lia. }
    pose proof (IH g1 g' (B + 1500) Hrun Hs1 ltac:(lia)). lia.
Qed.

(** The score cannot overflow early: after [initGame] and [n] further
    calls, with [1500 * n] within [INT_MAX], the score is between 0 and
    [1500 * n]; so the level is [min (floor (score / 600) + 1) 10],
    between 1 and 10, and the speed is between 100 and 1000. *)
Theorem score_within_calls (d : Disk) (rnd : nat) (cs : list call)
    (g : Game) :
  run (InitGame rnd :: cs) (boot d) = Done g ->
  1500 * Z.of_nat (length cs) <= INT_MAX ->
  let gi := game_info (param g) in
  0 <= score gi <= 1500 * Z.of_nat (length cs) /\
  level gi = Z.min (score gi / 600 + 1) 10 /\
  1 <= level gi <= 10 /\ 100 <= speed gi <= 1000.
Proof.
  intros Hrun Hn.
  pose proof (reachable_boot _ _ _ _ Hrun) as Hr.
  apply reachable_sound in Hr as (_&_&_&_&_&_&Hl&Hv&_).
  unfold run in Hrun. cbn [for_each step] in Hrun.
  apply bind_Done in Hrun as (g0 & Hinit & Hrun).
  destruct (initGame_effect rnd (boot d))
    as (g0' & Hi0 & _ & _ & _ & _ & Hsc & _).
  assert (g0' = g0) as -> by congruence.
  pose proof (run_score cs g0 g 0 Hrun ltac:(lia) ltac:(lia)) as Hs.
  cbv zeta. split; [lia|].
  rewrite Z.quot_div_nonneg in Hl by lia.
  assert (0 <= score (game_info (param g)) / 600)
    by (apply Z.div_pos; lia).
  lia.
Qed.

Lemma score_within_calls_witness :
  exists g, run five_squares (boot empty_disk) = Done g /\
    0 <= score (game_info (param g))
    <= 1500 * Z.of_nat (length (tail five_squares)) /\
    1 <= level (game_info (param g)) <= 10.
Proof.
  destruct (run five_squares (boot empty_disk)) as [g| |] eqn:Hrun;
    try (exfalso; revert Hrun; vm_compute; discriminate).
  destruct (score_within_calls empty_disk 1 (tail five_squares) g Hrun)
    as (Hs & _ & Hl & _).
  - vm_compute. discriminate.
  - exists g. split; [reflexivity|]. split; [exact Hs|exact Hl].
Defined.
